(** * CheckedFile: the checksum-protected paged file of libE57Format

    A shallow embedding of [src/CheckedFile.cpp].  Unsigned 64-bit values are
    integers of [Z] whose wrap-around is written with [u64]; bytes are
    [Byte.byte]; the object and the operating system below it are explicit
    state, threaded through a small state-and-exception monad. *)

From Stdlib Require Import ZArith List Lia Bool.
From Stdlib Require Import String.
From Stdlib Require Import Strings.Byte.
Import ListNotations.
Open Scope Z_scope.

(** ** Machine integers *)

Definition u64 (z : Z) : Z := z mod 2 ^ 64.
Definition u32 (z : Z) : Z := z mod 2 ^ 32.

(** [static_cast<int64_t>] of an unsigned 64-bit value. *)
Definition to_int64 (z : Z) : Z := if z <? 2 ^ 63 then z else z - 2 ^ 64.

(** ** Page geometry *)

(** Modelled from the spec: the constants of CheckedFile.h, which is not part
    of the sources at hand (spec section 3, page geometry). *)
Definition physicalPageSizeLog2 : Z := 10.
Definition physicalPageSize : Z := Z.shiftl 1 physicalPageSizeLog2.
Definition physicalPageSizeMask : Z := physicalPageSize - 1.
Definition logicalPageSize : Z := physicalPageSize - 4.

(** Modelled from the spec: [logicalToPhysical] is declared in CheckedFile.h;
    spec section 3 gives [P = (L / logicalPageSize) * physicalPageSize +
    (L mod logicalPageSize)], here on unsigned 64-bit integers. *)
Definition logicalToPhysical (logicalOffset : Z) : Z :=
  let page := logicalOffset / logicalPageSize in
  let remainder := u64 (logicalOffset - u64 (page * logicalPageSize)) in
  u64 (u64 (page * physicalPageSize) + remainder).

(** Modelled from the spec: [physicalToLogical] is declared in CheckedFile.h;
    spec section 3: with [q = P >> physicalPageSizeLog2] and
    [r = P & physicalPageSizeMask], [L = q * logicalPageSize + r] when
    [r <= logicalPageSize] and [(q + 1) * logicalPageSize] otherwise. *)
Definition physicalToLogical (physicalOffset : Z) : Z :=
  let q := Z.shiftr physicalOffset physicalPageSizeLog2 in
  let r := Z.land physicalOffset physicalPageSizeMask in
  if r <=? logicalPageSize
  then u64 (u64 (q * logicalPageSize) + r)
  else u64 ((q + 1) * logicalPageSize).

(** ** Checksum *)

Definition Z_of_byte (b : byte) : Z := Z.of_N (Byte.to_N b).

Definition byte_of_Z (z : Z) : byte :=
  match Byte.of_N (Z.to_N (z mod 256)) with
  | Some b => b
  | None => x00
  end.

Definition swap_uint32 (val : Z) : Z :=
  let val := Z.lor (Z.land (u32 (Z.shiftl val 8)) 0xFF00FF00)
                   (Z.land (Z.shiftr val 8) 0xFF00FF) in
  Z.lor (u32 (Z.shiftl val 16)) (Z.shiftr val 16).

Module CRC.

(** Modelled from the spec: CRC.h (the CRC++ library) is not part of the
    sources at hand.  This is the parametrised CRC of spec section 4.1:
    a polynomial, an initial value, a final XOR, and the two reflection
    flags, computed bit by bit. *)
Record Parameters : Type := {
  polynomial : Z;
  initialXOR : Z;
  finalXOR : Z;
  reflectInput : bool;
  reflectOutput : bool
}.

(** Reverse the low [n] bits of [v]. *)
Fixpoint Reflect (n : nat) (v : Z) : Z :=
  match n with
  | O => 0
  | S n' => Z.lor (Z.shiftl (Z.land v 1) (Z.of_nat n')) (Reflect n' (Z.shiftr v 1))
  end.

(** One step of the shift register, most significant bit first. *)
Definition ShiftBit (poly : Z) (r : Z) : Z :=
  if Z.testbit r 31
  then Z.lxor (u32 (Z.shiftl r 1)) poly
  else u32 (Z.shiftl r 1).

Definition UpdateByte (p : Parameters) (r : Z) (b : byte) : Z :=
  let d := if reflectInput p then Reflect 8 (Z_of_byte b) else Z_of_byte b in
  let r := Z.lxor r (Z.shiftl d 24) in
  Nat.iter 8 (ShiftBit (polynomial p)) r.

Definition Calculate (p : Parameters) (data : list byte) : Z :=
  let r := fold_left (UpdateByte p) data (initialXOR p) in
  let r := if reflectOutput p then Reflect 32 r else r in
  Z.lxor r (finalXOR p).

End CRC.

Definition sCRCParams : CRC.Parameters :=
  {| CRC.polynomial := 0x1EDC6F41;
     CRC.initialXOR := 0xFFFFFFFF;
     CRC.finalXOR := 0xFFFFFFFF;
     CRC.reflectInput := true;
     CRC.reflectOutput := true |}.

(** Calc CRC32C of given data: the first [size] bytes of [buf]. *)
Definition checksum (buf : list byte) (size : Z) : Z :=
  let crc := CRC.Calculate sCRCParams (firstn (Z.to_nat size) buf) in
  swap_uint32 crc.

(** ** Byte buffers *)

Definition len {A : Type} (l : list A) : Z := Z.of_nat (List.length l).
Definition take {A : Type} (n : Z) (l : list A) : list A := firstn (Z.to_nat n) l.
Definition drop {A : Type} (n : Z) (l : list A) : list A := skipn (Z.to_nat n) l.
Definition byte_at (l : list byte) (i : Z) : byte := nth (Z.to_nat i) l x00.
Definition zeros (n : Z) : list byte := repeat x00 (Z.to_nat n).

(** [memcpy (dst + off, src, len src)]: the bytes of [src] replace those of
    [dst] from [off] on; bytes of [src] that fall behind the end of [dst] are
    appended (a file grows, a page buffer is never written that far). *)
Definition overwrite (dst : list byte) (off : Z) (src : list byte) : list byte :=
  take off dst ++ src ++ drop (off + len src) dst.

(** The byte order of the host, which decides what the [reinterpret_cast] to
    [uint32_t *] in [writePhysicalPage] and [verifyChecksum] stores and loads. *)
Inductive Endianness : Type := LittleEndian | BigEndian.

Definition le_bytes (v : Z) : list byte :=
  [byte_of_Z v; byte_of_Z (Z.shiftr v 8); byte_of_Z (Z.shiftr v 16); byte_of_Z (Z.shiftr v 24)].

Definition le_value (bs : list byte) : Z :=
  fold_right (fun b acc => Z_of_byte b + 256 * acc) 0 bs.

Definition encode_uint32 (host : Endianness) (v : Z) : list byte :=
  match host with
  | LittleEndian => le_bytes v
  | BigEndian => rev (le_bytes v)
  end.

Definition decode_uint32 (host : Endianness) (bs : list byte) : Z :=
  match host with
  | LittleEndian => le_value bs
  | BigEndian => le_value (rev bs)
  end.

Definition store_uint32 (host : Endianness) (buf : list byte) (off : Z) (v : Z) : list byte :=
  overwrite buf off (encode_uint32 host v).

Definition load_uint32 (host : Endianness) (buf : list byte) (off : Z) : Z :=
  decode_uint32 host (take 4 (drop off buf)).

(** ** The operating system under the file descriptor *)

Inductive Whence : Type := SEEK_SET | SEEK_CUR | SEEK_END.

Inductive Syscall : Type :=
| SysOpen (flags_trunc : bool)
| SysLseek (offset : Z) (whence : Whence)
| SysRead (count : Z)
| SysWrite (count : Z)
| SysClose (fd : Z).

(** The world outside the object: the one file its name refers to, the file
    offset of the open descriptor, the results the system is going to give to
    the coming [open], [write] and [close] calls ([script]: a negative entry
    is a failure, a non-negative entry of a [write] is the number of bytes the
    system accepts at most, no entry is a plain success), the system calls
    made so far (latest first), and the caller's buffer behind a BufferView
    ([None] once it has been freed). *)
Record World : Type := mkWorld {
  disk : list byte;
  offset : Z;
  script : list Z;
  trace : list Syscall;
  caller_buffer : option (list byte)
}.

Definition set_disk (d : list byte) (w : World) : World :=
  mkWorld d (offset w) (script w) (trace w) (caller_buffer w).
Definition set_offset (o : Z) (w : World) : World :=
  mkWorld (disk w) o (script w) (trace w) (caller_buffer w).
Definition set_script (sc : list Z) (w : World) : World :=
  mkWorld (disk w) (offset w) sc (trace w) (caller_buffer w).
Definition log (c : Syscall) (w : World) : World :=
  mkWorld (disk w) (offset w) (script w) (c :: trace w) (caller_buffer w).

(** The descriptor [open] hands out. *)
Definition the_fd : Z := 3.

Definition os_open (trunc : bool) (w : World) : Z * World :=
  let w := log (SysOpen trunc) w in
  let opened := set_offset 0 (if trunc then set_disk [] w else w) in
  match script w with
  | [] => (the_fd, opened)
  | r :: rest =>
      if r <? 0 then (-1, set_script rest w) else (the_fd, set_script rest opened)
  end.

Definition os_lseek (fd : Z) (off : Z) (whence : Whence) (w : World) : Z * World :=
  let w := log (SysLseek off whence) w in
  if fd <? 0 then (-1, w)
  else
    let base := match whence with
                | SEEK_SET => 0
                | SEEK_CUR => offset w
                | SEEK_END => len (disk w)
                end in
    let r := base + off in
    if (r <? 0) || (2 ^ 63 <=? r) then (-1, w) else (r, set_offset r w).

(** [read]: the bytes between the file offset and the end of the file, at
    most [count] of them. *)
Definition os_read (fd : Z) (count : Z) (w : World) : (Z * list byte) * World :=
  let w := log (SysRead count) w in
  if fd <? 0 then ((-1, []), w)
  else
    let data := take count (drop (offset w) (disk w)) in
    ((len data, data), set_offset (offset w + len data) w).

(** [write]: a file shorter than the file offset is filled up with zero
    bytes first. *)
Definition os_write (fd : Z) (buf : list byte) (count : Z) (w : World) : Z * World :=
  let w := log (SysWrite count) w in
  if fd <? 0 then (-1, w)
  else
    let put (accepted : Z) (w : World) :=
      let data := take accepted buf in
      let padded := disk w ++ zeros (offset w - len (disk w)) in
      (len data, set_offset (offset w + len data) (set_disk (overwrite padded (offset w) data) w)) in
    match script w with
    | [] => put count w
    | r :: rest =>
        if r <? 0 then (-1, set_script rest w) else put (Z.min r count) (set_script rest w)
    end.

Definition os_close (fd : Z) (w : World) : Z * World :=
  let w := log (SysClose fd) w in
  if fd <? 0 then (-1, w)
  else
    match script w with
    | [] => (0, w)
    | r :: rest => ((if r <? 0 then -1 else 0), set_script rest w)
    end.

(** ** The object *)

Inductive ErrorCode : Type :=
| ErrorOpenFailed
| ErrorSeekFailed
| ErrorReadFailed
| ErrorWriteFailed
| ErrorCloseFailed
| ErrorBadChecksum
| ErrorFileReadOnly
| ErrorInternal.

Inductive Mode : Type := Read | Write.
Inductive OffsetMode : Type := Logical | Physical.

Module ChecksumPolicy.
(** Modelled from the spec: the policy is a percentage (spec section 3);
    [None] is 0 and [All] is 100. *)
Definition ChecksumNone : Z := 0.
Definition ChecksumAll : Z := 100.
End ChecksumPolicy.

(** The view of the caller's buffer; [stream_] is the caller's buffer of the
    world. *)
Record BufferView : Type := mkBufferView {
  streamSize_ : Z;
  cursorStream_ : Z
}.

Record CheckedFile : Type := mkCheckedFile {
  fileName_ : String.string;
  logicalLength_ : Z;
  physicalLength_ : Z;
  checkSumPolicy_ : Z;
  fd_ : Z;
  bufView_ : option BufferView;
  readOnly_ : bool
}.

Record State : Type := mkState {
  this : CheckedFile;
  os : World
}.

Definition set_logicalLength (v : Z) (s : State) : State :=
  let c := this s in
  mkState (mkCheckedFile (fileName_ c) v (physicalLength_ c) (checkSumPolicy_ c)
             (fd_ c) (bufView_ c) (readOnly_ c)) (os s).
Definition set_physicalLength (v : Z) (s : State) : State :=
  let c := this s in
  mkState (mkCheckedFile (fileName_ c) (logicalLength_ c) v (checkSumPolicy_ c)
             (fd_ c) (bufView_ c) (readOnly_ c)) (os s).
Definition set_fd (v : Z) (s : State) : State :=
  let c := this s in
  mkState (mkCheckedFile (fileName_ c) (logicalLength_ c) (physicalLength_ c)
             (checkSumPolicy_ c) v (bufView_ c) (readOnly_ c)) (os s).
Definition set_bufView (v : option BufferView) (s : State) : State :=
  let c := this s in
  mkState (mkCheckedFile (fileName_ c) (logicalLength_ c) (physicalLength_ c)
             (checkSumPolicy_ c) (fd_ c) v (readOnly_ c)) (os s).
Definition set_readOnly (v : bool) (s : State) : State :=
  let c := this s in
  mkState (mkCheckedFile (fileName_ c) (logicalLength_ c) (physicalLength_ c)
             (checkSumPolicy_ c) (fd_ c) (bufView_ c) v) (os s).
Definition set_os (w : World) (s : State) : State := mkState (this s) w.

(** ** The monad: state, exceptions, undefined behaviour *)

Inductive Outcome (A : Type) : Type :=
| Ok (a : A) (s : State)
| Throw (e : ErrorCode) (s : State)
| Undefined
| OutOfFuel.
Arguments Ok {A} a s.
Arguments Throw {A} e s.
Arguments Undefined {A}.
Arguments OutOfFuel {A}.

Definition M (A : Type) : Type := State -> Outcome A.

Definition ret {A : Type} (a : A) : M A := fun s => Ok a s.
Definition bind {A B : Type} (m : M A) (k : A -> M B) : M B :=
  fun s =>
    match m s with
    | Ok a s' => k a s'
    | Throw e s' => Throw e s'
    | Undefined => Undefined
    | OutOfFuel => OutOfFuel
    end.
Definition throw {A : Type} (e : ErrorCode) : M A := fun s => Throw e s.
Definition undefined {A : Type} : M A := fun _ => Undefined.
Definition out_of_fuel {A : Type} : M A := fun _ => OutOfFuel.
Definition gets {A : Type} (f : CheckedFile -> A) : M A := fun s => Ok (f (this s)) s.
Definition modify (f : State -> State) : M unit := fun s => Ok tt (f s).
Definition syscall {A : Type} (f : World -> A * World) : M A :=
  fun s => let (a, w) := f (os s) in Ok a (set_os w s).

Notation "x <- c1 ;; c2" := (bind c1 (fun x => c2))
  (at level 61, c1 at next level, right associativity).
Notation "' pat <- c1 ;; c2" := (bind c1 (fun x => match x with pat => c2 end))
  (at level 61, pat pattern, c1 at next level, right associativity).
Notation "c1 ;;; c2" := (bind c1 (fun _ => c2))
  (at level 61, right associativity).

(** ** BufferView *)

Module BufferView.

Definition pos (bv : BufferView) : Z := cursorStream_ bv.

Definition seek (bv : BufferView) (offset : Z) (whence : Whence) : bool * BufferView :=
  let cursor := match whence with
                | SEEK_CUR => u64 (cursorStream_ bv + offset)
                | SEEK_SET => offset
                | SEEK_END => u64 (streamSize_ bv - offset)
                end in
  if cursor >? streamSize_ bv
  then (false, mkBufferView (streamSize_ bv) (streamSize_ bv))
  else (true, mkBufferView (streamSize_ bv) cursor).

(** The loop of [read]: [buffer[i] = stream_[start + i]] for the [count]
    indices from [i] on; [None] when an index is outside the caller's
    buffer. *)
Fixpoint copy (stream : list byte) (start : Z) (i : Z) (count : nat) : option (list byte) :=
  match count with
  | O => Some []
  | S count' =>
      match nth_error stream (Z.to_nat (u64 (start + i))) with
      | None => None
      | Some b =>
          match copy stream start (i + 1) count' with
          | None => None
          | Some bs => Some (b :: bs)
          end
      end
  end.

Definition read (stream : option (list byte)) (bv : BufferView) (buffer : list byte) (count : Z)
  : option (list byte * BufferView) :=
  match stream with
  | None => None
  | Some st =>
      match copy st (cursorStream_ bv) 0 (Z.to_nat count) with
      | None => None
      | Some bs =>
          Some (overwrite buffer 0 bs,
                mkBufferView (streamSize_ bv) (u64 (cursorStream_ bv + count)))
      end
  end.

End BufferView.

(** ** CheckedFile *)

(** [nearbyint (a / b)] for integers [a >= 0] and [b > 0] in the default
    rounding mode (to nearest, ties to even).  For [a = 100] and an [int] [b]
    the quotient of the doubles is either a tie, which is exact, or at least
    [1 / (2 b)] away from one, so rounding the double equals rounding the
    rational. *)
Definition nearbyint_div (a b : Z) : Z :=
  let q := a / b in
  let r := a mod b in
  if 2 * r <? b then q
  else if b <? 2 * r then q + 1
  else if Z.even q then q else q + 1.

(** [static_cast<unsigned int> (std::nearbyint (100.0 / policy))]: [None]
    where the conversion is undefined (the quotient is infinite, or it rounds
    to a negative integer).  The source computes it once before the loop of
    [read] and uses it in the default branch of the switch only, where the
    model computes it. *)
Definition checksumMod (policy : Z) : option Z :=
  if 0 <? policy then Some (nearbyint_div 100 policy)
  else if policy <=? -200 then Some 0
  else None.

Section CheckedFile.

Variable host : Endianness.

Definition memory_backed (c : CheckedFile) : option BufferView :=
  if fd_ c <? 0 then bufView_ c else None.

Definition lseek64 (offset : Z) (whence : Whence) : M Z :=
  mb <- gets memory_backed ;;
  match mb with
  | Some bv =>
      let uoffset := u64 offset in
      let '(ok, bv') := BufferView.seek bv uoffset whence in
      modify (set_bufView (Some bv')) ;;;
      if ok then ret (BufferView.pos bv') else throw ErrorSeekFailed
  | None =>
      fd <- gets fd_ ;;
      result <- syscall (os_lseek fd offset whence) ;;
      if result <? 0 then throw ErrorSeekFailed else ret result
  end.

Definition seek (offset : Z) (omode : OffsetMode) : M unit :=
  let pos := to_int64 (match omode with
                       | Physical => offset
                       | Logical => logicalToPhysical offset
                       end) in
  lseek64 pos SEEK_SET ;;; ret tt.

Definition position (omode : OffsetMode) : M Z :=
  pos <- lseek64 0 SEEK_CUR ;;
  match omode with
  | Physical => ret pos
  | Logical => ret (physicalToLogical pos)
  end.

Definition length (omode : OffsetMode) : M Z :=
  match omode with
  | Physical =>
      ro <- gets readOnly_ ;;
      if (ro : bool) then gets physicalLength_
      else
        original_pos <- lseek64 0 SEEK_CUR ;;
        end_pos <- lseek64 0 SEEK_END ;;
        lseek64 (to_int64 original_pos) SEEK_SET ;;;
        ret end_pos
  | Logical => gets logicalLength_
  end.

Definition getCurrentPageAndOffset (omode : OffsetMode) : M (Z * Z) :=
  pos <- position omode ;;
  match omode with
  | Physical =>
      ret (Z.shiftr pos physicalPageSizeLog2, Z.land pos physicalPageSizeMask)
  | Logical =>
      let page := pos / logicalPageSize in
      ret (page, u64 (pos - u64 (page * logicalPageSize)))
  end.

Definition readPhysicalPage (page_buffer : list byte) (page : Z) : M (list byte) :=
  seek (u64 (page * physicalPageSize)) Physical ;;;
  mb <- gets memory_backed ;;
  match mb with
  | Some bv =>
      fun s =>
        match BufferView.read (caller_buffer (os s)) bv page_buffer physicalPageSize with
        | None => Undefined
        | Some (page_buffer', bv') => Ok page_buffer' (set_bufView (Some bv') s)
        end
  | None =>
      fd <- gets fd_ ;;
      '(result, data) <- syscall (os_read fd physicalPageSize) ;;
      if (result <? 0) || negb (result =? physicalPageSize)
      then throw ErrorReadFailed
      else ret (overwrite page_buffer 0 data)
  end.

Definition writePhysicalPage (page_buffer : list byte) (page : Z) : M (list byte) :=
  let check_sum := checksum page_buffer logicalPageSize in
  let page_buffer := store_uint32 host page_buffer logicalPageSize check_sum in
  seek (u64 (page * physicalPageSize)) Physical ;;;
  fd <- gets fd_ ;;
  result <- syscall (os_write fd page_buffer physicalPageSize) ;;
  if result <? 0 then throw ErrorWriteFailed else ret page_buffer.

Definition verifyChecksum (page_buffer : list byte) (page : Z) : M unit :=
  let check_sum := checksum page_buffer logicalPageSize in
  let check_sum_in_page := load_uint32 host page_buffer logicalPageSize in
  if negb (check_sum_in_page =? check_sum)
  then length Physical ;;; throw ErrorBadChecksum
  else ret tt.

(** The loop of [read]; [buf] holds the bytes copied out so far. *)
Fixpoint read_loop (fuel : nat) (policy : Z) (nRead page pageOffset n : Z)
         (page_buffer buf : list byte) : M (list byte) :=
  if 0 <? nRead then
    match fuel with
    | O => out_of_fuel
    | S fuel' =>
        page_buffer <- readPhysicalPage page_buffer page ;;
        (if policy =? ChecksumPolicy.ChecksumNone then ret tt
         else if policy =? ChecksumPolicy.ChecksumAll then verifyChecksum page_buffer page
         else
           match checksumMod policy with
           | None => undefined
           | Some 0 => undefined
           | Some m =>
               if (page mod m =? 0) || (nRead <? physicalPageSize)
               then verifyChecksum page_buffer page
               else ret tt
           end) ;;;
        let buf := buf ++ take n (drop pageOffset page_buffer) in
        let nRead := u64 (nRead - n) in
        read_loop fuel' policy nRead (u64 (page + 1)) 0 (Z.min nRead logicalPageSize)
                  page_buffer buf
    end
  else ret buf.

(** [read]: the result is what the call leaves in the destination [buf]. *)
Definition read (nRead : Z) : M (list byte) :=
  pos <- position Logical ;;
  let end_ := u64 (pos + nRead) in
  logicalLength <- length Logical ;;
  if logicalLength <? end_ then throw ErrorInternal
  else
    '(page, pageOffset) <- getCurrentPageAndOffset Logical ;;
    let n := Z.min nRead (u64 (logicalPageSize - pageOffset)) in
    let page_buffer := zeros physicalPageSize in
    policy <- gets checkSumPolicy_ ;;
    buf <- read_loop (Z.to_nat nRead) policy nRead page pageOffset n page_buffer [] ;;
    seek end_ Logical ;;;
    ret buf.

(** The loop of [write]; [buf] is what is left of the source. *)
Fixpoint write_loop (fuel : nat) (buf : list byte) (nWrite page pageOffset n : Z)
         (page_buffer : list byte) : M unit :=
  if 0 <? nWrite then
    match fuel with
    | O => out_of_fuel
    | S fuel' =>
        physicalLength <- length Physical ;;
        page_buffer <- (if u64 (page * physicalPageSize) <? physicalLength
                        then readPhysicalPage page_buffer page
                        else ret page_buffer) ;;
        if len buf <? n then undefined
        else
          let page_buffer := overwrite page_buffer pageOffset (take n buf) in
          page_buffer <- writePhysicalPage page_buffer page ;;
          let buf := drop n buf in
          let nWrite := u64 (nWrite - n) in
          write_loop fuel' buf nWrite (u64 (page + 1)) 0 (Z.min nWrite logicalPageSize)
                     page_buffer
    end
  else ret tt.

Definition write (buf : list byte) (nWrite : Z) : M unit :=
  ro <- gets readOnly_ ;;
  if (ro : bool) then throw ErrorFileReadOnly
  else
    pos <- position Logical ;;
    let end_ := u64 (pos + nWrite) in
    '(page, pageOffset) <- getCurrentPageAndOffset Logical ;;
    let n := Z.min nWrite (u64 (logicalPageSize - pageOffset)) in
    let page_buffer := zeros physicalPageSize in
    write_loop (Z.to_nat nWrite) buf nWrite page pageOffset n page_buffer ;;;
    logicalLength <- gets logicalLength_ ;;
    (if logicalLength <? end_ then modify (set_logicalLength end_) else ret tt) ;;;
    seek end_ Logical.

(** The loop of [extend]. *)
Fixpoint extend_loop (fuel : nat) (nWrite page pageOffset n : Z)
         (page_buffer : list byte) : M unit :=
  if 0 <? nWrite then
    match fuel with
    | O => out_of_fuel
    | S fuel' =>
        physicalLength <- length Physical ;;
        page_buffer <- (if u64 (page * physicalPageSize) <? physicalLength
                        then readPhysicalPage page_buffer page
                        else ret page_buffer) ;;
        let page_buffer := overwrite page_buffer pageOffset (zeros n) in
        page_buffer <- writePhysicalPage page_buffer page ;;
        let nWrite := u64 (nWrite - n) in
        extend_loop fuel' nWrite (u64 (page + 1)) 0
                    (if nWrite <? logicalPageSize then nWrite else logicalPageSize)
                    page_buffer
    end
  else ret tt.

Definition extend (newLength : Z) (omode : OffsetMode) : M unit :=
  ro <- gets readOnly_ ;;
  if (ro : bool) then throw ErrorFileReadOnly
  else
    let newLogicalLength := match omode with
                            | Physical => physicalToLogical newLength
                            | Logical => newLength
                            end in
    currentLogicalLength <- length Logical ;;
    if newLogicalLength <? currentLogicalLength then throw ErrorInternal
    else
      let nWrite := u64 (newLogicalLength - currentLogicalLength) in
      seek currentLogicalLength Logical ;;;
      '(page, pageOffset) <- getCurrentPageAndOffset Logical ;;
      let n := if nWrite <? u64 (logicalPageSize - pageOffset)
               then nWrite
               else u64 (logicalPageSize - pageOffset) in
      let page_buffer := zeros physicalPageSize in
      extend_loop (Z.to_nat nWrite) nWrite page pageOffset n page_buffer ;;;
      modify (set_logicalLength newLogicalLength) ;;;
      seek newLogicalLength Logical.

Definition close : M unit :=
  fd <- gets fd_ ;;
  (if 0 <=? fd then
     result <- syscall (os_close fd) ;;
     if result <? 0 then throw ErrorCloseFailed else modify (set_fd (-1))
   else ret tt) ;;;
  bv <- gets bufView_ ;;
  match bv with
  | Some _ => modify (set_bufView None)
  | None => ret tt
  end.

Definition open64 (flags_trunc : bool) : M Z :=
  fd <- syscall (os_open flags_trunc) ;;
  if fd <? 0 then throw ErrorOpenFailed else ret fd.

(** Modelled from the spec: the member initialisers of CheckedFile.h, which
    is not part of the sources at hand: lengths 0, no descriptor, no
    BufferView, writable. *)
Definition fresh_object (fileName : String.string) (policy : Z) : CheckedFile :=
  mkCheckedFile fileName 0 0 policy (-1) None false.

(** [CheckedFile (fileName, mode, policy)] *)
Definition CheckedFile_file (fileName : String.string) (mode : Mode) (policy : Z) (w : World)
  : Outcome unit :=
  let s := mkState (fresh_object fileName policy) w in
  match mode with
  | Read =>
      (fd <- open64 false ;;
       modify (set_fd fd) ;;;
       modify (set_readOnly true) ;;;
       physicalLength <- lseek64 0 SEEK_END ;;
       modify (set_physicalLength physicalLength) ;;;
       lseek64 0 SEEK_SET ;;;
       modify (set_logicalLength (physicalToLogical physicalLength))) s
  | Write =>
      (fd <- open64 true ;;
       modify (set_fd fd)) s
  end.

(** [CheckedFile (input, size, policy)]: [input] is the caller's buffer of
    the world. *)
Definition CheckedFile_memory (size : Z) (policy : Z) (w : World) : Outcome unit :=
  let s := mkState (fresh_object "<StreamBuffer>"%string policy) w in
  (modify (set_bufView (Some (mkBufferView size 0))) ;;;
   modify (set_readOnly true) ;;;
   physicalLength <- lseek64 0 SEEK_END ;;
   modify (set_physicalLength physicalLength) ;;;
   lseek64 0 SEEK_SET ;;;
   modify (set_logicalLength (physicalToLogical physicalLength))) s.

End CheckedFile.

(** [operator<< (const ustring &s)]: the [s.length ()] bytes of [s], without
    a terminator; the reference to the object it returns is the state. *)
Definition operator_shl (host : Endianness) (s : list byte) : M unit :=
  write host s (len s).

(** * The vocabulary of the properties *)

(** The two offset maps without the wrap-around. *)
Definition l2p (L : Z) : Z := L / 1020 * 1024 + L mod 1020.

Definition p2l (P : Z) : Z := P / 1024 * 1020 + Z.min (P mod 1024) 1020.

(** The system calls of [length (Physical)] on a writable file. *)
Definition length_trace (o : Z) (tr : list Syscall) : list Syscall :=
  SysLseek o SEEK_SET :: SysLseek 0 SEEK_END :: SysLseek 0 SEEK_CUR :: tr.

(** The physical page [page] of an image. *)
Definition page_at (d : list byte) (page : Z) : list byte :=
  take 1024 (drop (page * 1024) d).

(** A page buffer with its checksum stored behind the data, as
    [writePhysicalPage] leaves it. *)
Definition seal (host : Endianness) (pb : list byte) : list byte :=
  store_uint32 host pb logicalPageSize (checksum pb logicalPageSize).

(** The stored checksum of a page is the checksum of its data. *)
Definition page_ok (host : Endianness) (pg : list byte) : Prop :=
  load_uint32 host pg logicalPageSize = checksum pg logicalPageSize.

(** The byte reversal of a 32-bit word, in the words of the specification:
    the word whose four bytes are those of [v] in the opposite order. *)
Definition byte_reversal (v : Z) : Z := le_value (rev (le_bytes v)).

(** A file just opened for writing on an empty world, and the state an
    outcome ends in. *)
Definition empty_world : World := mkWorld [] 0 [] [] None.

Definition new_file (policy : Z) : State :=
  mkState (mkCheckedFile "scan.e57" 0 0 policy the_fd None false)
          (mkWorld [] 0 [] [SysOpen true] None).

Definition state_of {A : Type} (o : Outcome A) (s0 : State) : State :=
  match o with
  | Ok _ s => s
  | Throw _ s => s
  | _ => s0
  end.

(** An instance over a caller's buffer. *)
Definition memory_file (buf : list byte) (policy : Z) : State :=
  state_of (CheckedFile_memory (len buf) policy (mkWorld [] 0 [] [] (Some buf)))
           (new_file policy).

(** An operation raises no other errors than those of [P]. *)
Definition throws_only {A : Type} (P : ErrorCode -> Prop) (m : M A) : Prop :=
  forall s e s', m s = Throw e s' -> P e.

Definition seek_error (e : ErrorCode) : Prop := e = ErrorSeekFailed.

Definition page_error (e : ErrorCode) : Prop :=
  e = ErrorSeekFailed \/ e = ErrorReadFailed \/ e = ErrorBadChecksum.

(** A 100-byte file with the cursor at logical offset 100. *)
Definition hundred_byte_file : State :=
  state_of ((write LittleEndian (zeros 100) 100 ;;; seek 100 Logical) (new_file 100))
           (new_file 100).

(** The page [write] and [extend] put at [page]: the page of the file where
    there is one, the buffer as it stands otherwise, with [chunk] copied in
    at [pageOffset], and sealed. *)
Definition step_page (host : Endianness) (d pb : list byte) (page pageOffset : Z)
           (chunk : list byte) : list byte :=
  seal host (overwrite (if page * 1024 <? len d then page_at d page else pb) pageOffset chunk).

(** The image after [writePhysicalPage] has put [pg] at [page]. *)
Definition step_disk (d : list byte) (page : Z) (pg : list byte) : list byte :=
  overwrite (d ++ zeros (page * 1024 - len d)) (page * 1024) pg.

(** What the loop of [write] makes of an image [d], with [nWrite] bytes of
    [buf] from the logical offset [page * 1020 + pageOffset] on: the length
    of the image; the pages it touches are sealed; they hold the bytes of
    [buf]; the other pages, and the other data bytes of the pages that
    existed, are what they were; the first page, where it did not exist,
    holds the buffer [pb] around the bytes written; a later page that did
    not exist holds the page before it behind the bytes written. *)
Definition written (host : Endianness) (d d' buf pb : list byte)
           (page pageOffset nWrite : Z) : Prop :=
  let L := page * 1020 + pageOffset in
  let E := L + nWrite in
  len d' = Z.max (len d) (if 0 <? nWrite then (E + 1019) / 1020 * 1024 else 0) /\
  (forall j, page <= j -> j * 1020 < E -> 0 < nWrite -> page_ok host (page_at d' j)) /\
  (forall j i, 0 <= j -> 0 <= i < 1020 -> L <= j * 1020 + i < E ->
               byte_at d' (j * 1024 + i) = byte_at buf (j * 1020 + i - L)) /\
  (forall j i, 0 <= j -> 0 <= i < 1024 -> j < page \/ E <= j * 1020 ->
               byte_at d' (j * 1024 + i) = byte_at d (j * 1024 + i)) /\
  (forall j i, 0 <= j -> 0 <= i < 1020 -> j * 1020 + i < L \/ E <= j * 1020 + i ->
               j * 1024 + i < len d ->
               byte_at d' (j * 1024 + i) = byte_at d (j * 1024 + i)) /\
  (len d <= page * 1024 -> 0 < nWrite ->
   forall i, 0 <= i < 1020 -> i < pageOffset \/ pageOffset + nWrite <= i ->
             byte_at d' (page * 1024 + i) = byte_at pb i) /\
  (forall j i, 0 < nWrite -> page < j -> j * 1020 < E -> len d <= j * 1024 ->
               0 <= i < 1020 -> E <= j * 1020 + i ->
               byte_at d' (j * 1024 + i) = byte_at d' ((j - 1) * 1024 + i)).

(** The object with another logical length. *)
Definition with_logicalLength (v : Z) (c : CheckedFile) : CheckedFile :=
  mkCheckedFile (fileName_ c) v (physicalLength_ c) (checkSumPolicy_ c)
                (fd_ c) (bufView_ c) (readOnly_ c).

(** The logical bytes [L, L + n) of an image. *)
Definition logical (d : list byte) (L n : Z) : list byte :=
  map (fun i => byte_at d (l2p (L + Z.of_nat i))) (seq 0 (Z.to_nat n)).

(** Does [read] verify page [page], with [nRead] bytes still to read? *)
Definition verifies (policy page nRead : Z) : bool :=
  if policy =? ChecksumPolicy.ChecksumNone then false
  else if policy =? ChecksumPolicy.ChecksumAll then true
  else match checksumMod policy with
       | Some m => (page mod m =? 0) || (nRead <? physicalPageSize)
       | None => false
       end.

(** The bytes still to read when a read of [L, E) reaches page [j]. *)
Definition remaining (L E j : Z) : Z := E - Z.max L (j * 1020).

(** The policies of the specification: None, All and Sampled(p), as
    percentages. *)
Definition valid_policy (policy : Z) : Prop := 0 <= policy <= 100.

(** Continue with the object a constructor has built. *)
Definition after_open {A : Type} (o : Outcome unit) (k : M A) : Outcome A :=
  match o with
  | Ok _ s => k s
  | Throw e s => Throw e s
  | Undefined => Undefined
  | OutOfFuel => OutOfFuel
  end.

(** A file of ten bytes 0xAB. *)
Definition ten_byte_file : State :=
  state_of (write LittleEndian (repeat "171"%byte 10) 10 (new_file 100)) (new_file 100).

(** A three-page file with one byte of page 1 changed behind the back of the
    object, reopened for reading, with the cursor at logical offset 2020
    (offset 1000 of page 1). *)
Definition three_page_image : list byte :=
  disk (os (state_of (write LittleEndian (zeros 3060) 3060 (new_file 100)) (new_file 100))).

Definition corrupted_image : list byte :=
  overwrite three_page_image (1 * 1024 + 500) ["001"%byte].

Definition corrupted_file (policy : Z) : State :=
  state_of (after_open (CheckedFile_file "scan.e57" Read policy
                          (mkWorld corrupted_image 0 [] [] None))
                       (seek 2020 Logical))
           (new_file policy).

(** Every whole page of an image carries the checksum of its data. *)
Definition all_sealed (host : Endianness) (d : list byte) : Prop :=
  forall j, 0 <= j -> (j + 1) * 1024 <= len d -> page_ok host (page_at d j).

(** A file in good order, on a system that reports no failure: an open
    descriptor, an image of whole sealed pages that covers the logical
    length, and a policy of the specification. *)
Record consistent (host : Endianness) (s : State) : Prop := {
  consistent_fd : 0 <= fd_ (this s);
  consistent_script : script (os s) = [];
  consistent_pages : len (disk (os s)) mod 1024 = 0;
  consistent_size : len (disk (os s)) < 2 ^ 62;
  consistent_offset : 0 <= offset (os s) < 2 ^ 63;
  consistent_cover : 0 <= logicalLength_ (this s) <= len (disk (os s)) / 1024 * 1020;
  consistent_sealed : all_sealed host (disk (os s));
  consistent_policy : valid_policy (checkSumPolicy_ (this s))
}.

(** No descriptor and no BufferView: the object after [close]. *)
Definition closed (s : State) : Prop :=
  fd_ (this s) < 0 /\ bufView_ (this s) = None.

(** The errors of the system calls behind a page, and the errors of [read],
    of [write] and of [extend]. *)
Definition io_error (e : ErrorCode) : Prop :=
  e = ErrorSeekFailed \/ e = ErrorReadFailed \/ e = ErrorWriteFailed.

Definition read_error (e : ErrorCode) : Prop :=
  e = ErrorInternal \/ page_error e.

Definition write_error (e : ErrorCode) : Prop :=
  e = ErrorFileReadOnly \/ io_error e.

Definition extend_error (e : ErrorCode) : Prop :=
  e = ErrorInternal \/ write_error e.

(** The object with another checksum policy. *)
Definition with_policy (policy : Z) (s : State) : State :=
  let c := this s in
  mkState (mkCheckedFile (fileName_ c) (logicalLength_ c) (physicalLength_ c) policy
             (fd_ c) (bufView_ c) (readOnly_ c)) (os s).

(** A file cut in the middle of its first page, opened for reading. *)
Definition truncated_file : State :=
  state_of (CheckedFile_file "scan.e57" Read 100 (mkWorld (zeros 512) 0 [] [] None))
           (new_file 100).

(** The image of the file of ten bytes, and that file with one byte of its
    page changed behind the back of the object. *)
Definition ten_byte_image : list byte := disk (os ten_byte_file).

Definition damaged_file : State :=
  mkState (mkCheckedFile "scan.e57" 10 0 100 the_fd None false)
          (mkWorld (overwrite ten_byte_image 500 ["001"%byte]) 10 [] [] None).

(** An object over a caller's buffer of [size] bytes, with the cursor at
    [cur]. *)
Definition over_buffer (c : CheckedFile) (size cur : Z) (w : World) : State :=
  mkState (mkCheckedFile (fileName_ c) (logicalLength_ c) (physicalLength_ c)
             (checkSumPolicy_ c) (fd_ c) (Some (mkBufferView size cur)) (readOnly_ c)) w.

(** The file of ten bytes after [close]; a writable file cut in the middle
    of its first page; a new file on a system that refuses the next
    [write]. *)
Definition closed_file : State := state_of (close ten_byte_file) ten_byte_file.

Definition cut_file : State :=
  mkState (mkCheckedFile "scan.e57" 0 0 100 the_fd None false)
          (mkWorld (zeros 512) 0 [] [] None).

Definition refused_file : State :=
  mkState (mkCheckedFile "scan.e57" 0 0 100 the_fd None false)
          (mkWorld [] 0 [-1] [] None).

(** The error of a read that stops at a page: the page is not wholly in the
    image, or its checksum is wrong. *)
Definition stop_error (d : list byte) (k : Z) : ErrorCode :=
  if len d <? (k + 1) * 1024 then ErrorReadFailed else ErrorBadChecksum.

(** * Properties *)

(** The standard check value of CRC-32C. *)
Example crc32c_check_value :
  CRC.Calculate sCRCParams
    (map byte_of_Z [0x31; 0x32; 0x33; 0x34; 0x35; 0x36; 0x37; 0x38; 0x39])
  = 0xE3069283.
Proof. vm_compute. reflexivity. Qed.

(** ** Machine integers and the offset maps *)

Lemma u64_small (z : Z) : 0 <= z < 2 ^ 64 -> u64 z = z.
Proof. intros H. unfold u64. apply Z.mod_small. exact H. Qed.

Lemma to_int64_small (z : Z) : 0 <= z < 2 ^ 63 -> to_int64 z = z.
Proof.
  intros H. unfold to_int64.
  destruct (Z.ltb_spec z (2 ^ 63)); [reflexivity | lia].
Qed.

Lemma physicalPageSize_eq : physicalPageSize = 1024.
Proof. reflexivity. Qed.

Lemma logicalPageSize_eq : logicalPageSize = 1020.
Proof. reflexivity. Qed.

Lemma shiftr_page (P : Z) : Z.shiftr P physicalPageSizeLog2 = P / 1024.
Proof. unfold physicalPageSizeLog2. rewrite Z.shiftr_div_pow2 by lia. reflexivity. Qed.

Lemma land_page (P : Z) : Z.land P physicalPageSizeMask = P mod 1024.
Proof.
  change physicalPageSizeMask with (Z.ones 10).
  rewrite Z.land_ones by lia. reflexivity.
Qed.

Lemma l2p_bounds (L : Z) : 0 <= L -> L <= l2p L /\ l2p L <= L + 4 * (L / 1020) /\ l2p L < L / 1020 * 1024 + 1020.
Proof.
  intros H. unfold l2p.
  pose proof (Z.div_mod L 1020 ltac:(lia)).
  pose proof (Z.mod_pos_bound L 1020 ltac:(lia)).
  assert (0 <= L / 1020) by (apply Z.div_pos; lia).
  lia.
Qed.

Lemma l2p_small (L : Z) : 0 <= L < 2 ^ 62 -> 0 <= l2p L < 2 ^ 63.
Proof.
  intros H. unfold l2p.
  pose proof (Z.div_mod L 1020 ltac:(lia)).
  pose proof (Z.mod_pos_bound L 1020 ltac:(lia)).
  assert (0 <= L / 1020) by (apply Z.div_pos; lia).
  lia.
Qed.

Lemma l2p_mono (a b : Z) : 0 <= a <= b -> l2p a <= l2p b.
Proof.
  intros H. unfold l2p.
  pose proof (Z.div_mod a 1020 ltac:(lia)).
  pose proof (Z.div_mod b 1020 ltac:(lia)).
  pose proof (Z.mod_pos_bound a 1020 ltac:(lia)).
  pose proof (Z.mod_pos_bound b 1020 ltac:(lia)).
  assert (a / 1020 <= b / 1020) by (apply Z.div_le_mono; lia).
  destruct (Z.eq_dec (a / 1020) (b / 1020)) as [E | E]; [rewrite E in *; lia | lia].
Qed.

Lemma logicalToPhysical_l2p (L : Z) :
  0 <= L -> l2p L < 2 ^ 64 -> logicalToPhysical L = l2p L.
Proof.
  intros H0 H1. unfold logicalToPhysical, l2p in *.
  rewrite logicalPageSize_eq, physicalPageSize_eq.
  pose proof (Z.div_mod L 1020 ltac:(lia)).
  pose proof (Z.mod_pos_bound L 1020 ltac:(lia)).
  assert (0 <= L / 1020) by (apply Z.div_pos; lia).
  rewrite (u64_small (L / 1020 * 1020)) by lia.
  replace (L - L / 1020 * 1020) with (L mod 1020) by lia.
  rewrite (u64_small (L mod 1020)) by lia.
  rewrite (u64_small (L / 1020 * 1024)) by lia.
  apply u64_small. lia.
Qed.

Lemma physicalToLogical_p2l (P : Z) :
  0 <= P < 2 ^ 64 -> physicalToLogical P = p2l P.
Proof.
  intros H. unfold physicalToLogical, p2l.
  rewrite shiftr_page, land_page, logicalPageSize_eq.
  pose proof (Z.div_mod P 1024 ltac:(lia)).
  pose proof (Z.mod_pos_bound P 1024 ltac:(lia)).
  assert (0 <= P / 1024) by (apply Z.div_pos; lia).
  destruct (Z.leb_spec (P mod 1024) 1020).
  - rewrite (u64_small (P / 1024 * 1020)) by lia.
    rewrite u64_small by lia. lia.
  - rewrite u64_small by lia. lia.
Qed.

Lemma p2l_l2p (L : Z) : 0 <= L -> p2l (l2p L) = L.
Proof.
  intros H. unfold p2l, l2p.
  pose proof (Z.div_mod L 1020 ltac:(lia)).
  pose proof (Z.mod_pos_bound L 1020 ltac:(lia)).
  assert (E1 : (L / 1020 * 1024 + L mod 1020) / 1024 = L / 1020).
  { symmetry. apply (Z.div_unique _ _ _ (L mod 1020)); lia. }
  assert (E2 : (L / 1020 * 1024 + L mod 1020) mod 1024 = L mod 1020).
  { symmetry. apply (Z.mod_unique _ _ (L / 1020)); lia. }
  rewrite E1, E2. lia.
Qed.

Lemma l2p_p2l (P : Z) : 0 <= P -> P mod 1024 < 1020 -> l2p (p2l P) = P.
Proof.
  intros H Hr. unfold p2l, l2p.
  pose proof (Z.div_mod P 1024 ltac:(lia)).
  pose proof (Z.mod_pos_bound P 1024 ltac:(lia)).
  rewrite Z.min_l by lia.
  assert (E1 : (P / 1024 * 1020 + P mod 1024) / 1020 = P / 1024).
  { symmetry. apply (Z.div_unique _ _ _ (P mod 1024)); lia. }
  assert (E2 : (P / 1024 * 1020 + P mod 1024) mod 1020 = P mod 1024).
  { symmetry. apply (Z.mod_unique _ _ (P / 1024)); lia. }
  rewrite E1, E2. lia.
Qed.

Lemma p2l_le (P : Z) : 0 <= P -> 0 <= p2l P <= P.
Proof.
  intros H. unfold p2l.
  pose proof (Z.div_mod P 1024 ltac:(lia)).
  pose proof (Z.mod_pos_bound P 1024 ltac:(lia)).
  assert (0 <= P / 1024) by (apply Z.div_pos; lia).
  lia.
Qed.

(** C3, as amended: the offset maps are mutually inverse on every logical
    offset of a [k]-page image that 64-bit offsets address, and on every
    physical offset that lies in the data region of its page
    ([P mod physicalPageSize < logicalPageSize], strictly). *)
Theorem offset_maps_inverse (k L P : Z)
  (Hk : 0 <= k) (Hsize : k * physicalPageSize < 2 ^ 64)
  (HL : 0 <= L <= k * logicalPageSize)
  (HP : 0 <= P < 2 ^ 64) (Hdata : P mod physicalPageSize < logicalPageSize) :
  physicalToLogical (logicalToPhysical L) = L /\
  logicalToPhysical (physicalToLogical P) = P.
Proof.
  rewrite physicalPageSize_eq, logicalPageSize_eq in *.
  split.
  - assert (Hb : l2p L <= k * 1024).
    { replace (k * 1024) with (l2p (k * 1020)).
      - apply l2p_mono. lia.
      - unfold l2p. rewrite Z.div_mul, Z.mod_mul by lia. lia. }
    pose proof (l2p_bounds L ltac:(lia)).
    rewrite logicalToPhysical_l2p by lia.
    rewrite physicalToLogical_p2l by lia.
    apply p2l_l2p. lia.
  - rewrite physicalToLogical_p2l by lia.
    pose proof (p2l_le P ltac:(lia)).
    rewrite logicalToPhysical_l2p; rewrite ?l2p_p2l by lia; try lia.
Qed.

Lemma offset_maps_inverse_witness :
  physicalToLogical (logicalToPhysical 2039) = 2039 /\
  logicalToPhysical (physicalToLogical 2043) = 2043.
Proof.
  apply (offset_maps_inverse 2 2039 2043); vm_compute; try split; congruence.
Defined.

(** C3 as stated fails on a physical offset at the first checksum byte of a
    page: it satisfies [P mod physicalPageSize <= logicalPageSize], and maps
    to the logical offset that starts the next page. *)
Lemma offset_maps_boundary_counterexample :
  1020 mod physicalPageSize <= logicalPageSize /\
  logicalToPhysical (physicalToLogical 1020) <> 1020.
Proof. vm_compute. split; congruence. Qed.

(** ** Bytes and 32-bit words *)

Lemma Z_of_byte_range (b : byte) : 0 <= Z_of_byte b < 256.
Proof.
  unfold Z_of_byte. pose proof (Byte.to_N_bounded b). lia.
Qed.

Lemma Z_of_byte_of_Z (z : Z) : Z_of_byte (byte_of_Z z) = z mod 256.
Proof.
  unfold Z_of_byte, byte_of_Z.
  pose proof (Z.mod_pos_bound z 256 ltac:(lia)) as Hr.
  destruct (Byte.of_N (Z.to_N (z mod 256))) as [b |] eqn:E.
  - apply Byte.to_of_N in E. rewrite E. lia.
  - apply Byte.of_N_None_iff in E. lia.
Qed.

Lemma byte_of_Z_of_byte (b : byte) : byte_of_Z (Z_of_byte b) = b.
Proof.
  unfold byte_of_Z. pose proof (Z_of_byte_range b) as Hr.
  rewrite Z.mod_small by lia. unfold Z_of_byte.
  rewrite N2Z.id, Byte.of_to_N. reflexivity.
Qed.

Lemma byte_of_Z_mod (a b : Z) : a mod 256 = b mod 256 -> byte_of_Z a = byte_of_Z b.
Proof. intros H. unfold byte_of_Z. rewrite H. reflexivity. Qed.

Lemma le_value_le_bytes (v : Z) : 0 <= v < 2 ^ 32 -> le_value (le_bytes v) = v.
Proof.
  intros H. unfold le_value, le_bytes. cbn [fold_right].
  rewrite !Z_of_byte_of_Z, !Z.shiftr_div_pow2 by lia.
  change (2 ^ 8) with 256. change (2 ^ 16) with (256 * 256).
  change (2 ^ 24) with (256 * 256 * 256).
  rewrite <- !Z.div_div by lia.
  pose proof (Z.div_mod v 256 ltac:(lia)).
  pose proof (Z.div_mod (v / 256) 256 ltac:(lia)).
  pose proof (Z.div_mod (v / 256 / 256) 256 ltac:(lia)).
  pose proof (Z.div_mod (v / 256 / 256 / 256) 256 ltac:(lia)).
  pose proof (Z.mod_pos_bound v 256 ltac:(lia)).
  pose proof (Z.mod_pos_bound (v / 256) 256 ltac:(lia)).
  pose proof (Z.mod_pos_bound (v / 256 / 256) 256 ltac:(lia)).
  assert (v / 256 / 256 / 256 < 256).
  { rewrite !Z.div_div by lia. apply Z.div_lt_upper_bound; lia. }
  assert (0 <= v / 256 / 256 / 256).
  { rewrite !Z.div_div by lia. apply Z.div_pos; lia. }
  rewrite (Z.mod_small (v / 256 / 256 / 256)) by lia.
  lia.
Qed.

Lemma decode_encode_uint32 (host : Endianness) (v : Z) :
  0 <= v < 2 ^ 32 -> decode_uint32 host (encode_uint32 host v) = v.
Proof.
  intros H. destruct host; unfold decode_uint32, encode_uint32.
  - apply le_value_le_bytes; exact H.
  - rewrite rev_involutive. apply le_value_le_bytes; exact H.
Qed.

Lemma encode_uint32_length (host : Endianness) (v : Z) : len (encode_uint32 host v) = 4.
Proof. destruct host; reflexivity. Qed.

(** Bit-level reasoning on machine words. *)
Ltac bits_norm :=
  repeat match goal with
    | |- context [Z.testbit (Z.lor ?a ?b) ?n] => rewrite (Z.lor_spec a b n)
    | |- context [Z.testbit (Z.land ?a ?b) ?n] => rewrite (Z.land_spec a b n)
    | |- context [Z.testbit (Z.shiftr ?a ?k) ?n] => rewrite (Z.shiftr_spec a k n) by lia
    | |- context [Z.testbit (Z.shiftl ?a ?k) ?n] => rewrite (Z.shiftl_spec a k n) by lia
    | |- context [Z.testbit (?a mod 2 ^ ?k) ?n] =>
        first [ rewrite (Z.mod_pow2_bits_low a k n) by lia
              | rewrite (Z.mod_pow2_bits_high a k n) by lia ]
    | |- context [Z.testbit ?a ?n] => rewrite (Z.testbit_neg_r a n) by lia
    end.

Lemma testbit_const_high (c n : Z) : 0 <= c < 2 ^ 32 -> 32 <= n -> Z.testbit c n = false.
Proof.
  intros Hc Hn. destruct (Z.eq_dec c 0) as [-> | Hz]; [apply Z.bits_0 |].
  apply Z.bits_above_log2; [lia |].
  assert (Z.log2 c < 32) by (apply Z.log2_lt_pow2; lia). lia.
Qed.

Lemma swap_uint32_range (v : Z) : 0 <= swap_uint32 v < 2 ^ 32.
Proof.
  assert (E : swap_uint32 v mod 2 ^ 32 = swap_uint32 v).
  { apply Z.bits_inj'. intros n Hn.
    destruct (Z.lt_ge_cases n 32) as [Hlt | Hge].
    - rewrite Z.mod_pow2_bits_low by lia. reflexivity.
    - rewrite Z.mod_pow2_bits_high by lia. symmetry.
      unfold swap_uint32, u32. bits_norm.
      rewrite (testbit_const_high 0xFF00FF (n + 16)) by lia.
      rewrite andb_false_r. reflexivity. }
  rewrite <- E. apply Z.mod_pos_bound. lia.
Qed.

Lemma checksum_range (buf : list byte) (size : Z) : 0 <= checksum buf size < 2 ^ 32.
Proof. unfold checksum. apply swap_uint32_range. Qed.

Ltac eval_bits :=
  repeat match goal with
    | |- context [Z.testbit ?a ?i] =>
        lazymatch i with
        | Zpos _ => fail
        | Z0 => fail
        | Zneg _ => fail
        | _ => let i' := eval vm_compute in i in progress change i with i'
        end
    end;
  repeat match goal with
    | |- context [Z.testbit (Zpos ?p) ?i] =>
        let b := eval vm_compute in (Z.testbit (Zpos p) i) in
        change (Z.testbit (Zpos p) i) with b
    end;
  rewrite ?andb_true_r, ?andb_false_r, ?orb_false_r, ?orb_false_l.

Lemma swap_uint32_byte (v k : Z) :
  k = 0 \/ k = 8 \/ k = 16 \/ k = 24 ->
  Z.shiftr (swap_uint32 v) k mod 256 = Z.shiftr v (24 - k) mod 256.
Proof.
  intros Hk. change 256 with (2 ^ 8).
  apply Z.bits_inj'. intros n Hn.
  destruct (Z.lt_ge_cases n 8) as [Hlt | Hge].
  - rewrite !Z.mod_pow2_bits_low by lia.
    assert (Hc : n = 0 \/ n = 1 \/ n = 2 \/ n = 3 \/ n = 4 \/ n = 5 \/ n = 6 \/ n = 7) by lia.
    unfold swap_uint32, u32.
    destruct Hk as [-> | [-> | [-> | ->]]];
      repeat (destruct Hc as [-> | Hc]); try subst n;
      bits_norm; eval_bits; reflexivity.
  - rewrite !Z.mod_pow2_bits_high by lia. reflexivity.
Qed.

Lemma le_bytes_swap_uint32 (v : Z) : le_bytes (swap_uint32 v) = rev (le_bytes v).
Proof.
  unfold le_bytes. cbn [rev app].
  rewrite <- (Z.shiftr_0_r (swap_uint32 v)) at 1.
  rewrite <- (Z.shiftr_0_r v) at 4.
  f_equal; [| f_equal; [| f_equal; [| f_equal ]]];
    apply byte_of_Z_mod.
  - apply (swap_uint32_byte v 0). lia.
  - apply (swap_uint32_byte v 8). lia.
  - apply (swap_uint32_byte v 16). lia.
  - apply (swap_uint32_byte v 24). lia.
Qed.

(** ** Byte buffers *)

Lemma len_nonneg {A : Type} (l : list A) : 0 <= len l.
Proof. unfold len. lia. Qed.

Lemma len_nil {A : Type} : len (@nil A) = 0.
Proof. reflexivity. Qed.

Lemma len_cons {A : Type} (x : A) (l : list A) : len (x :: l) = 1 + len l.
Proof. unfold len. cbn [List.length]. lia. Qed.

Lemma len_app {A : Type} (a b : list A) : len (a ++ b) = len a + len b.
Proof. unfold len. rewrite length_app. lia. Qed.

Lemma len_take {A : Type} (n : Z) (l : list A) : 0 <= n -> len (take n l) = Z.min n (len l).
Proof. intros H. unfold len, take. rewrite length_firstn. lia. Qed.

Lemma len_drop {A : Type} (n : Z) (l : list A) : 0 <= n -> len (drop n l) = Z.max 0 (len l - n).
Proof. intros H. unfold len, drop. rewrite length_skipn. lia. Qed.

Lemma len_zeros (n : Z) : len (zeros n) = Z.max 0 n.
Proof. unfold len, zeros. rewrite repeat_length. lia. Qed.

Lemma len_overwrite (dst src : list byte) (off : Z) :
  0 <= off <= len dst -> len (overwrite dst off src) = Z.max (len dst) (off + len src).
Proof.
  intros H. unfold overwrite. pose proof (len_nonneg src).
  rewrite !len_app, len_take, len_drop by lia. lia.
Qed.

Lemma byte_at_beyond (l : list byte) (i : Z) : len l <= i -> byte_at l i = x00.
Proof. intros H. unfold byte_at, len in *. apply nth_overflow. lia. Qed.

Lemma byte_at_app (a b : list byte) (i : Z) :
  0 <= i -> byte_at (a ++ b) i = if i <? len a then byte_at a i else byte_at b (i - len a).
Proof.
  intros H. unfold byte_at, len.
  destruct (Z.ltb_spec i (Z.of_nat (List.length a))).
  - apply app_nth1. lia.
  - rewrite app_nth2 by lia. f_equal. lia.
Qed.

Lemma byte_at_take (n : Z) (l : list byte) (i : Z) :
  0 <= i -> byte_at (take n l) i = if i <? n then byte_at l i else x00.
Proof.
  intros H. unfold byte_at, take. rewrite nth_firstn.
  destruct (Z.ltb_spec i n); destruct (Nat.ltb_spec (Z.to_nat i) (Z.to_nat n));
    try reflexivity; lia.
Qed.

Lemma byte_at_drop (n : Z) (l : list byte) (i : Z) :
  0 <= n -> 0 <= i -> byte_at (drop n l) i = byte_at l (n + i).
Proof.
  intros Hn Hi. unfold byte_at, drop. rewrite nth_skipn. f_equal. lia.
Qed.

Lemma byte_at_zeros (n i : Z) : byte_at (zeros n) i = x00.
Proof. unfold byte_at, zeros. apply nth_repeat. Qed.

Lemma byte_at_overwrite (dst src : list byte) (off i : Z) :
  0 <= off <= len dst -> 0 <= i ->
  byte_at (overwrite dst off src) i =
  if (off <=? i) && (i <? off + len src) then byte_at src (i - off) else byte_at dst i.
Proof.
  intros Hoff Hi. unfold overwrite. pose proof (len_nonneg src).
  rewrite byte_at_app, len_take, byte_at_take by lia.
  rewrite Z.min_l by lia.
  destruct (Z.ltb_spec i off); destruct (Z.leb_spec off i); try lia; cbn [andb].
  - reflexivity.
  - rewrite byte_at_app by lia.
    destruct (Z.ltb_spec (i - off) (len src)); destruct (Z.ltb_spec i (off + len src));
      try lia; try reflexivity.
    rewrite byte_at_drop by lia. f_equal. lia.
Qed.

Lemma bytes_ext (a b : list byte) :
  len a = len b -> (forall i, 0 <= i < len a -> byte_at a i = byte_at b i) -> a = b.
Proof.
  intros Hl Hb. apply (nth_ext a b x00 x00).
  - unfold len in Hl. lia.
  - intros n Hn. specialize (Hb (Z.of_nat n)).
    unfold byte_at, len in Hb. rewrite Nat2Z.id in Hb. apply Hb. lia.
Qed.

Lemma take_all {A : Type} (n : Z) (l : list A) : len l <= n -> take n l = l.
Proof. intros H. unfold take, len in *. apply firstn_all2. lia. Qed.

Lemma take_app_exact {A : Type} (a b : list A) : take (len a) (a ++ b) = a.
Proof.
  unfold take, len. rewrite Nat2Z.id, firstn_app, Nat.sub_diag, firstn_all.
  cbn. apply app_nil_r.
Qed.

Lemma drop_app_exact {A : Type} (a b : list A) : drop (len a) (a ++ b) = b.
Proof.
  unfold drop, len. rewrite Nat2Z.id, skipn_app, Nat.sub_diag, skipn_all. reflexivity.
Qed.

Lemma overwrite_whole (dst src : list byte) : len dst <= len src -> overwrite dst 0 src = src.
Proof.
  intros H. unfold overwrite. cbn [take Z.to_nat firstn app].
  unfold drop, len in *. rewrite skipn_all2 by lia. apply app_nil_r.
Qed.

(** What [os_write] leaves in the file. *)
Lemma len_disk_write (d data : list byte) (o : Z) :
  0 <= o ->
  len (overwrite (d ++ zeros (o - len d)) o data) = Z.max (len d) (o + len data).
Proof.
  intros H. pose proof (len_nonneg d). pose proof (len_nonneg data).
  rewrite len_overwrite; rewrite len_app, len_zeros; lia.
Qed.

Lemma byte_at_disk_write (d data : list byte) (o i : Z) :
  0 <= o -> 0 <= i ->
  byte_at (overwrite (d ++ zeros (o - len d)) o data) i =
  if (o <=? i) && (i <? o + len data) then byte_at data (i - o) else byte_at d i.
Proof.
  intros Ho Hi. pose proof (len_nonneg d).
  rewrite byte_at_overwrite by (rewrite ?len_app, ?len_zeros; lia).
  destruct ((o <=? i) && (i <? o + len data)); [reflexivity |].
  rewrite byte_at_app by lia.
  destruct (Z.ltb_spec i (len d)); [reflexivity |].
  rewrite byte_at_zeros. symmetry. apply byte_at_beyond. lia.
Qed.

(** ** The operations on a file behind a descriptor *)

Lemma ltb_false (a b : Z) : b <= a -> (a <? b) = false.
Proof. intros H. apply Z.ltb_ge. exact H. Qed.

Lemma ltb_true (a b : Z) : a < b -> (a <? b) = true.
Proof. intros H. apply Z.ltb_lt. exact H. Qed.

Lemma leb_true (a b : Z) : a <= b -> (a <=? b) = true.
Proof. intros H. apply Z.leb_le. exact H. Qed.

Lemma leb_false (a b : Z) : b < a -> (a <=? b) = false.
Proof. intros H. apply Z.leb_gt. exact H. Qed.

(** Reduce the projections of the object and of the world. *)
Ltac proj_norm :=
  cbv beta iota zeta delta
    [this os fileName_ logicalLength_ physicalLength_ checkSumPolicy_ fd_ bufView_
     readOnly_ disk offset script trace caller_buffer].

Lemma bind_ok {A B : Type} (m : M A) (k : A -> M B) (s s' : State) (a : A) :
  m s = Ok a s' -> bind m k s = k a s'.
Proof. intros H. unfold bind. rewrite H. reflexivity. Qed.

Lemma bind_throw {A B : Type} (m : M A) (k : A -> M B) (s s' : State) (e : ErrorCode) :
  m s = Throw e s' -> bind m k s = Throw e s'.
Proof. intros H. unfold bind. rewrite H. reflexivity. Qed.

Section FileBacked.

Variable host : Endianness.
Variable c : CheckedFile.
Hypothesis Hfd : 0 <= fd_ c.

Lemma memory_backed_file : memory_backed c = None.
Proof. unfold memory_backed. rewrite ltb_false by exact Hfd. reflexivity. Qed.

Lemma lseek64_file (off : Z) (whence : Whence) (d : list byte) (o : Z) (sc : list Z)
      (tr : list Syscall) (cb : option (list byte)) (r : Z) :
  r = match whence with
      | SEEK_SET => 0
      | SEEK_CUR => o
      | SEEK_END => len d
      end + off ->
  0 <= r < 2 ^ 63 ->
  lseek64 off whence (mkState c (mkWorld d o sc tr cb))
  = Ok r (mkState c (mkWorld d r sc (SysLseek off whence :: tr) cb)).
Proof.
  intros Hr Hrange. unfold lseek64, bind, gets. cbn [this].
  rewrite memory_backed_file. unfold syscall, os_lseek, log.
  cbn [this os disk offset script trace caller_buffer].
  rewrite (ltb_false (fd_ c) 0) by exact Hfd.
  rewrite <- Hr.
  rewrite (ltb_false r 0), (leb_false (2 ^ 63) r) by lia.
  cbn [orb]. unfold set_os, set_offset. cbn [this disk offset script trace caller_buffer].
  rewrite (ltb_false r 0) by lia. reflexivity.
Qed.

Lemma seek_physical (p : Z) d o sc tr cb :
  0 <= p < 2 ^ 63 ->
  seek p Physical (mkState c (mkWorld d o sc tr cb))
  = Ok tt (mkState c (mkWorld d p sc (SysLseek p SEEK_SET :: tr) cb)).
Proof.
  intros H. unfold seek. rewrite to_int64_small by lia.
  erewrite bind_ok by (apply lseek64_file; [reflexivity | lia]).
  reflexivity.
Qed.

Lemma seek_logical (l : Z) d o sc tr cb :
  0 <= l -> l2p l < 2 ^ 63 ->
  seek l Logical (mkState c (mkWorld d o sc tr cb))
  = Ok tt (mkState c (mkWorld d (l2p l) sc (SysLseek (l2p l) SEEK_SET :: tr) cb)).
Proof.
  intros H0 H1. unfold seek. pose proof (l2p_bounds l H0).
  rewrite logicalToPhysical_l2p by lia.
  rewrite to_int64_small by lia.
  erewrite bind_ok by (apply lseek64_file; [reflexivity | lia]).
  reflexivity.
Qed.

Lemma position_physical d o sc tr cb :
  0 <= o < 2 ^ 63 ->
  position Physical (mkState c (mkWorld d o sc tr cb))
  = Ok o (mkState c (mkWorld d o sc (SysLseek 0 SEEK_CUR :: tr) cb)).
Proof.
  intros H. unfold position.
  erewrite bind_ok by (apply lseek64_file; [reflexivity | lia]).
  rewrite Z.add_0_r. reflexivity.
Qed.

Lemma position_logical d o sc tr cb :
  0 <= o < 2 ^ 63 ->
  position Logical (mkState c (mkWorld d o sc tr cb))
  = Ok (p2l o) (mkState c (mkWorld d o sc (SysLseek 0 SEEK_CUR :: tr) cb)).
Proof.
  intros H. unfold position.
  erewrite bind_ok by (apply lseek64_file; [reflexivity | lia]).
  rewrite Z.add_0_r. rewrite physicalToLogical_p2l by lia. reflexivity.
Qed.

Lemma length_physical_writable d o sc tr cb :
  readOnly_ c = false -> 0 <= o < 2 ^ 63 -> len d < 2 ^ 63 ->
  length Physical (mkState c (mkWorld d o sc tr cb))
  = Ok (len d) (mkState c (mkWorld d o sc (length_trace o tr) cb)).
Proof.
  intros Hro Ho Hd. pose proof (len_nonneg d). unfold length.
  unfold bind at 1, gets at 1. cbn [this]. rewrite Hro.
  erewrite bind_ok by (apply lseek64_file; [reflexivity | lia]).
  erewrite bind_ok by (apply lseek64_file; [reflexivity | lia]).
  rewrite !Z.add_0_r. rewrite to_int64_small by lia.
  erewrite bind_ok by (apply lseek64_file; [reflexivity | lia]).
  reflexivity.
Qed.

Lemma length_physical_readonly (s : State) :
  readOnly_ (this s) = true ->
  length Physical s = Ok (physicalLength_ (this s)) s.
Proof.
  intros Hro. unfold length, bind, gets. rewrite Hro. reflexivity.
Qed.

Lemma getCurrentPageAndOffset_logical d o sc tr cb :
  0 <= o < 2 ^ 63 ->
  getCurrentPageAndOffset Logical (mkState c (mkWorld d o sc tr cb))
  = Ok (p2l o / 1020, p2l o mod 1020)
       (mkState c (mkWorld d o sc (SysLseek 0 SEEK_CUR :: tr) cb)).
Proof.
  intros H. unfold getCurrentPageAndOffset.
  erewrite bind_ok by (apply position_logical; lia).
  rewrite logicalPageSize_eq. pose proof (p2l_le o ltac:(lia)).
  pose proof (Z.div_mod (p2l o) 1020 ltac:(lia)).
  pose proof (Z.mod_pos_bound (p2l o) 1020 ltac:(lia)).
  assert (0 <= p2l o / 1020) by (apply Z.div_pos; lia).
  rewrite (u64_small (p2l o / 1020 * 1020)) by lia.
  replace (p2l o - p2l o / 1020 * 1020) with (p2l o mod 1020) by lia.
  rewrite u64_small by lia. reflexivity.
Qed.

End FileBacked.

(** ** Pages *)

Lemma len_page_at (d : list byte) (page : Z) :
  0 <= page -> (page + 1) * 1024 <= len d -> len (page_at d page) = 1024.
Proof.
  intros H0 H1. unfold page_at. rewrite len_take, len_drop by lia. lia.
Qed.

Lemma byte_at_page_at (d : list byte) (page i : Z) :
  0 <= page -> 0 <= i < 1024 -> byte_at (page_at d page) i = byte_at d (page * 1024 + i).
Proof.
  intros H0 H1. unfold page_at. rewrite byte_at_take by lia.
  rewrite ltb_true by lia. apply byte_at_drop; lia.
Qed.

Lemma len_seal (host : Endianness) (pb : list byte) : len pb = 1024 -> len (seal host pb) = 1024.
Proof.
  intros H. unfold seal, store_uint32. rewrite logicalPageSize_eq.
  rewrite len_overwrite, encode_uint32_length by lia. lia.
Qed.

Lemma byte_at_seal (host : Endianness) (pb : list byte) (i : Z) :
  len pb = 1024 -> 0 <= i < 1020 -> byte_at (seal host pb) i = byte_at pb i.
Proof.
  intros H Hi. unfold seal, store_uint32. rewrite logicalPageSize_eq.
  rewrite byte_at_overwrite by lia. rewrite leb_false by lia. reflexivity.
Qed.

Lemma take_data_eq (a b : list byte) :
  len a = 1024 -> len b = 1024 ->
  (forall i, 0 <= i < 1020 -> byte_at a i = byte_at b i) ->
  take 1020 a = take 1020 b.
Proof.
  intros Ha Hb H. apply bytes_ext.
  - rewrite !len_take by lia. lia.
  - intros i Hi. rewrite len_take in Hi by lia.
    rewrite !byte_at_take by lia. rewrite ltb_true by lia. apply H. lia.
Qed.

Lemma checksum_data_eq (a b : list byte) :
  take 1020 a = take 1020 b -> checksum a logicalPageSize = checksum b logicalPageSize.
Proof.
  intros H. unfold checksum. rewrite logicalPageSize_eq.
  unfold take in H. change (Z.to_nat 1020) with (Z.to_nat 1020) in H. rewrite H. reflexivity.
Qed.

Lemma stored_seal (host : Endianness) (pb : list byte) :
  len pb = 1024 -> take 4 (drop logicalPageSize (seal host pb))
                   = encode_uint32 host (checksum pb logicalPageSize).
Proof.
  intros H. unfold seal, store_uint32, overwrite. rewrite logicalPageSize_eq.
  assert (E : len (take 1020 pb) = 1020) by (rewrite len_take; lia).
  rewrite <- E at 1. rewrite drop_app_exact.
  rewrite <- (encode_uint32_length host (checksum pb 1020)) at 1.
  apply take_app_exact.
Qed.

Lemma seal_ok (host : Endianness) (pb : list byte) : len pb = 1024 -> page_ok host (seal host pb).
Proof.
  intros H. unfold page_ok, load_uint32. rewrite stored_seal by exact H.
  rewrite decode_encode_uint32 by apply checksum_range.
  apply checksum_data_eq. apply take_data_eq; [exact H | apply len_seal; exact H |].
  intros i Hi. symmetry. apply byte_at_seal; assumption.
Qed.

Section FileBackedPages.

Variable host : Endianness.
Variable c : CheckedFile.
Hypothesis Hfd : 0 <= fd_ c.

Lemma readPhysicalPage_file (pb : list byte) (page : Z) d o sc tr cb :
  0 <= page -> (page + 1) * 1024 <= len d -> len d < 2 ^ 63 -> len pb <= 1024 ->
  readPhysicalPage pb page (mkState c (mkWorld d o sc tr cb))
  = Ok (page_at d page)
       (mkState c (mkWorld d ((page + 1) * 1024) sc
                     (SysRead 1024 :: SysLseek (page * 1024) SEEK_SET :: tr) cb)).
Proof.
  intros Hp Hd Hmax Hpb. unfold readPhysicalPage.
  rewrite physicalPageSize_eq. rewrite u64_small by lia.
  erewrite bind_ok by (apply seek_physical; [exact Hfd | lia]).
  unfold bind at 1, gets at 1. cbn [this]. rewrite memory_backed_file by exact Hfd.
  unfold bind at 1, gets at 1. cbn [this].
  unfold bind, syscall, os_read, log, set_os, set_offset.
  cbn [os this disk offset script trace caller_buffer].
  rewrite (ltb_false (fd_ c) 0) by exact Hfd.
  fold (page_at d page). rewrite len_page_at by lia.
  cbn [Z.ltb Z.compare Z.eqb Pos.eqb orb negb].
  unfold ret. rewrite overwrite_whole by (rewrite len_page_at; lia).
  f_equal. f_equal. f_equal. lia.
Qed.

Lemma readPhysicalPage_short (pb : list byte) (page : Z) d o sc tr cb :
  0 <= page -> page * 1024 < 2 ^ 63 -> len d < (page + 1) * 1024 ->
  exists s', readPhysicalPage pb page (mkState c (mkWorld d o sc tr cb))
             = Throw ErrorReadFailed s'.
Proof.
  intros Hp Hmax Hd. unfold readPhysicalPage.
  rewrite physicalPageSize_eq. rewrite u64_small by lia.
  erewrite bind_ok by (apply seek_physical; [exact Hfd | lia]).
  unfold bind at 1, gets at 1. cbn [this]. rewrite memory_backed_file by exact Hfd.
  unfold bind at 1, gets at 1. cbn [this].
  unfold bind, syscall, os_read, log, set_os, set_offset.
  cbn [os this disk offset script trace caller_buffer].
  rewrite (ltb_false (fd_ c) 0) by exact Hfd.
  pose proof (len_nonneg d).
  assert (E : len (take 1024 (drop (page * 1024) d)) <> 1024).
  { rewrite len_take, len_drop by lia. lia. }
  pose proof (len_nonneg (take 1024 (drop (page * 1024) d))).
  rewrite (ltb_false _ 0) by lia.
  apply Z.eqb_neq in E. rewrite E. cbn [orb negb].
  eexists. reflexivity.
Qed.

Lemma writePhysicalPage_file (pb : list byte) (page : Z) d o tr cb :
  0 <= page -> (page + 1) * 1024 < 2 ^ 63 -> len pb = 1024 ->
  writePhysicalPage host pb page (mkState c (mkWorld d o [] tr cb))
  = Ok (seal host pb)
       (mkState c (mkWorld (overwrite (d ++ zeros (page * 1024 - len d)) (page * 1024)
                                      (seal host pb))
                     ((page + 1) * 1024) []
                     (SysWrite 1024 :: SysLseek (page * 1024) SEEK_SET :: tr) cb)).
Proof.
  intros Hp Hmax Hpb. unfold writePhysicalPage. fold (seal host pb).
  rewrite physicalPageSize_eq. rewrite u64_small by lia.
  erewrite bind_ok by (apply seek_physical; [exact Hfd | lia]).
  unfold bind at 1, gets at 1. cbn [this].
  unfold bind, syscall, os_write, log, set_os, set_offset, set_disk.
  cbn [os this disk offset script trace caller_buffer].
  rewrite (ltb_false (fd_ c) 0) by exact Hfd.
  rewrite take_all by (rewrite len_seal; [lia | exact Hpb]).
  rewrite len_seal by exact Hpb.
  cbn [Z.ltb Z.compare]. unfold ret.
  f_equal. f_equal. f_equal. lia.
Qed.

Lemma verifyChecksum_ok (pg : list byte) (page : Z) (s : State) :
  page_ok host pg -> verifyChecksum host pg page s = Ok tt s.
Proof.
  intros H. unfold verifyChecksum. rewrite H, Z.eqb_refl. reflexivity.
Qed.

Lemma verifyChecksum_bad (pg : list byte) (page : Z) d o sc tr cb :
  ~ page_ok host pg -> 0 <= o < 2 ^ 63 -> len d < 2 ^ 63 ->
  exists s', verifyChecksum host pg page (mkState c (mkWorld d o sc tr cb))
             = Throw ErrorBadChecksum s'.
Proof.
  intros H Ho Hd. unfold verifyChecksum.
  apply Z.eqb_neq in H. rewrite H. cbn [negb].
  destruct (readOnly_ c) eqn:Hro.
  - erewrite bind_ok by (apply length_physical_readonly; exact Hro).
    eexists. reflexivity.
  - erewrite bind_ok by (apply length_physical_writable; assumption).
    eexists. reflexivity.
Qed.

End FileBackedPages.

(** ** The stored checksum (C2) *)

Lemma swap_uint32_byte_reversal (v : Z) : swap_uint32 v = byte_reversal v.
Proof.
  unfold byte_reversal. rewrite <- le_bytes_swap_uint32.
  symmetry. apply le_value_le_bytes. apply swap_uint32_range.
Qed.

Lemma page_at_disk_write_same (d pg : list byte) (page : Z) :
  0 <= page -> len pg = 1024 ->
  page_at (overwrite (d ++ zeros (page * 1024 - len d)) (page * 1024) pg) page = pg.
Proof.
  intros Hp Hpg. apply bytes_ext.
  - rewrite len_page_at; [lia | lia |]. rewrite len_disk_write by lia. lia.
  - intros i Hi. rewrite len_page_at in Hi; [| lia | rewrite len_disk_write by lia; lia].
    rewrite byte_at_page_at by lia. rewrite byte_at_disk_write by lia.
    rewrite leb_true, ltb_true by lia. cbn [andb]. f_equal. lia.
Qed.

Lemma writePhysicalPage_result (host : Endianness) (pb pb' : list byte) (page : Z) (s s' : State) :
  writePhysicalPage host pb page s = Ok pb' s' -> pb' = seal host pb.
Proof.
  unfold writePhysicalPage. fold (seal host pb). unfold bind, gets.
  destruct (seek _ Physical s) as [u s1 | | |]; try discriminate.
  destruct (syscall _ s1) as [r s2 | | |]; try discriminate.
  destruct (r <? 0); unfold throw, ret; try discriminate.
  intros H. injection H as <- _. reflexivity.
Qed.

(** C2: when [writePhysicalPage] completes on a page buffer, on a
    little-endian host, the four bytes at offsets [1020, 1024) of the page
    are the little-endian encoding of the byte reversal of the CRC-32C
    (polynomial 0x1EDC6F41, initial value and final XOR 0xFFFFFFFF, input
    and output reflected) of the bytes [0, 1020), which are left as they
    were; and where the system accepts the page, these are the bytes of the
    page in the file. *)
Theorem writePhysicalPage_stores_checksum
  (pb pb' : list byte) (page : Z) (s s' : State)
  (Hlen : len pb = 1024)
  (Hcall : writePhysicalPage LittleEndian pb page s = Ok pb' s') :
  let stored := le_bytes (byte_reversal (CRC.Calculate sCRCParams (take 1020 pb))) in
  (CRC.polynomial sCRCParams = 0x1EDC6F41 /\ CRC.initialXOR sCRCParams = 0xFFFFFFFF /\
   CRC.finalXOR sCRCParams = 0xFFFFFFFF /\
   CRC.reflectInput sCRCParams = true /\ CRC.reflectOutput sCRCParams = true) /\
  take 4 (drop 1020 pb') = stored /\
  take 1020 pb' = take 1020 pb /\
  (0 <= fd_ (this s) -> script (os s) = [] -> 0 <= page -> (page + 1) * 1024 < 2 ^ 63 ->
   page_at (disk (os s')) page = pb').
Proof.
  intros stored. subst stored.
  pose proof (writePhysicalPage_result _ _ _ _ _ _ Hcall) as ->.
  split; [repeat split |]. split; [| split].
  - pose proof (stored_seal LittleEndian pb Hlen) as E.
    rewrite logicalPageSize_eq in E. rewrite E.
    unfold encode_uint32, checksum.
    rewrite swap_uint32_byte_reversal. reflexivity.
  - apply take_data_eq; [apply len_seal; exact Hlen | exact Hlen |].
    intros i Hi. apply byte_at_seal; assumption.
  - intros Hfd Hsc Hp Hmax.
    destruct s as [c [d o sc tr cb]]. cbn [this os script] in *. subst sc.
    rewrite writePhysicalPage_file in Hcall by assumption.
    injection Hcall as <-. cbn [os disk].
    apply page_at_disk_write_same; [exact Hp | apply len_seal; exact Hlen].
Qed.

Lemma new_file_opened (policy : Z) :
  CheckedFile_file "scan.e57" Write policy empty_world = Ok tt (new_file policy).
Proof. reflexivity. Qed.

(** On a big-endian host the same store leaves the bytes of the CRC itself,
    least significant first: the layout of the file depends on the host. *)
Lemma seal_big_endian_host (pb : list byte) :
  len pb = 1024 ->
  take 4 (drop 1020 (seal BigEndian pb))
  = le_bytes (CRC.Calculate sCRCParams (take 1020 pb)).
Proof.
  intros Hlen. pose proof (stored_seal BigEndian pb Hlen) as E.
  rewrite logicalPageSize_eq in E. rewrite E.
  unfold encode_uint32, checksum.
  rewrite le_bytes_swap_uint32, rev_involutive. reflexivity.
Qed.

Lemma writePhysicalPage_stores_checksum_witness :
  take 4 (drop 1020 (seal LittleEndian (zeros 1024)))
  = le_bytes (byte_reversal (CRC.Calculate sCRCParams (take 1020 (zeros 1024)))).
Proof.
  refine (proj1 (proj2 (writePhysicalPage_stores_checksum
            (zeros 1024) _ 0 (new_file 100)
            (state_of (writePhysicalPage LittleEndian (zeros 1024) 0 (new_file 100))
                      (new_file 100)) _ _))).
  - reflexivity.
  - vm_compute. reflexivity.
Defined.

(** ** Short writes (C7) *)

(** C7, at the input where the code departs from it: the system accepts 512
    of the 1024 bytes of a page, [writePhysicalPage] returns normally
    instead of raising WriteFailed, and the file holds half a page. *)
Theorem writePhysicalPage_short_write_unreported :
  let s := mkState (mkCheckedFile "scan.e57" 0 0 100 the_fd None false)
                   (mkWorld [] 0 [512] [] None) in
  exists s', writePhysicalPage LittleEndian (zeros 1024) 0 s
             = Ok (seal LittleEndian (zeros 1024)) s' /\
             len (disk (os s')) = 512.
Proof.
  eexists. split; vm_compute; reflexivity.
Qed.

(** The sibling path: [readPhysicalPage] reports a page that comes back
    short. *)
Lemma readPhysicalPage_short_read_reported :
  let s := mkState (mkCheckedFile "scan.e57" 0 0 100 the_fd None false)
                   (mkWorld (zeros 512) 0 [] [] None) in
  exists s', readPhysicalPage (zeros 1024) 0 s = Throw ErrorReadFailed s'.
Proof.
  eexists. vm_compute. reflexivity.
Qed.

(** A negative result of [write] is reported. *)
Lemma writePhysicalPage_failure_reported :
  let s := mkState (mkCheckedFile "scan.e57" 0 0 100 the_fd None false)
                   (mkWorld [] 0 [-1] [] None) in
  exists s', writePhysicalPage LittleEndian (zeros 1024) 0 s = Throw ErrorWriteFailed s'.
Proof.
  eexists. vm_compute. reflexivity.
Qed.

(** ** close (C8) *)

(** C8: after a successful [close], a second [close] returns normally and
    leaves the state as it is, the list of system calls included; the first
    [close] leaves no BufferView, and the caller's buffer is what it was. *)
Theorem close_idempotent (s s' : State) (Hclose : close s = Ok tt s') :
  close s' = Ok tt s' /\
  trace (os (state_of (close s') s')) = trace (os s') /\
  bufView_ (this s') = None /\
  caller_buffer (os s') = caller_buffer (os s).
Proof.
  destruct s as [[fn ll pl pol fd bv ro] [d o sc tr cb]].
  assert (Hsecond : forall s2, fd_ (this s2) < 0 ->
                               bufView_ (this s2) = None -> close s2 = Ok tt s2).
  { intros s2 Hf Hb. unfold close, bind, gets.
    rewrite leb_false by lia. unfold ret. rewrite Hb. reflexivity. }
  assert (Hgoal : fd_ (this s') < 0 /\ bufView_ (this s') = None /\
                  caller_buffer (os s') = cb).
  { revert Hclose.
    unfold close, bind, gets, syscall, os_close, modify, throw, ret, log,
      set_os, set_fd, set_bufView, set_script.
    cbn [this os fd_ bufView_ script trace disk offset caller_buffer].
    destruct (Z.leb_spec 0 fd) as [Hfd | Hfd].
    - rewrite (ltb_false fd 0) by lia.
      destruct sc as [| r rest]; cbn; [| destruct (r <? 0)]; destruct bv; cbn;
        intros Hclose; try discriminate;
        injection Hclose as <-; cbn; repeat split; lia.
    - destruct bv; cbn; intros Hclose; injection Hclose as <-; cbn; repeat split; lia. }
  destruct Hgoal as (Hf & Hb & Hc).
  rewrite (Hsecond s') by assumption.
  cbn [state_of os caller_buffer]. auto.
Qed.

Lemma close_idempotent_witness :
  let s := state_of (CheckedFile_memory 2048 100 (mkWorld [] 0 [] [] (Some (zeros 2048))))
                    (new_file 100) in
  close (state_of (close s) s) = Ok tt (state_of (close s) s) /\
  caller_buffer (os (state_of (close s) s)) = Some (zeros 2048).
Proof.
  intros s.
  pose proof (close_idempotent s (state_of (close s) s) ltac:(vm_compute; reflexivity))
    as (H1 & _ & _ & H2).
  split; [exact H1 | rewrite H2; vm_compute; reflexivity].
Defined.

(** ** The memory backend (C10) *)

Lemma lseek64_memory (s : State) (bv : BufferView) (off : Z) (whence : Whence) :
  memory_backed (this s) = Some bv ->
  lseek64 off whence s
  = (if fst (BufferView.seek bv (u64 off) whence)
     then Ok (cursorStream_ (snd (BufferView.seek bv (u64 off) whence)))
     else Throw ErrorSeekFailed)
      (set_bufView (Some (snd (BufferView.seek bv (u64 off) whence))) s).
Proof.
  intros H. unfold lseek64, bind, gets. rewrite H.
  destruct (BufferView.seek bv (u64 off) whence) as [ok bv'].
  cbn [fst snd]. unfold modify. destruct ok; reflexivity.
Qed.

Lemma memory_backed_set_bufView (s : State) (bv bv' : BufferView) :
  memory_backed (this s) = Some bv ->
  memory_backed (this (set_bufView (Some bv') s)) = Some bv'.
Proof.
  unfold memory_backed, set_bufView. cbn [this fd_ bufView_].
  destruct (fd_ (this s) <? 0); [reflexivity | discriminate].
Qed.

Lemma copy_out_of_bounds (st : list byte) (start : Z) (count : nat) (i : Z) :
  0 <= start -> 0 <= i -> start + i <= len st < start + i + Z.of_nat count ->
  start + i + Z.of_nat count < 2 ^ 64 ->
  BufferView.copy st start i count = None.
Proof.
  revert i. induction count as [| count IH]; intros i Hs Hi Hb Hmax; [lia |].
  cbn [BufferView.copy]. rewrite u64_small by lia.
  destruct (nth_error st (Z.to_nat (start + i))) as [b |] eqn:E; [| reflexivity].
  assert (Hin : start + i < len st).
  { assert (nth_error st (Z.to_nat (start + i)) <> None) as Hn by congruence.
    apply nth_error_Some in Hn. unfold len. lia. }
  rewrite IH by lia. reflexivity.
Qed.

Lemma copy_in_bounds (st : list byte) (start : Z) (count : nat) (i : Z) :
  0 <= start -> 0 <= i -> start + i + Z.of_nat count <= len st ->
  start + i + Z.of_nat count < 2 ^ 64 ->
  BufferView.copy st start i count = Some (take (Z.of_nat count) (drop (start + i) st)).
Proof.
  revert i. induction count as [| count IH]; intros i Hs Hi Hb Hmax; [reflexivity |].
  cbn [BufferView.copy]. rewrite u64_small by lia.
  rewrite (nth_error_nth' st x00) by (unfold len in Hb; lia).
  rewrite IH by lia. f_equal.
  apply bytes_ext.
  - rewrite len_cons, !len_take, !len_drop by lia. lia.
  - intros j Hj.
    assert (Hj' : 0 <= j < Z.of_nat (S count)).
    { rewrite len_cons, len_take, len_drop in Hj by lia. lia. }
    rewrite byte_at_take, ltb_true, byte_at_drop by lia.
    destruct (Z.eq_dec j 0) as [-> | Hnz].
    + unfold byte_at. cbn [Z.to_nat nth]. f_equal. lia.
    + unfold byte_at at 1. replace (Z.to_nat j) with (S (Z.to_nat (j - 1))) by lia.
      cbn [nth]. fold (byte_at (take (Z.of_nat count) (drop (start + (i + 1)) st)) (j - 1)).
      rewrite byte_at_take, ltb_true, byte_at_drop by lia. f_equal. lia.
Qed.

(** C10, as amended: on an instance over a caller's buffer,
    [readPhysicalPage] never raises ReadFailed; a page that starts in the
    buffer or at its end and reaches behind its end is read out of bounds;
    a page that starts behind the end of the buffer raises SeekFailed; a
    page inside the buffer is copied. *)
Theorem readPhysicalPage_memory
  (s : State) (bv : BufferView) (buf pb : list byte) (page : Z)
  (Hmem : memory_backed (this s) = Some bv)
  (Hbuf : caller_buffer (os s) = Some buf)
  (Hsize : streamSize_ bv = len buf)
  (Hpage : 0 <= page) (Hmax : (page + 1) * 1024 < 2 ^ 63) :
  (forall s', readPhysicalPage pb page s <> Throw ErrorReadFailed s') /\
  (page * 1024 <= len buf < (page + 1) * 1024 -> readPhysicalPage pb page s = Undefined) /\
  (len buf < page * 1024 -> exists s', readPhysicalPage pb page s = Throw ErrorSeekFailed s') /\
  (len pb <= 1024 -> (page + 1) * 1024 <= len buf ->
   exists s', readPhysicalPage pb page s = Ok (page_at buf page) s').
Proof.
  pose proof (len_nonneg buf) as Hnn.
  assert (E : readPhysicalPage pb page s
              = if page * 1024 >? len buf
                then Throw ErrorSeekFailed
                       (set_bufView (Some (mkBufferView (len buf) (len buf))) s)
                else match BufferView.copy buf (page * 1024) 0 1024 with
                     | None => Undefined
                     | Some bs =>
                         Ok (overwrite pb 0 bs)
                            (set_bufView
                               (Some (mkBufferView (len buf) (u64 (page * 1024 + 1024))))
                               (set_bufView (Some (mkBufferView (len buf) (page * 1024))) s))
                     end).
  { unfold readPhysicalPage, seek. rewrite physicalPageSize_eq.
    rewrite (u64_small (page * 1024)) by lia. rewrite to_int64_small by lia.
    unfold bind at 1. unfold bind at 1. rewrite (lseek64_memory s bv) by exact Hmem.
    rewrite (u64_small (page * 1024)) by lia.
    unfold BufferView.seek. rewrite Hsize.
    destruct (page * 1024 >? len buf); cbn [fst snd]; [reflexivity |].
    unfold ret. unfold bind at 1, gets at 1.
    erewrite memory_backed_set_bufView by exact Hmem.
    unfold set_bufView at 1 2. cbn [os]. rewrite Hbuf.
    unfold BufferView.read. cbn [cursorStream_ streamSize_].
    change (Z.to_nat 1024) with 1024%nat.
    destruct (BufferView.copy buf (page * 1024) 0 1024); reflexivity. }
  rewrite E. clear E.
  destruct (Z.gtb_spec (page * 1024) (len buf)) as [Hgt | Hle].
  - repeat split; intros; try lia; try discriminate.
    eexists. reflexivity.
  - destruct (Z.lt_ge_cases (len buf) ((page + 1) * 1024)) as [Hshort | Hfull].
    + rewrite copy_out_of_bounds by (change (Z.of_nat 1024) with 1024; lia).
      repeat split; intros; try lia; discriminate.
    + rewrite copy_in_bounds by (change (Z.of_nat 1024) with 1024; lia).
      change (Z.of_nat 1024) with 1024.
      repeat split; intros; try lia; try discriminate.
      eexists. f_equal. rewrite Z.add_0_r. fold (page_at buf page).
      apply overwrite_whole. rewrite len_page_at by lia. lia.
Qed.

Lemma readPhysicalPage_memory_witness :
  readPhysicalPage (zeros 1024) 1 (memory_file (zeros 1500) 100) = Undefined.
Proof.
  refine (proj1 (proj2 (readPhysicalPage_memory
            (memory_file (zeros 1500) 100) (mkBufferView 1500 0) (zeros 1500) (zeros 1024) 1
            _ _ _ _ _)) _).
  - reflexivity.
  - reflexivity.
  - reflexivity.
  - lia.
  - reflexivity.
  - vm_compute. split; congruence.
Defined.

(** C10 as stated fails on a page that starts behind the end of the
    buffer: its range reaches behind the end, and the call raises
    SeekFailed without reading anything. *)
Lemma readPhysicalPage_memory_counterexample :
  len (zeros 100) < (1 + 1) * 1024 /\
  readPhysicalPage (zeros 1024) 1 (memory_file (zeros 100) 100) <> Undefined /\
  exists s', readPhysicalPage (zeros 1024) 1 (memory_file (zeros 100) 100)
             = Throw ErrorSeekFailed s'.
Proof.
  split; [reflexivity |]. split.
  - vm_compute. discriminate.
  - eexists. vm_compute. reflexivity.
Qed.

(** ** Which errors an operation raises *)

Lemma throws_only_ret {A : Type} (P : ErrorCode -> Prop) (a : A) : throws_only P (ret a).
Proof. intros s e s' H. discriminate. Qed.

Lemma throws_only_gets {A : Type} (P : ErrorCode -> Prop) (f : CheckedFile -> A) :
  throws_only P (gets f).
Proof. intros s e s' H. discriminate. Qed.

Lemma throws_only_modify (P : ErrorCode -> Prop) (f : State -> State) :
  throws_only P (modify f).
Proof. intros s e s' H. discriminate. Qed.

Lemma throws_only_syscall {A : Type} (P : ErrorCode -> Prop) (f : World -> A * World) :
  throws_only P (syscall f).
Proof. intros s e s' H. unfold syscall in H. destruct (f (os s)). discriminate. Qed.

Lemma throws_only_undefined {A : Type} (P : ErrorCode -> Prop) : throws_only P (@undefined A).
Proof. intros s e s' H. discriminate. Qed.

Lemma throws_only_out_of_fuel {A : Type} (P : ErrorCode -> Prop) :
  throws_only P (@out_of_fuel A).
Proof. intros s e s' H. discriminate. Qed.

Lemma throws_only_throw {A : Type} (P : ErrorCode -> Prop) (e : ErrorCode) :
  P e -> throws_only P (@throw A e).
Proof. intros Hp s e' s' H. injection H as <- _. exact Hp. Qed.

Lemma throws_only_bind {A B : Type} (P : ErrorCode -> Prop) (m : M A) (k : A -> M B) :
  throws_only P m -> (forall a, throws_only P (k a)) -> throws_only P (bind m k).
Proof.
  intros Hm Hk s e s' H. unfold bind in H.
  destruct (m s) as [a s1 | e1 s1 | |] eqn:E; try discriminate.
  - exact (Hk a s1 e s' H).
  - injection H as <- _. exact (Hm s e1 s1 E).
Qed.

Lemma throws_only_weaken {A : Type} (P Q : ErrorCode -> Prop) (m : M A) :
  (forall e, P e -> Q e) -> throws_only P m -> throws_only Q m.
Proof. intros HPQ Hm s e s' H. apply HPQ. exact (Hm s e s' H). Qed.

Lemma throws_only_if {A : Type} (P : ErrorCode -> Prop) (b : bool) (m1 m2 : M A) :
  throws_only P m1 -> throws_only P m2 -> throws_only P (if b then m1 else m2).
Proof. intros H1 H2. destruct b; assumption. Qed.

Create HintDb throws.
#[local] Hint Resolve throws_only_ret throws_only_gets throws_only_modify
  throws_only_syscall throws_only_undefined throws_only_out_of_fuel : throws.

Ltac throws :=
  repeat first
    [ solve [ eauto with throws ]
    | apply throws_only_throw; solve [ unfold seek_error, page_error; auto ]
    | match goal with
      | |- throws_only _ (bind _ _) => apply throws_only_bind; [| intros ? ]
      | |- throws_only _ (if _ then _ else _) => apply throws_only_if
      | |- throws_only _ (match ?x with _ => _ end) => destruct x
      | |- throws_only _ (let _ := _ in _) => cbv zeta
      end ].

Lemma seek_error_page_error (e : ErrorCode) : seek_error e -> page_error e.
Proof. unfold seek_error, page_error. auto. Qed.

Lemma lseek64_throws (off : Z) (whence : Whence) : throws_only seek_error (lseek64 off whence).
Proof. unfold lseek64. throws. Qed.
#[local] Hint Resolve lseek64_throws : throws.

Lemma seek_throws (off : Z) (omode : OffsetMode) : throws_only seek_error (seek off omode).
Proof. unfold seek. throws. Qed.
#[local] Hint Resolve seek_throws : throws.

Lemma position_throws (omode : OffsetMode) : throws_only seek_error (position omode).
Proof. unfold position. throws. Qed.
#[local] Hint Resolve position_throws : throws.

Lemma length_throws (omode : OffsetMode) : throws_only seek_error (length omode).
Proof. unfold length. throws. Qed.
#[local] Hint Resolve length_throws : throws.

Lemma getCurrentPageAndOffset_throws (omode : OffsetMode) :
  throws_only seek_error (getCurrentPageAndOffset omode).
Proof. unfold getCurrentPageAndOffset. throws. Qed.
#[local] Hint Resolve getCurrentPageAndOffset_throws : throws.

Lemma weaken_seek_error {A : Type} (m : M A) :
  throws_only seek_error m -> throws_only page_error m.
Proof. apply throws_only_weaken. exact seek_error_page_error. Qed.

Lemma readPhysicalPage_throws (pb : list byte) (page : Z) :
  throws_only page_error (readPhysicalPage pb page).
Proof.
  unfold readPhysicalPage.
  apply throws_only_bind; [apply weaken_seek_error; throws | intros _].
  apply throws_only_bind; [throws | intros mb]. destruct mb as [bv |].
  - intros s e s' H. destruct (BufferView.read _ _ _ _) as [[? ?] |]; discriminate.
  - throws.
Qed.

Lemma verifyChecksum_throws (host : Endianness) (pg : list byte) (page : Z) :
  throws_only page_error (verifyChecksum host pg page).
Proof.
  unfold verifyChecksum.
  apply throws_only_if; [| throws].
  apply throws_only_bind; [apply weaken_seek_error; throws | intros _].
  throws.
Qed.

Lemma read_loop_throws (host : Endianness) (fuel : nat) (policy nRead page pageOffset n : Z)
      (pb buf : list byte) :
  throws_only page_error (read_loop host fuel policy nRead page pageOffset n pb buf).
Proof.
  revert nRead page pageOffset n pb buf.
  induction fuel as [| fuel IH]; intros nRead page pageOffset n pb buf;
    cbn [read_loop]; (apply throws_only_if; [| throws]); [throws |].
  apply throws_only_bind; [apply readPhysicalPage_throws | intros pb'].
  apply throws_only_bind; [| intros _; apply IH].
  apply throws_only_if; [throws |].
  apply throws_only_if; [apply verifyChecksum_throws |].
  destruct (checksumMod policy) as [[| m | m] |]; try solve [throws];
    (apply throws_only_if; [apply verifyChecksum_throws | throws]).
Qed.

(** ** Reading behind the end (C4) *)








(** ** One page of [write] and [extend] *)

Lemma len_step_page host d pb page pageOffset chunk :
  0 <= page -> len d mod 1024 = 0 -> len pb = 1024 ->
  0 <= pageOffset -> pageOffset + len chunk <= 1020 ->
  len (step_page host d pb page pageOffset chunk) = 1024.
Proof.
  intros Hp Hd Hpb Ho Hc. unfold step_page. apply len_seal.
  pose proof (len_nonneg chunk). pose proof (len_nonneg d).
  destruct (Z.ltb_spec (page * 1024) (len d)).
  - rewrite len_overwrite; rewrite len_page_at; try lia.
    all: apply Z.mod_divide in Hd; [| lia]; destruct Hd as [k Hk]; nia.
  - rewrite len_overwrite; lia.
Qed.

Lemma len_step_disk (d pg : list byte) (page : Z) :
  0 <= page -> len pg = 1024 ->
  len (step_disk d page pg) = Z.max (len d) ((page + 1) * 1024).
Proof.
  intros Hp Hpg. unfold step_disk. rewrite len_disk_write by lia. lia.
Qed.

Lemma byte_at_step_disk (d pg : list byte) (page q : Z) :
  0 <= page -> 0 <= q -> len pg = 1024 ->
  byte_at (step_disk d page pg) q =
  if (page * 1024 <=? q) && (q <? (page + 1) * 1024)
  then byte_at pg (q - page * 1024) else byte_at d q.
Proof.
  intros Hp Hq Hpg. unfold step_disk. rewrite byte_at_disk_write by lia.
  rewrite Hpg. replace (page * 1024 + 1024) with ((page + 1) * 1024) by lia. reflexivity.
Qed.

Section WriteStep.

Variable host : Endianness.
Variable c : CheckedFile.
Hypothesis Hfd : 0 <= fd_ c.
Hypothesis Hrw : readOnly_ c = false.

Lemma write_loop_step (fuel : nat) (buf : list byte) (nWrite page pageOffset n : Z)
      (pb d : list byte) (o : Z) tr cb :
  0 < nWrite < 2 ^ 64 -> 0 < n <= nWrite -> n <= len buf ->
  0 <= page -> 0 <= pageOffset -> pageOffset + n <= 1020 ->
  len pb = 1024 -> len d mod 1024 = 0 -> len d < 2 ^ 63 -> 0 <= o < 2 ^ 63 ->
  (page + 1) * 1024 < 2 ^ 63 ->
  exists tr1,
    write_loop host (S fuel) buf nWrite page pageOffset n pb
               (mkState c (mkWorld d o [] tr cb))
    = write_loop host fuel (drop n buf) (nWrite - n) (page + 1) 0
                 (Z.min (nWrite - n) 1020)
                 (step_page host d pb page pageOffset (take n buf))
                 (mkState c (mkWorld
                               (step_disk d page
                                  (step_page host d pb page pageOffset (take n buf)))
                               ((page + 1) * 1024) [] tr1 cb)).
Proof.
  intros HnW Hn Hbuf Hp Hoff Hfit Hpb Hd Hdmax Ho Hmax.
  pose proof (len_nonneg d) as Hd0.
  assert (Hchunk : len (take n buf) = n) by (rewrite len_take; lia).
  cbn [write_loop]. rewrite ltb_true by lia.
  erewrite bind_ok by (apply length_physical_writable; assumption).
  rewrite physicalPageSize_eq, logicalPageSize_eq.
  rewrite (u64_small (page * 1024)) by lia.
  rewrite (u64_small (nWrite - n)) by lia.
  rewrite (u64_small (page + 1)) by lia.
  unfold step_page.
  destruct (Z.ltb_spec (page * 1024) (len d)) as [Hex | Hnew].
  - assert (Hwhole : (page + 1) * 1024 <= len d).
    { apply Z.mod_divide in Hd; [| lia]. destruct Hd as [k Hk]. nia. }
    erewrite bind_ok by (apply readPhysicalPage_file; try assumption; lia).
    rewrite ltb_false by lia.
    erewrite bind_ok.
    2:{ apply writePhysicalPage_file; try assumption.
        rewrite len_overwrite; rewrite len_page_at; lia. }
    eexists. reflexivity.
  - unfold bind at 1, ret at 1.
    rewrite ltb_false by lia.
    erewrite bind_ok.
    2:{ apply writePhysicalPage_file; try assumption.
        rewrite len_overwrite; lia. }
    eexists. reflexivity.
Qed.

End WriteStep.

(** ** The loop of [write] *)

Lemma written_nothing host d buf pb page pageOffset :
  written host d d buf pb page pageOffset 0.
Proof.
  unfold written. cbn [Z.ltb Z.compare]. pose proof (len_nonneg d).
  repeat split; intros; try lia; reflexivity.
Qed.

Lemma byte_at_step_page host d pb page pageOffset chunk i :
  0 <= page -> len d mod 1024 = 0 -> len pb = 1024 ->
  0 <= pageOffset -> pageOffset + len chunk <= 1020 -> 0 <= i < 1020 ->
  byte_at (step_page host d pb page pageOffset chunk) i =
  if (pageOffset <=? i) && (i <? pageOffset + len chunk)
  then byte_at chunk (i - pageOffset)
  else if page * 1024 <? len d then byte_at d (page * 1024 + i) else byte_at pb i.
Proof.
  intros Hp Hd Hpb Ho Hc Hi. unfold step_page.
  pose proof (len_nonneg chunk). pose proof (len_nonneg d).
  assert (Hbase : len (if page * 1024 <? len d then page_at d page else pb) = 1024).
  { destruct (Z.ltb_spec (page * 1024) (len d)); [| exact Hpb].
    apply len_page_at; [lia |].
    apply Z.mod_divide in Hd; [| lia]. destruct Hd as [k Hk]. nia. }
  rewrite byte_at_seal by (try lia; rewrite len_overwrite; lia).
  rewrite byte_at_overwrite by lia.
  destruct ((pageOffset <=? i) && (i <? pageOffset + len chunk)); [reflexivity |].
  destruct (Z.ltb_spec (page * 1024) (len d)); [| reflexivity].
  apply byte_at_page_at; lia.
Qed.

Lemma page_at_ext (d d' : list byte) (j : Z) :
  0 <= j -> (j + 1) * 1024 <= len d -> (j + 1) * 1024 <= len d' ->
  (forall i, 0 <= i < 1024 -> byte_at d' (j * 1024 + i) = byte_at d (j * 1024 + i)) ->
  page_at d' j = page_at d j.
Proof.
  intros Hj Hd Hd' H. apply bytes_ext.
  - rewrite !len_page_at by lia. reflexivity.
  - intros i Hi. rewrite len_page_at in Hi by lia.
    rewrite !byte_at_page_at by lia. apply H. lia.
Qed.

Ltac divmod := Z.div_mod_to_equations; lia.

Section WriteLoop.

Variable host : Endianness.
Variable c : CheckedFile.
Hypothesis Hfd : 0 <= fd_ c.
Hypothesis Hrw : readOnly_ c = false.

Lemma write_loop_spec (fuel : nat) :
  forall (buf : list byte) (nWrite page pageOffset : Z) (pb d : list byte) (o : Z) tr cb,
    nWrite = len buf -> nWrite <= Z.of_nat fuel ->
    0 <= page -> 0 <= pageOffset < 1020 ->
    len pb = 1024 -> len d mod 1024 = 0 -> len d < 2 ^ 63 -> 0 <= o < 2 ^ 63 ->
    (0 < nWrite -> page * 1020 + pageOffset + nWrite < 2 ^ 62) ->
    exists d' o' tr',
      write_loop host fuel buf nWrite page pageOffset
                 (Z.min nWrite (1020 - pageOffset)) pb
                 (mkState c (mkWorld d o [] tr cb))
      = Ok tt (mkState c (mkWorld d' o' [] tr' cb)) /\
      0 <= o' < 2 ^ 63 /\
      written host d d' buf pb page pageOffset nWrite.
Proof.
  induction fuel as [| fuel IH];
    intros buf nWrite page pageOffset pb d o tr cb HnW Hfuel Hp Hoff Hpb Hd Hdmax Ho Hmax;
    pose proof (len_nonneg buf) as Hbuf0; pose proof (len_nonneg d) as Hd0.
  - assert (Hz : nWrite = 0) by lia. rewrite Hz.
    exists d, o, tr. cbn [write_loop Z.ltb Z.compare]. unfold ret.
    split; [reflexivity |]. split; [exact Ho |]. apply written_nothing.
  - destruct (Z.eq_dec nWrite 0) as [Hz | Hnz].
    { rewrite Hz. exists d, o, tr. cbn [write_loop Z.ltb Z.compare]. unfold ret.
      split; [reflexivity |]. split; [exact Ho |]. apply written_nothing. }
    set (n := Z.min nWrite (1020 - pageOffset)).
    assert (Hn : 0 < n <= nWrite) by lia.
    assert (Hfit : pageOffset + n <= 1020) by lia.
    assert (Hchunk : len (take n buf) = n) by (rewrite len_take; lia).
    destruct (write_loop_step host c Hfd Hrw fuel buf nWrite page pageOffset n pb d o tr cb)
      as [tr1 Hstep]; try lia.
    rewrite Hstep. clear Hstep.
    set (pg := step_page host d pb page pageOffset (take n buf)).
    set (d1 := step_disk d page pg).
    assert (Hpg : len pg = 1024) by (apply len_step_page; lia).
    assert (Hd1 : len d1 = Z.max (len d) ((page + 1) * 1024)) by (apply len_step_disk; lia).
    assert (Hd1m : len d1 mod 1024 = 0).
    { rewrite Hd1. destruct (Z.max_spec (len d) ((page + 1) * 1024)) as [[_ ->] | [_ ->]];
        [apply Z.mod_mul; lia | exact Hd]. }
    replace (Z.min (nWrite - n) 1020) with (Z.min (nWrite - n) (1020 - 0)) by lia.
    destruct (IH (drop n buf) (nWrite - n) (page + 1) 0 pg d1 ((page + 1) * 1024) tr1 cb)
      as (d' & o' & tr' & Hrun & Ho' & Hlen & Hok & Hnew & Hframe & Hdata & Hnext & Hcarry);
      try lia.
    { rewrite len_drop by lia. lia. }
    exists d', o', tr'. split; [exact Hrun |]. split; [exact Ho' |].
    (* the first page is as the first iteration left it *)
    assert (Hfirst : forall i, 0 <= i < 1024 ->
                               byte_at d' (page * 1024 + i) = byte_at pg i).
    { intros i Hi. rewrite (Hframe page i) by lia.
      unfold d1. rewrite byte_at_step_disk by lia.
      rewrite leb_true, ltb_true by lia. cbn [andb]. f_equal. lia. }
    assert (Hlen' : (page + 1) * 1024 <= len d').
    { rewrite Hlen. lia. }
    unfold written. cbv zeta.
    split; [| split; [| split; [| split; [| split; [| split]]]]].
    + rewrite Hlen, Hd1. rewrite (ltb_true 0 nWrite) by lia.
      destruct (Z.ltb_spec 0 (nWrite - n)); divmod.
    + intros j Hj HjE _.
      destruct (Z.eq_dec j page) as [-> | Hne].
      * replace (page_at d' page) with pg; [apply seal_ok |].
        { unfold pg, step_page.
          match goal with |- len (overwrite ?b _ _) = _ =>
            assert (len b = 1024) as Hb end.
          { destruct (Z.ltb_spec (page * 1024) (len d)); [| exact Hpb].
            apply len_page_at; [lia |]. divmod. }
          rewrite len_overwrite; lia. }
        symmetry. apply bytes_ext.
        { rewrite len_page_at by lia. lia. }
        intros i Hi. rewrite len_page_at in Hi by lia.
        rewrite byte_at_page_at by lia. apply Hfirst. lia.
      * apply Hok; lia.
    + intros j i Hj Hi Hin.
      destruct (Z.eq_dec j page) as [-> | Hne].
      * rewrite Hfirst by lia. unfold pg.
        rewrite byte_at_step_page by lia. rewrite Hchunk.
        rewrite leb_true, ltb_true by lia. cbn [andb].
        rewrite byte_at_take by lia. rewrite ltb_true by lia. f_equal. lia.
      * rewrite (Hnew j i) by lia.
        rewrite byte_at_drop by lia. f_equal. lia.
    + intros j i Hj Hi Hout.
      rewrite (Hframe j i) by lia.
      unfold d1. rewrite byte_at_step_disk by lia.
      destruct (Z.leb_spec (page * 1024) (j * 1024 + i));
        destruct (Z.ltb_spec (j * 1024 + i) ((page + 1) * 1024)); cbn [andb];
        try reflexivity; lia.
    + intros j i Hj Hi Hout Hin.
      destruct (Z.eq_dec j page) as [-> | Hne].
      * rewrite Hfirst by lia. unfold pg.
        rewrite byte_at_step_page by lia. rewrite Hchunk.
        destruct (Z.leb_spec pageOffset i); destruct (Z.ltb_spec i (pageOffset + n));
          cbn [andb]; try lia; rewrite ltb_true by lia; reflexivity.
      * destruct (Z_lt_le_dec j page) as [Hlt | Hgt].
        { rewrite (Hframe j i) by lia.
          unfold d1. rewrite byte_at_step_disk by lia.
          rewrite (leb_false (page * 1024)) by lia. reflexivity. }
        rewrite (Hdata j i) by lia.
        unfold d1. rewrite byte_at_step_disk by lia.
        rewrite (ltb_false (j * 1024 + i)) by lia. rewrite andb_false_r. reflexivity.
    + intros Hfresh _ i Hi Hout.
      rewrite Hfirst by lia. unfold pg.
      rewrite byte_at_step_page by lia. rewrite Hchunk.
      rewrite (ltb_false (page * 1024)) by lia.
      destruct (Z.leb_spec pageOffset i); destruct (Z.ltb_spec i (pageOffset + n));
        cbn [andb]; try reflexivity; lia.
    + intros j i _ Hj HjE Hfresh Hi Hout.
      destruct (Z.eq_dec j (page + 1)) as [-> | Hne].
      * rewrite Hnext by lia.
        replace (page + 1 - 1) with page by lia.
        symmetry. apply Hfirst. lia.
      * apply Hcarry; lia.
Qed.

End WriteLoop.

(** ** [write] on a writable file *)

Lemma with_logicalLength_same (c : CheckedFile) :
  with_logicalLength (logicalLength_ c) c = c.
Proof. destruct c. reflexivity. Qed.

Lemma p2l_split (o : Z) :
  0 <= o -> 0 <= p2l o / 1020 /\ 0 <= p2l o mod 1020 < 1020 /\
            p2l o / 1020 * 1020 + p2l o mod 1020 = p2l o.
Proof.
  intros H. pose proof (p2l_le o H). divmod.
Qed.

Section WriteSpec.

Variable host : Endianness.
Variable c : CheckedFile.
Hypothesis Hfd : 0 <= fd_ c.
Hypothesis Hrw : readOnly_ c = false.

Lemma write_spec (buf : list byte) (nWrite : Z) (d : list byte) (o : Z) tr cb :
  nWrite = len buf ->
  len d mod 1024 = 0 -> len d < 2 ^ 63 -> 0 <= o < 2 ^ 63 ->
  p2l o + nWrite < 2 ^ 62 ->
  exists d' tr',
    write host buf nWrite (mkState c (mkWorld d o [] tr cb))
    = Ok tt (mkState (with_logicalLength (Z.max (logicalLength_ c) (p2l o + nWrite)) c)
                     (mkWorld d' (l2p (p2l o + nWrite)) [] tr' cb)) /\
    written host d d' buf (zeros 1024) (p2l o / 1020) (p2l o mod 1020) nWrite.
Proof.
  intros HnW Hd Hdmax Ho Hmax.
  pose proof (len_nonneg buf) as Hbuf0.
  destruct (p2l_split o ltac:(lia)) as (Hpage & Hoff & Hsplit).
  pose proof (p2l_le o ltac:(lia)) as Hpos.
  unfold write.
  unfold bind at 1, gets at 1. cbn [this]. rewrite Hrw.
  erewrite bind_ok by (apply position_logical; [exact Hfd | lia]).
  erewrite bind_ok by (apply getCurrentPageAndOffset_logical; [exact Hfd | lia]).
  rewrite logicalPageSize_eq, physicalPageSize_eq.
  rewrite (u64_small (1020 - p2l o mod 1020)) by lia.
  rewrite (u64_small (p2l o + nWrite)) by lia.
  destruct (write_loop_spec host c Hfd Hrw (Z.to_nat nWrite) buf nWrite
              (p2l o / 1020) (p2l o mod 1020) (zeros 1024) d o
              (SysLseek 0 SEEK_CUR :: SysLseek 0 SEEK_CUR :: tr) cb)
    as (d' & o' & tr' & Hrun & Ho' & Hw); try lia.
  { rewrite len_zeros. lia. }
  erewrite bind_ok by exact Hrun.
  unfold bind at 1, gets at 1. cbn [this].
  pose proof (l2p_small (p2l o + nWrite) ltac:(lia)) as Hl2p.
  destruct (Z.ltb_spec (logicalLength_ c) (p2l o + nWrite)) as [Hgrow | Hkeep].
  - unfold bind at 1, modify at 1.
    change (set_logicalLength ?v (mkState c ?w)) with (mkState (with_logicalLength v c) w).
    rewrite seek_logical by (cbn [with_logicalLength fd_]; lia).
    rewrite Z.max_r by lia.
    exists d'. eexists. split; [reflexivity | exact Hw].
  - unfold bind at 1, ret at 1.
    rewrite seek_logical by lia.
    rewrite Z.max_l by lia. rewrite with_logicalLength_same.
    exists d'. eexists. split; [reflexivity | exact Hw].
Qed.

End WriteSpec.

(** ** The loop of [read] *)

Lemma len_logical (d : list byte) (L n : Z) : 0 <= n -> len (logical d L n) = n.
Proof.
  intros H. unfold logical, len. rewrite length_map, length_seq. lia.
Qed.

Lemma byte_at_logical (d : list byte) (L n i : Z) :
  0 <= i < n -> byte_at (logical d L n) i = byte_at d (l2p (L + i)).
Proof.
  intros H. unfold logical, byte_at at 1.
  set (f := fun i => byte_at d (l2p (L + Z.of_nat i))).
  rewrite (nth_indep (map f _) x00 (f 0%nat)) by (rewrite length_map, length_seq; lia).
  rewrite (map_nth f). rewrite seq_nth by lia. unfold f. cbn [Nat.add].
  do 2 f_equal. lia.
Qed.

Lemma logical_app (d : list byte) (L n1 n2 : Z) :
  0 <= n1 -> 0 <= n2 -> logical d L (n1 + n2) = logical d L n1 ++ logical d (L + n1) n2.
Proof.
  intros H1 H2. apply bytes_ext.
  - rewrite len_app, !len_logical by lia. reflexivity.
  - intros i Hi. rewrite len_logical in Hi by lia.
    rewrite byte_at_logical by lia.
    rewrite byte_at_app, len_logical by lia.
    destruct (Z.ltb_spec i n1).
    + rewrite byte_at_logical by lia. reflexivity.
    + rewrite byte_at_logical by lia. do 2 f_equal. lia.
Qed.

Lemma logical_nothing (d : list byte) (L : Z) : logical d L 0 = [].
Proof. reflexivity. Qed.

Lemma l2p_page (page x : Z) : 0 <= x < 1020 -> l2p (page * 1020 + x) = page * 1024 + x.
Proof. intros H. unfold l2p. divmod. Qed.

Lemma chunk_logical (d : list byte) (page off n : Z) :
  0 <= page -> 0 <= off -> 0 <= n -> off + n <= 1020 -> (page + 1) * 1024 <= len d ->
  take n (drop off (page_at d page)) = logical d (page * 1020 + off) n.
Proof.
  intros Hp Ho Hn Hfit Hd. apply bytes_ext.
  - rewrite len_take, len_drop, len_page_at, len_logical by lia. lia.
  - intros i Hi. rewrite len_take, len_drop, len_page_at in Hi by lia.
    rewrite byte_at_take, ltb_true, byte_at_drop, byte_at_page_at by lia.
    rewrite byte_at_logical by lia.
    replace (page * 1020 + off + i) with (page * 1020 + (off + i)) by lia.
    rewrite l2p_page by lia. reflexivity.
Qed.

Lemma nearbyint_div_100_pos (p : Z) : 0 < p <= 100 -> 0 < nearbyint_div 100 p.
Proof.
  intros H. unfold nearbyint_div.
  assert (1 <= 100 / p) by (apply Z.div_le_lower_bound; lia).
  destruct (_ <? _); [lia |]. destruct (_ <? _); [lia |]. destruct (Z.even _); lia.
Qed.

Section ReadLoop.

Variable host : Endianness.
Variable c : CheckedFile.
Hypothesis Hfd : 0 <= fd_ c.

(** The switch on the policy in the loop of [read]. *)
Lemma policy_switch_ok (policy page nRead : Z) (pg : list byte) (s : State) :
  valid_policy policy ->
  (verifies policy page nRead = true -> page_ok host pg) ->
  (if policy =? ChecksumPolicy.ChecksumNone then ret tt
   else if policy =? ChecksumPolicy.ChecksumAll then verifyChecksum host pg page
   else match checksumMod policy with
        | None => undefined
        | Some 0 => undefined
        | Some m =>
            if (page mod m =? 0) || (nRead <? physicalPageSize)
            then verifyChecksum host pg page
            else ret tt
        end) s = Ok tt s.
Proof.
  intros Hv Hok. unfold verifies in Hok. unfold valid_policy in Hv.
  unfold ChecksumPolicy.ChecksumNone, ChecksumPolicy.ChecksumAll in *.
  destruct (Z.eqb_spec policy 0); [reflexivity |].
  destruct (Z.eqb_spec policy 100); [apply verifyChecksum_ok; auto |].
  unfold checksumMod in *. rewrite (ltb_true 0 policy) in * by lia.
  pose proof (nearbyint_div_100_pos policy ltac:(lia)) as Hm.
  destruct (nearbyint_div 100 policy) as [| m | m]; try lia.
  destruct ((page mod Z.pos m =? 0) || (nRead <? physicalPageSize));
    [apply verifyChecksum_ok; auto | reflexivity].
Qed.

Lemma policy_switch_bad (policy page nRead : Z) (pg : list byte) d o sc tr cb :
  valid_policy policy ->
  verifies policy page nRead = true -> ~ page_ok host pg ->
  0 <= o < 2 ^ 63 -> len d < 2 ^ 63 ->
  exists s',
    (if policy =? ChecksumPolicy.ChecksumNone then ret tt
     else if policy =? ChecksumPolicy.ChecksumAll then verifyChecksum host pg page
     else match checksumMod policy with
          | None => undefined
          | Some 0 => undefined
          | Some m =>
              if (page mod m =? 0) || (nRead <? physicalPageSize)
              then verifyChecksum host pg page
              else ret tt
          end) (mkState c (mkWorld d o sc tr cb)) = Throw ErrorBadChecksum s'.
Proof.
  intros Hv Hver Hbad Ho Hd. unfold verifies in Hver. unfold valid_policy in Hv.
  unfold ChecksumPolicy.ChecksumNone, ChecksumPolicy.ChecksumAll in *.
  destruct (Z.eqb_spec policy 0); [discriminate |].
  destruct (Z.eqb_spec policy 100); [apply verifyChecksum_bad; auto |].
  unfold checksumMod in *. rewrite (ltb_true 0 policy) in * by lia.
  pose proof (nearbyint_div_100_pos policy ltac:(lia)) as Hm.
  destruct (nearbyint_div 100 policy) as [| m | m]; try lia.
  rewrite Hver. apply verifyChecksum_bad; auto.
Qed.

End ReadLoop.

Section ReadLoopSpec.

Variable host : Endianness.
Variable c : CheckedFile.
Hypothesis Hfd : 0 <= fd_ c.

Lemma read_loop_step_ok (fuel : nat) (policy nRead page pageOffset n : Z)
      (pb out d : list byte) (o : Z) sc tr cb :
  0 < nRead < 2 ^ 64 -> 0 < n <= nRead -> 0 <= page ->
  (page + 1) * 1024 <= len d -> len d < 2 ^ 63 -> len pb <= 1024 ->
  valid_policy policy ->
  (verifies policy page nRead = true -> page_ok host (page_at d page)) ->
  exists tr1,
    read_loop host (S fuel) policy nRead page pageOffset n pb out
              (mkState c (mkWorld d o sc tr cb))
    = read_loop host fuel policy (nRead - n) (page + 1) 0 (Z.min (nRead - n) 1020)
                (page_at d page) (out ++ take n (drop pageOffset (page_at d page)))
                (mkState c (mkWorld d ((page + 1) * 1024) sc tr1 cb)).
Proof.
  intros HnR Hn Hp Hex Hdmax Hpb Hv Hok.
  cbn [read_loop]. rewrite ltb_true by lia.
  erewrite bind_ok by (apply readPhysicalPage_file; assumption).
  erewrite bind_ok by (apply policy_switch_ok; assumption).
  rewrite logicalPageSize_eq.
  rewrite (u64_small (nRead - n)) by lia.
  rewrite (u64_small (page + 1)) by lia.
  eexists. reflexivity.
Qed.

Lemma read_loop_step_bad (fuel : nat) (policy nRead page pageOffset n : Z)
      (pb out d : list byte) (o : Z) sc tr cb :
  0 < nRead -> 0 <= page ->
  (page + 1) * 1024 <= len d -> len d < 2 ^ 63 -> len pb <= 1024 ->
  valid_policy policy ->
  verifies policy page nRead = true -> ~ page_ok host (page_at d page) ->
  exists s',
    read_loop host (S fuel) policy nRead page pageOffset n pb out
              (mkState c (mkWorld d o sc tr cb))
    = Throw ErrorBadChecksum s'.
Proof.
  intros HnR Hp Hex Hdmax Hpb Hv Hver Hbad.
  cbn [read_loop]. rewrite ltb_true by lia.
  erewrite bind_ok by (apply readPhysicalPage_file; assumption).
  destruct (policy_switch_bad host c Hfd policy page nRead (page_at d page) d
              ((page + 1) * 1024) sc
              (SysRead 1024 :: SysLseek (page * 1024) SEEK_SET :: tr) cb)
    as [s' Hs']; try assumption; try lia.
  exists s'. apply bind_throw. exact Hs'.
Qed.

Lemma read_loop_ok (fuel : nat) :
  forall (policy nRead page pageOffset : Z) (pb out d : list byte) (o : Z) sc tr cb,
    0 <= nRead <= Z.of_nat fuel -> 0 <= page -> 0 <= pageOffset < 1020 ->
    len pb <= 1024 -> len d < 2 ^ 63 -> 0 <= o < 2 ^ 63 ->
    (0 < nRead -> (page * 1020 + pageOffset + nRead + 1019) / 1020 * 1024 <= len d) ->
    valid_policy policy ->
    (forall j, 0 < nRead -> page <= j -> j * 1020 < page * 1020 + pageOffset + nRead ->
               verifies policy j (remaining (page * 1020 + pageOffset)
                                            (page * 1020 + pageOffset + nRead) j) = true ->
               page_ok host (page_at d j)) ->
    exists o' tr',
      read_loop host fuel policy nRead page pageOffset
                (Z.min nRead (1020 - pageOffset)) pb out
                (mkState c (mkWorld d o sc tr cb))
      = Ok (out ++ logical d (page * 1020 + pageOffset) nRead)
           (mkState c (mkWorld d o' sc tr' cb)) /\
      0 <= o' < 2 ^ 63.
Proof.
  induction fuel as [| fuel IH];
    intros policy nRead page pageOffset pb out d o sc tr cb
           HnR Hp Hoff Hpb Hdmax Ho Hex Hv Hok.
  - assert (Hz : nRead = 0) by lia. rewrite Hz.
    exists o, tr. cbn [read_loop Z.ltb Z.compare]. unfold ret.
    rewrite logical_nothing, app_nil_r. auto.
  - destruct (Z.eq_dec nRead 0) as [Hz | Hnz].
    { rewrite Hz. exists o, tr. cbn [read_loop Z.ltb Z.compare]. unfold ret.
      rewrite logical_nothing, app_nil_r. auto. }
    set (n := Z.min nRead (1020 - pageOffset)).
    assert (Hn : 0 < n <= nRead) by lia.
    assert (Hfit : pageOffset + n <= 1020) by lia.
    assert (Hpage : (page + 1) * 1024 <= len d /\ nRead < 2 ^ 63).
    { specialize (Hex ltac:(lia)). revert Hex Hdmax. generalize (len d). intros z Hz Hzm.
      divmod. }
    destruct Hpage as [Hpage HnRmax].
    destruct (read_loop_step_ok fuel policy nRead page pageOffset n pb out d o sc tr cb)
      as [tr1 Hstep]; try assumption; try lia.
    { intros Hver. apply (Hok page); try lia.
      unfold remaining. rewrite Z.max_l by lia.
      replace (page * 1020 + pageOffset + nRead - (page * 1020 + pageOffset))
        with nRead by lia. exact Hver. }
    rewrite Hstep. clear Hstep.
    replace (Z.min (nRead - n) 1020) with (Z.min (nRead - n) (1020 - 0)) by lia.
    destruct (IH policy (nRead - n) (page + 1) 0 (page_at d page)
                 (out ++ take n (drop pageOffset (page_at d page)))
                 d ((page + 1) * 1024) sc tr1 cb)
      as (o' & tr' & Hrun & Ho'); try assumption; try lia.
    { rewrite len_page_at by lia. lia. }
    { intros Hmore. specialize (Hex ltac:(lia)).
      replace ((page + 1) * 1020 + 0 + (nRead - n)) with (page * 1020 + pageOffset + nRead)
        by lia. exact Hex. }
    { intros j Hpos' Hj HjE Hver. apply (Hok j); try lia.
      assert (Hmore : n < nRead) by lia.
      unfold remaining in *.
      rewrite Z.max_r in Hver by lia. rewrite Z.max_r by lia.
      replace (page * 1020 + pageOffset + nRead) with ((page + 1) * 1020 + 0 + (nRead - n))
        by lia. exact Hver. }
    exists o', tr'. split; [| exact Ho'].
    rewrite Hrun. f_equal. rewrite <- app_assoc. f_equal.
    rewrite chunk_logical by lia.
    replace nRead with (n + (nRead - n)) at 2 by lia.
    rewrite logical_app by lia. f_equal.
    destruct (Z.eq_dec (nRead - n) 0) as [-> | Hmore]; [reflexivity |].
    f_equal. lia.
Qed.

Lemma read_loop_bad (fuel : nat) :
  forall (policy nRead page pageOffset : Z) (pb out d : list byte) (o : Z) sc tr cb (k : Z),
    0 < nRead <= Z.of_nat fuel -> 0 <= page -> 0 <= pageOffset < 1020 ->
    len pb <= 1024 -> len d < 2 ^ 63 -> 0 <= o < 2 ^ 63 ->
    (0 < nRead -> (page * 1020 + pageOffset + nRead + 1019) / 1020 * 1024 <= len d) ->
    valid_policy policy ->
    page <= k -> k * 1020 < page * 1020 + pageOffset + nRead ->
    verifies policy k (remaining (page * 1020 + pageOffset)
                                 (page * 1020 + pageOffset + nRead) k) = true ->
    ~ page_ok host (page_at d k) ->
    (forall j, page <= j < k ->
               verifies policy j (remaining (page * 1020 + pageOffset)
                                            (page * 1020 + pageOffset + nRead) j) = true ->
               page_ok host (page_at d j)) ->
    exists s',
      read_loop host fuel policy nRead page pageOffset
                (Z.min nRead (1020 - pageOffset)) pb out
                (mkState c (mkWorld d o sc tr cb))
      = Throw ErrorBadChecksum s'.
Proof.
  induction fuel as [| fuel IH];
    intros policy nRead page pageOffset pb out d o sc tr cb k
           HnR Hp Hoff Hpb Hdmax Ho Hex Hv Hk HkE Hver Hbad Hok.
  - lia.
  - assert (Hpos : 0 < nRead) by lia.
    set (n := Z.min nRead (1020 - pageOffset)).
    assert (Hn : 0 < n <= nRead) by lia.
    assert (Hfit : pageOffset + n <= 1020) by lia.
    assert (Hpage : (page + 1) * 1024 <= len d /\ nRead < 2 ^ 63).
    { specialize (Hex ltac:(lia)). revert Hex Hdmax. generalize (len d). intros z Hz Hzm.
      divmod. }
    destruct Hpage as [Hpage HnRmax].
    assert (Hrem : remaining (page * 1020 + pageOffset)
                             (page * 1020 + pageOffset + nRead) page = nRead).
    { unfold remaining. lia. }
    destruct (Z.eq_dec k page) as [-> | Hne].
    + rewrite Hrem in Hver.
      apply read_loop_step_bad; try assumption; lia.
    + destruct (read_loop_step_ok fuel policy nRead page pageOffset n pb out d o sc tr cb)
        as [tr1 Hstep]; try assumption; try lia.
      { intros Hv1. apply (Hok page); [lia |]. rewrite Hrem. exact Hv1. }
      rewrite Hstep. clear Hstep.
      assert (Hmore : n < nRead) by lia.
      replace (Z.min (nRead - n) 1020) with (Z.min (nRead - n) (1020 - 0)) by lia.
      assert (HE : (page + 1) * 1020 + 0 + (nRead - n) = page * 1020 + pageOffset + nRead)
        by lia.
      apply (IH policy (nRead - n) (page + 1) 0 (page_at d page) _ d _ sc tr1 cb k);
        try assumption; try lia.
      * rewrite len_page_at by lia. lia.
      * intros _. rewrite HE. apply Hex. lia.
      * rewrite HE. unfold remaining in *.
        rewrite Z.max_r in Hver by lia. rewrite Z.max_r by lia. exact Hver.
      * intros j Hj Hvj. apply (Hok j); [lia |].
        rewrite HE in Hvj. unfold remaining in *.
        rewrite Z.max_r in Hvj by lia. rewrite Z.max_r by lia. exact Hvj.
Qed.

End ReadLoopSpec.

(** ** [read] on a file *)

Section ReadSpec.

Variable host : Endianness.
Variable c : CheckedFile.
Hypothesis Hfd : 0 <= fd_ c.

(** The part of [read] up to the loop. *)
Lemma read_enter (n : Z) d o sc tr cb :
  0 <= n -> 0 <= o < 2 ^ 63 -> p2l o + n <= logicalLength_ c -> p2l o + n < 2 ^ 62 ->
  read host n (mkState c (mkWorld d o sc tr cb))
  = (buf <- read_loop host (Z.to_nat n) (checkSumPolicy_ c) n (p2l o / 1020)
                      (p2l o mod 1020) (Z.min n (1020 - p2l o mod 1020))
                      (zeros 1024) [] ;;
     seek (p2l o + n) Logical ;;; ret buf)
      (mkState c (mkWorld d o sc (SysLseek 0 SEEK_CUR :: SysLseek 0 SEEK_CUR :: tr) cb)).
Proof.
  intros Hn Ho Hend Hmax.
  destruct (p2l_split o ltac:(lia)) as (Hpage & Hoff & Hsplit).
  pose proof (p2l_le o ltac:(lia)) as Hpos.
  unfold read.
  erewrite bind_ok by (apply position_logical; [exact Hfd | lia]).
  unfold length. unfold bind at 1, gets at 1. cbn [this].
  rewrite (u64_small (p2l o + n)) by lia.
  rewrite ltb_false by lia.
  erewrite bind_ok by (apply getCurrentPageAndOffset_logical; [exact Hfd | lia]).
  rewrite logicalPageSize_eq, physicalPageSize_eq.
  rewrite (u64_small (1020 - p2l o mod 1020)) by lia.
  unfold bind at 1, gets at 1. cbn [this]. reflexivity.
Qed.

Lemma read_spec (n : Z) d o sc tr cb :
  0 <= n -> 0 <= o < 2 ^ 63 -> p2l o + n <= logicalLength_ c -> p2l o + n < 2 ^ 62 ->
  len d < 2 ^ 63 ->
  (0 < n -> (p2l o + n + 1019) / 1020 * 1024 <= len d) ->
  valid_policy (checkSumPolicy_ c) ->
  (forall j, 0 < n -> p2l o / 1020 <= j -> j * 1020 < p2l o + n ->
             verifies (checkSumPolicy_ c) j (remaining (p2l o) (p2l o + n) j) = true ->
             page_ok host (page_at d j)) ->
  exists tr',
    read host n (mkState c (mkWorld d o sc tr cb))
    = Ok (logical d (p2l o) n) (mkState c (mkWorld d (l2p (p2l o + n)) sc tr' cb)).
Proof.
  intros Hn Ho Hend Hmax Hdmax Hex Hv Hok.
  destruct (p2l_split o ltac:(lia)) as (Hpage & Hoff & Hsplit).
  pose proof (p2l_le o ltac:(lia)) as Hpos.
  rewrite read_enter by assumption.
  destruct (read_loop_ok host c Hfd (Z.to_nat n) (checkSumPolicy_ c) n (p2l o / 1020)
              (p2l o mod 1020) (zeros 1024) [] d o sc
              (SysLseek 0 SEEK_CUR :: SysLseek 0 SEEK_CUR :: tr) cb)
    as (o' & tr' & Hrun & Ho'); try assumption; try lia;
    try (rewrite len_zeros; lia);
    try (rewrite Hsplit; first [assumption | intros _; assumption]).
  erewrite bind_ok by exact Hrun.
  pose proof (l2p_small (p2l o + n) ltac:(lia)) as Hl2p.
  erewrite bind_ok by (apply seek_logical; [exact Hfd | lia | lia]).
  unfold ret. rewrite Hsplit. cbn [app]. eexists. reflexivity.
Qed.

Lemma read_bad_spec (n k : Z) d o sc tr cb :
  0 < n -> 0 <= o < 2 ^ 63 -> p2l o + n <= logicalLength_ c -> p2l o + n < 2 ^ 62 ->
  len d < 2 ^ 63 ->
  (p2l o + n + 1019) / 1020 * 1024 <= len d ->
  valid_policy (checkSumPolicy_ c) ->
  p2l o / 1020 <= k -> k * 1020 < p2l o + n ->
  verifies (checkSumPolicy_ c) k (remaining (p2l o) (p2l o + n) k) = true ->
  ~ page_ok host (page_at d k) ->
  (forall j, p2l o / 1020 <= j < k ->
             verifies (checkSumPolicy_ c) j (remaining (p2l o) (p2l o + n) j) = true ->
             page_ok host (page_at d j)) ->
  exists s', read host n (mkState c (mkWorld d o sc tr cb)) = Throw ErrorBadChecksum s'.
Proof.
  intros Hn Ho Hend Hmax Hdmax Hex Hv Hk HkE Hver Hbad Hok.
  destruct (p2l_split o ltac:(lia)) as (Hpage & Hoff & Hsplit).
  pose proof (p2l_le o ltac:(lia)) as Hpos.
  rewrite read_enter by (try assumption; lia).
  destruct (read_loop_bad host c Hfd (Z.to_nat n) (checkSumPolicy_ c) n (p2l o / 1020)
              (p2l o mod 1020) (zeros 1024) [] d o sc
              (SysLseek 0 SEEK_CUR :: SysLseek 0 SEEK_CUR :: tr) cb k)
    as (s' & Hrun); try assumption; try lia;
    try (rewrite len_zeros; lia);
    try (rewrite Hsplit; first [assumption | intros _; assumption]).
  exists s'. apply bind_throw. exact Hrun.
Qed.

End ReadSpec.

(** ** A read whose end wraps (C4) *)



(** ** Round trip (C1) *)

Lemma open_for_writing (fileName : string) (policy : Z) (w : World) :
  script w = [] ->
  CheckedFile_file fileName Write policy w
  = Ok tt (mkState (mkCheckedFile fileName 0 0 policy the_fd None false)
                   (mkWorld [] 0 [] (SysOpen true :: trace w) (caller_buffer w))).
Proof.
  destruct w as [d o sc tr cb]. cbn [script trace caller_buffer]. intros ->. reflexivity.
Qed.

Lemma written_logical (host : Endianness) (d d' buf pb : list byte) (L n : Z) :
  0 <= L -> n = len buf ->
  written host d d' buf pb (L / 1020) (L mod 1020) n ->
  logical d' L n = buf.
Proof.
  intros HL Hn (_ & _ & Hnew & _). pose proof (len_nonneg buf).
  apply bytes_ext.
  - rewrite len_logical by lia. exact Hn.
  - intros i Hi. rewrite len_logical in Hi by lia.
    rewrite byte_at_logical by lia.
    unfold l2p.
    rewrite (Hnew ((L + i) / 1020) ((L + i) mod 1020)) by divmod.
    f_equal. divmod.
Qed.

Lemma written_pages_ok (host : Endianness) (d d' buf pb : list byte) (L n j : Z) :
  0 <= L -> 0 < n ->
  written host d d' buf pb (L / 1020) (L mod 1020) n ->
  L / 1020 <= j -> j * 1020 < L + n -> page_ok host (page_at d' j).
Proof.
  intros HL Hn (_ & Hok & _) Hj HjE. apply Hok; try lia.
  replace (L / 1020 * 1020 + L mod 1020) with L by divmod. exact HjE.
Qed.

Lemma written_length (host : Endianness) (d d' buf pb : list byte) (L n : Z) :
  0 <= L -> 0 <= n ->
  written host d d' buf pb (L / 1020) (L mod 1020) n ->
  len d' = Z.max (len d) (if 0 <? n then (L + n + 1019) / 1020 * 1024 else 0).
Proof.
  intros HL Hn (Hlen & _). rewrite Hlen.
  replace (L / 1020 * 1020 + L mod 1020) with L by divmod. reflexivity.
Qed.

(** C1: a byte sequence written into a file just opened for writing is what
    reading its length from logical offset 0 returns, under every checksum
    policy and on either byte order. *)
Theorem write_read_roundtrip
  (host : Endianness) (fileName : string) (policy : Z) (w : World) (S : list byte)
  (Hos : script w = []) (Hpolicy : valid_policy policy) (Hsize : len S < 2 ^ 62) :
  exists s',
    after_open (CheckedFile_file fileName Write policy w)
               (write host S (len S) ;;; seek 0 Logical ;;; read host (len S))
    = Ok S s'.
Proof.
  rewrite open_for_writing by exact Hos. unfold after_open.
  pose proof (len_nonneg S) as HS.
  set (c0 := mkCheckedFile fileName 0 0 policy the_fd None false).
  assert (Hfd0 : 0 <= fd_ c0) by (cbn; unfold the_fd; lia).
  destruct (write_spec host c0 Hfd0 eq_refl S (len S) [] 0
              (SysOpen true :: trace w) (caller_buffer w))
    as (d' & tr' & Hwrite & Hw); try reflexivity; try (cbn; lia).
  change (p2l 0) with 0 in *. rewrite Z.add_0_l in *.
  erewrite bind_ok by exact Hwrite.
  set (c1 := with_logicalLength (Z.max (logicalLength_ c0) (len S)) c0) in *.
  assert (Hfd1 : 0 <= fd_ c1) by (cbn; unfold the_fd; lia).
  erewrite bind_ok by (apply seek_logical; [exact Hfd1 | lia | cbn; lia]).
  change (l2p 0) with 0.
  change (0 / 1020) with 0 in Hw. change (0 mod 1020) with 0 in Hw.
  pose proof (written_length host [] d' S (zeros 1024) 0 (len S) ltac:(lia) HS Hw) as Hlen.
  rewrite Z.add_0_l in Hlen. change (len []) with 0 in Hlen.
  assert (Hdmax : len d' < 2 ^ 63).
  { rewrite Hlen. destruct (0 <? len S); [divmod | lia]. }
  destruct (read_spec host c1 Hfd1 (len S) d' 0 [] (SysLseek 0 SEEK_SET :: tr')
              (caller_buffer w))
    as (tr'' & Hread); change (p2l 0) with 0; rewrite ?Z.add_0_l; try lia.
  - cbn. lia.
  - intros Hpos. rewrite Hlen. rewrite ltb_true by lia. lia.
  - exact Hpolicy.
  - intros j _ Hj HjE _. change (0 / 1020) with 0 in Hj.
    apply (written_pages_ok host [] d' S (zeros 1024) 0 (len S) j);
      first [exact Hw | change (0 / 1020) with 0; lia].
  - rewrite Hread. eexists. f_equal.
    apply (written_logical host [] d' S (zeros 1024) 0 (len S)); [lia | reflexivity | exact Hw].
Qed.

Lemma write_read_roundtrip_witness :
  exists s',
    after_open (CheckedFile_file "scan.e57" Write 100 empty_world)
               (write LittleEndian (map byte_of_Z [72; 101; 108; 108; 111]) 5 ;;;
                seek 0 Logical ;;; read LittleEndian 5)
    = Ok (map byte_of_Z [72; 101; 108; 108; 111]) s'.
Proof.
  apply (write_read_roundtrip LittleEndian "scan.e57" 100 empty_world
           (map byte_of_Z [72; 101; 108; 108; 111])).
  - reflexivity.
  - unfold valid_policy. lia.
  - vm_compute. reflexivity.
Defined.

(** ** [extend] *)

Lemma take_zeros (n m : Z) : 0 <= n <= m -> take n (zeros m) = zeros n.
Proof.
  intros H. apply bytes_ext.
  - rewrite len_take, !len_zeros by lia. lia.
  - intros i Hi. rewrite byte_at_take by lia. rewrite !byte_at_zeros.
    destruct (i <? n); reflexivity.
Qed.

Lemma drop_zeros (n m : Z) : 0 <= n <= m -> drop n (zeros m) = zeros (m - n).
Proof.
  intros H. apply bytes_ext.
  - rewrite len_drop, !len_zeros by lia. lia.
  - intros i Hi. rewrite byte_at_drop by lia. rewrite !byte_at_zeros. reflexivity.
Qed.

Lemma bind_ext {A B : Type} (m : M A) (k1 k2 : A -> M B) (s : State) :
  (forall a s', k1 a s' = k2 a s') -> bind m k1 s = bind m k2 s.
Proof.
  intros H. unfold bind. destruct (m s); auto.
Qed.

(** The loop of [extend] is the loop of [write] on a source of zero bytes. *)
Lemma extend_loop_write_loop (host : Endianness) (fuel : nat) :
  forall (nWrite page pageOffset n : Z) (pb : list byte) (s : State),
    0 <= nWrite < 2 ^ 64 -> 0 <= n <= nWrite ->
    extend_loop host fuel nWrite page pageOffset n pb s
    = write_loop host fuel (zeros nWrite) nWrite page pageOffset n pb s.
Proof.
  induction fuel as [| fuel IH]; intros nWrite page pageOffset n pb s HnW Hn;
    cbn [extend_loop write_loop]; [reflexivity |].
  destruct (0 <? nWrite); [| reflexivity].
  apply bind_ext. intros physicalLength s1.
  apply bind_ext. intros pb1 s2.
  rewrite len_zeros. rewrite (ltb_false (Z.max 0 nWrite) n) by lia.
  rewrite take_zeros by lia.
  apply bind_ext. intros pb2 s3.
  rewrite (u64_small (nWrite - n)) by lia.
  rewrite drop_zeros by lia.
  replace (if nWrite - n <? logicalPageSize then nWrite - n else logicalPageSize)
    with (Z.min (nWrite - n) logicalPageSize)
    by (destruct (Z.ltb_spec (nWrite - n) logicalPageSize); lia).
  apply IH; [lia |]. rewrite logicalPageSize_eq. lia.
Qed.

Section ExtendSpec.

Variable host : Endianness.
Variable c : CheckedFile.
Hypothesis Hfd : 0 <= fd_ c.
Hypothesis Hrw : readOnly_ c = false.

Lemma extend_spec (newLength : Z) (d : list byte) (o : Z) tr cb :
  len d mod 1024 = 0 -> len d < 2 ^ 63 -> 0 <= o < 2 ^ 63 ->
  0 <= logicalLength_ c <= newLength -> newLength < 2 ^ 62 ->
  exists d' tr',
    extend host newLength Logical (mkState c (mkWorld d o [] tr cb))
    = Ok tt (mkState (with_logicalLength newLength c)
                     (mkWorld d' (l2p newLength) [] tr' cb)) /\
    written host d d' (zeros (newLength - logicalLength_ c)) (zeros 1024)
            (logicalLength_ c / 1020) (logicalLength_ c mod 1020)
            (newLength - logicalLength_ c).
Proof.
  intros Hd Hdmax Ho HC HN.
  set (C := logicalLength_ c) in *.
  pose proof (l2p_small C ltac:(lia)) as HlC.
  pose proof (l2p_small newLength ltac:(lia)) as HlN.
  assert (Hsplit : 0 <= C / 1020 /\ 0 <= C mod 1020 < 1020 /\
                   C / 1020 * 1020 + C mod 1020 = C) by divmod.
  destruct Hsplit as (Hpage & Hoff & Hsplit).
  unfold extend.
  unfold bind at 1, gets at 1. cbn [this]. rewrite Hrw.
  unfold length. unfold bind at 1, gets at 1. cbn [this]. fold C.
  rewrite ltb_false by lia.
  rewrite (u64_small (newLength - C)) by lia.
  erewrite bind_ok by (apply seek_logical; [exact Hfd | lia | lia]).
  erewrite bind_ok by (apply getCurrentPageAndOffset_logical; [exact Hfd | lia]).
  rewrite p2l_l2p by lia.
  rewrite logicalPageSize_eq, physicalPageSize_eq.
  rewrite (u64_small (1020 - C mod 1020)) by lia.
  replace (if newLength - C <? 1020 - C mod 1020 then newLength - C else 1020 - C mod 1020)
    with (Z.min (newLength - C) (1020 - C mod 1020))
    by (destruct (Z.ltb_spec (newLength - C) (1020 - C mod 1020)); lia).
  unfold bind at 1.
  rewrite extend_loop_write_loop by lia.
  destruct (write_loop_spec host c Hfd Hrw (Z.to_nat (newLength - C))
              (zeros (newLength - C)) (newLength - C) (C / 1020) (C mod 1020)
              (zeros 1024) d (l2p C)
              (SysLseek 0 SEEK_CUR :: SysLseek (l2p C) SEEK_SET :: tr) cb)
    as (d' & o' & tr' & Hrun & Ho' & Hw); try lia;
    try (rewrite len_zeros; lia).
  rewrite Hrun.
  unfold bind at 1, modify at 1.
  change (set_logicalLength ?v (mkState c ?w)) with (mkState (with_logicalLength v c) w).
  rewrite seek_logical by (cbn [with_logicalLength fd_]; lia).
  exists d'. eexists. split; [reflexivity | exact Hw].
Qed.

End ExtendSpec.

(** C6: on a writable file whose image is whole pages that cover its logical
    length, [extend] to a logical length [N] not below the current length
    [C] returns normally; afterwards the logical length is [N], the logical
    bytes [C, N) of the image are zero and every read inside [C, N) returns
    zeros, and the logical bytes [0, C) of the image are what they were. *)
Theorem extend_zero_fills
  (host : Endianness) (s : State) (N : Z)
  (Hfd : 0 <= fd_ (this s)) (Hrw : readOnly_ (this s) = false)
  (Hsc : script (os s) = [])
  (Hpages : len (disk (os s)) mod 1024 = 0) (Hdmax : len (disk (os s)) < 2 ^ 63)
  (Hcover : logicalLength_ (this s) <= len (disk (os s)) / 1024 * 1020)
  (Hoff : 0 <= offset (os s) < 2 ^ 63)
  (HC : 0 <= logicalLength_ (this s) <= N) (HN : N < 2 ^ 62)
  (Hpolicy : valid_policy (checkSumPolicy_ (this s))) :
  exists s',
    extend host N Logical s = Ok tt s' /\
    length Logical s' = Ok N s' /\
    (forall l, logicalLength_ (this s) <= l < N ->
               byte_at (disk (os s')) (logicalToPhysical l) = x00) /\
    (forall l, 0 <= l < logicalLength_ (this s) ->
               byte_at (disk (os s')) (logicalToPhysical l)
               = byte_at (disk (os s)) (logicalToPhysical l)) /\
    (forall a n, logicalLength_ (this s) <= a -> 0 <= n -> a + n <= N ->
                 exists s'', (seek a Logical ;;; read host n) s' = Ok (zeros n) s'').
Proof.
  destruct s as [c [d o sc tr cb]].
  cbn [this os disk offset script] in *. subst sc.
  set (C := logicalLength_ c) in *.
  destruct (extend_spec host c Hfd Hrw N d o tr cb) as (d' & tr' & Hext & Hw);
    try assumption; try lia.
  fold C in Hw.
  assert (HL : C / 1020 * 1020 + C mod 1020 = C) by divmod.
  pose proof Hw as (Hlen & Hok & Hnew & _ & Hdata & _). cbv zeta in *.
  rewrite HL in *.
  replace (C + (N - C)) with N in * by lia.
  assert (Hzero : forall l, C <= l < N -> byte_at d' (l2p l) = x00).
  { intros l Hl. unfold l2p.
    rewrite (Hnew (l / 1020) (l mod 1020)) by divmod.
    apply byte_at_zeros. }
  exists (mkState (with_logicalLength N c) (mkWorld d' (l2p N) [] tr' cb)).
  split; [exact Hext |]. split; [reflexivity |].
  cbn [os disk this]. split; [| split].
  - intros l Hl. pose proof (l2p_small l ltac:(lia)).
    rewrite logicalToPhysical_l2p by lia. apply Hzero. exact Hl.
  - intros l Hl. pose proof (l2p_small l ltac:(lia)).
    rewrite logicalToPhysical_l2p by lia. unfold l2p.
    apply Hdata; divmod.
  - intros a n Ha Hn Han.
    set (c1 := with_logicalLength N c).
    assert (Hfd1 : 0 <= fd_ c1) by exact Hfd.
    pose proof (l2p_small a ltac:(lia)) as Hla.
    erewrite bind_ok by (apply seek_logical; [exact Hfd1 | lia | lia]).
    destruct (read_spec host c1 Hfd1 n d' (l2p a) [] (SysLseek (l2p a) SEEK_SET :: tr') cb)
      as (tr'' & Hread); rewrite ?p2l_l2p by lia; try lia; try assumption.
    + rewrite Hlen. destruct (0 <? N - C) eqn:E; [divmod | lia].
    + intros Hpos. rewrite Hlen. rewrite ltb_true by lia.
      assert ((a + n + 1019) / 1020 * 1024 <= (N + 1019) / 1020 * 1024) by divmod. lia.
    + intros j Hpos Hj HjE _. apply Hok; try lia. divmod.
    + rewrite Hread. rewrite p2l_l2p by lia. eexists. f_equal.
      apply bytes_ext.
      * rewrite len_logical, len_zeros by lia. lia.
      * intros i Hi. rewrite len_logical in Hi by lia.
        rewrite byte_at_logical by lia. rewrite byte_at_zeros.
        apply Hzero. lia.
Qed.

Lemma extend_zero_fills_witness :
  exists s',
    extend LittleEndian 3000 Logical ten_byte_file = Ok tt s' /\
    length Logical s' = Ok 3000 s' /\
    exists s'', (seek 10 Logical ;;; read LittleEndian 2990) s' = Ok (zeros 2990) s''.
Proof.
  pose proof (extend_zero_fills LittleEndian ten_byte_file 3000
                ltac:(vm_compute; congruence) ltac:(vm_compute; reflexivity)
                ltac:(vm_compute; reflexivity) ltac:(vm_compute; reflexivity)
                ltac:(vm_compute; reflexivity) ltac:(vm_compute; congruence)
                ltac:(vm_compute; split; congruence)
                ltac:(vm_compute; split; congruence) ltac:(vm_compute; reflexivity)
                ltac:(vm_compute; split; congruence))
    as (s' & Hext & Hlen & _ & _ & Hread).
  exists s'. split; [exact Hext |]. split; [exact Hlen |].
  apply Hread; vm_compute; congruence.
Defined.

(** ** Pages that [write] creates (C9) *)

(** C9, as amended: a [write] of at least one byte leaves every page it
    touches wholly in the image.  When the first page it touches did not
    exist in the file, the bytes of its data region outside the written range
    are zero afterwards: in the image, in the raw page read back, and in what
    [read] returns for every such range inside the logical length.  On a
    later page of the same call that did not exist, the bytes of the data
    region behind the written range are those of the page before it, which
    the page buffer still holds. *)
Theorem write_fresh_pages
  (host : Endianness) (s : State) (buf : list byte)
  (Hfd : 0 <= fd_ (this s)) (Hrw : readOnly_ (this s) = false)
  (Hsc : script (os s) = [])
  (Hpages : len (disk (os s)) mod 1024 = 0) (Hdmax : len (disk (os s)) < 2 ^ 63)
  (Hoff : 0 <= offset (os s) < 2 ^ 63)
  (Hsize : 0 < len buf) (Hend : physicalToLogical (offset (os s)) + len buf < 2 ^ 62) :
  let L := physicalToLogical (offset (os s)) in
  let page := L / logicalPageSize in
  let fresh := len (disk (os s)) <= page * physicalPageSize in
  let outside i := i < L mod logicalPageSize \/ L mod logicalPageSize + len buf <= i in
  exists s',
    write host buf (len buf) s = Ok tt s' /\
    len (disk (os s'))
    = Z.max (len (disk (os s)))
            ((L + len buf + logicalPageSize - 1) / logicalPageSize * physicalPageSize) /\
    logicalLength_ (this s') = Z.max (logicalLength_ (this s)) (L + len buf) /\
    (forall j, page <= j -> j * logicalPageSize < L + len buf ->
               (j + 1) * physicalPageSize <= len (disk (os s'))) /\
    (fresh ->
     forall i, 0 <= i < logicalPageSize -> outside i ->
               byte_at (disk (os s')) (page * physicalPageSize + i) = x00) /\
    (fresh ->
     forall pb, len pb <= physicalPageSize ->
       exists pg s'', readPhysicalPage pb page s' = Ok pg s'' /\
                      len pg = physicalPageSize /\
                      forall i, 0 <= i < logicalPageSize -> outside i -> byte_at pg i = x00) /\
    (fresh -> valid_policy (checkSumPolicy_ (this s)) ->
     forall a n, page * logicalPageSize <= a -> 0 <= n ->
                 a + n <= (page + 1) * logicalPageSize ->
                 a + n <= L \/ L + len buf <= a ->
                 a + n <= logicalLength_ (this s') -> a + n < 2 ^ 62 ->
                 exists s'', (seek a Logical ;;; read host n) s' = Ok (zeros n) s'') /\
    (forall j i, page < j -> j * logicalPageSize < L + len buf ->
                 len (disk (os s)) <= j * physicalPageSize ->
                 0 <= i < logicalPageSize -> L + len buf <= j * logicalPageSize + i ->
                 byte_at (disk (os s')) (j * physicalPageSize + i)
                 = byte_at (disk (os s')) ((j - 1) * physicalPageSize + i)).
Proof.
  destruct s as [c [d o sc tr cb]].
  cbn [this os disk offset script] in *. subst sc. cbv zeta.
  rewrite physicalToLogical_p2l in * by lia.
  rewrite logicalPageSize_eq, physicalPageSize_eq in *.
  destruct (p2l_split o ltac:(lia)) as (Hpage & Hpo & Hsplit).
  pose proof (len_nonneg d) as Hd0.
  set (L := p2l o) in *. set (n := len buf) in *.
  destruct (write_spec host c Hfd Hrw buf n d o tr cb)
    as (d' & tr' & Hwrite & Hw); fold L; try reflexivity; try assumption; try lia.
  fold L in Hwrite, Hw.
  pose proof (written_length host d d' buf (zeros 1024) L n ltac:(lia) ltac:(lia) Hw) as Hlen.
  rewrite ltb_true in Hlen by lia.
  assert (Hin : forall j, L / 1020 <= j -> j * 1020 < L + n -> (j + 1) * 1024 <= len d').
  { intros j Hj HjE. rewrite Hlen. clear - Hj HjE Hpage. divmod. }
  assert (Hlen' : len d' < 2 ^ 63).
  { rewrite Hlen. apply Z.max_lub_lt; [lia |]. clear - Hend Hpage Hpo Hsplit Hsize.
    divmod. }
  pose proof Hw as (_ & _ & _ & _ & _ & Hzero & Hcarry). cbv zeta in Hcarry.
  rewrite Hsplit in Hcarry.
  set (c1 := with_logicalLength (Z.max (logicalLength_ c) (L + n)) c) in *.
  assert (Hfd1 : 0 <= fd_ c1) by exact Hfd.
  assert (Hfirst : (L / 1020 + 1) * 1024 <= len d') by (apply Hin; lia).
  eexists. split; [exact Hwrite |].
  cbn [this os disk].
  split; [rewrite Hlen; f_equal; f_equal; f_equal; lia |].
  split; [reflexivity |].
  split; [exact Hin |].
  split; [| split; [| split]].
  - intros Hfresh i Hi Hout.
    rewrite Hzero by (try assumption; lia).
    apply byte_at_zeros.
  - intros Hfresh pb Hpb.
    rewrite (readPhysicalPage_file c1 Hfd1 pb (L / 1020) d') by lia.
    eexists. eexists. split; [reflexivity |].
    split; [apply len_page_at; lia |].
    intros i Hi Hout. rewrite byte_at_page_at by lia.
    rewrite Hzero by (try assumption; lia).
    apply byte_at_zeros.
  - intros Hfresh Hpol a m Ha Hm Ham Hout Hll Hmax.
    pose proof (l2p_small a ltac:(lia)) as Hla.
    erewrite bind_ok by (apply seek_logical; [exact Hfd1 | lia | lia]).
    destruct (read_spec host c1 Hfd1 m d' (l2p a) [] (SysLseek (l2p a) SEEK_SET :: tr') cb)
      as (tr'' & Hread); rewrite ?p2l_l2p by lia; try lia; try assumption.
    + intros Hpos. assert ((a + m + 1019) / 1020 * 1024 <= (L / 1020 + 1) * 1024)
        by (clear - Ha Hm Ham Hpage; divmod). lia.
    + intros j Hpos Hj HjE _.
      assert (Hjp : j = L / 1020) by (clear - Ha Hm Ham Hpage Hj HjE; divmod).
      subst j.
      apply (written_pages_ok host d d' buf (zeros 1024) L n (L / 1020));
        try assumption; lia.
    + rewrite Hread. rewrite p2l_l2p by lia. eexists. f_equal.
      apply bytes_ext.
      * rewrite len_logical, len_zeros by lia. lia.
      * intros i Hi. rewrite len_logical in Hi by lia.
        rewrite byte_at_logical by lia. rewrite byte_at_zeros.
        replace (l2p (a + i)) with (L / 1020 * 1024 + (a + i - L / 1020 * 1020))
          by (unfold l2p; clear - Ha Hm Ham Hpage Hi; divmod).
        rewrite Hzero by (try assumption; lia).
        apply byte_at_zeros.
  - intros j i Hj HjE Hjfresh Hi Hout. apply Hcarry; lia.
Qed.

Lemma write_fresh_pages_witness :
  exists s' s'',
    (seek 500 Logical ;;; write LittleEndian (repeat "171"%byte 10) 10) (new_file 100)
    = Ok tt s' /\
    len (disk (os s')) = 1024 /\
    (seek 0 Logical ;;; read LittleEndian 500) s' = Ok (zeros 500) s''.
Proof.
  pose proof (write_fresh_pages LittleEndian
                (state_of (seek 500 Logical (new_file 100)) (new_file 100))
                (repeat "171"%byte 10)
                ltac:(vm_compute; congruence) ltac:(vm_compute; reflexivity)
                ltac:(vm_compute; reflexivity) ltac:(vm_compute; reflexivity)
                ltac:(vm_compute; reflexivity) ltac:(vm_compute; split; congruence)
                ltac:(vm_compute; reflexivity) ltac:(vm_compute; reflexivity))
    as (s' & Hwrite & Hlen & Hll & _ & _ & _ & Hread & _).
  destruct (Hread ltac:(vm_compute; congruence) ltac:(vm_compute; split; congruence)
              0 500 ltac:(vm_compute; congruence) ltac:(lia) ltac:(vm_compute; congruence)
              ltac:(left; vm_compute; congruence)
              ltac:(rewrite Hll; vm_compute; congruence) ltac:(lia))
    as [s'' Hzeros].
  exists s', s''. split; [exact Hwrite |]. split; [rewrite Hlen; reflexivity | exact Hzeros].
Defined.

(** C9 as stated fails on the second page of one call: 1030 bytes 0xAA
    written into a new file cover the offsets [0, 10) of page 1, which did
    not exist, and the rest of its data region holds what the buffer kept
    from page 0; a later [read] returns it. *)
Lemma write_later_fresh_page_counterexample :
  let s1 := state_of (write LittleEndian (repeat "170"%byte 1030) 1030 (new_file 100))
                     (new_file 100) in
  len (disk (os (new_file 100))) <= 1 * physicalPageSize /\
  10 <= 500 < logicalPageSize /\
  byte_at (disk (os s1)) (1 * physicalPageSize + 500) = "170"%byte /\
  byte_at (disk (os s1)) (1 * physicalPageSize + 500) <> x00 /\
  exists s2,
    (seek 2039 Logical ;;; write LittleEndian [x00] 1 ;;;
     seek 1520 Logical ;;; read LittleEndian 1) s1
    = Ok ["170"%byte] s2.
Proof.
  cbv zeta. split; [| split; [| split; [| split]]].
  - vm_compute. congruence.
  - vm_compute. split; congruence.
  - vm_compute. reflexivity.
  - vm_compute. congruence.
  - eexists. vm_compute. reflexivity.
Qed.

(** ** Corrupted pages and the checksum policy (C5) *)

Lemma page_ok_dec (host : Endianness) (pg : list byte) :
  {page_ok host pg} + {~ page_ok host pg}.
Proof. unfold page_ok. apply Z.eq_dec. Qed.

(** Below a page that fails a decidable test there is a first one. *)
Lemma first_failing_page (P : Z -> Prop) (dec : forall j, {P j} + {~ P j}) (p : Z) (m : nat) :
  forall k, p <= k -> k - p <= Z.of_nat m -> ~ P k ->
            exists k', p <= k' <= k /\ ~ P k' /\ forall j, p <= j < k' -> P j.
Proof.
  induction m as [| m IH]; intros k Hk Hm Hbad.
  - exists k. split; [lia | split; [exact Hbad | intros j Hj; lia]].
  - destruct (Z.eq_dec k p) as [-> | Hne].
    + exists p. split; [lia | split; [exact Hbad | intros j Hj; lia]].
    + assert (Hcases : (forall j, p <= j < k -> P j) \/ exists j, p <= j < k /\ ~ P j).
      { clear IH Hm Hbad Hne.
        assert (Hgen : forall q : nat,
                   (forall j, p <= j < p + Z.of_nat q -> P j) \/
                   exists j, p <= j < p + Z.of_nat q /\ ~ P j).
        { induction q as [| q IHq].
          - left. intros j Hj. lia.
          - destruct IHq as [Hall | (j & Hj & Hnj)].
            + destruct (dec (p + Z.of_nat q)) as [Hq | Hq].
              * left. intros j Hj.
                destruct (Z.eq_dec j (p + Z.of_nat q)) as [-> | Hd]; [exact Hq |].
                apply Hall. lia.
              * right. exists (p + Z.of_nat q). split; [lia | exact Hq].
            + right. exists j. split; [lia | exact Hnj]. }
        specialize (Hgen (Z.to_nat (k - p))).
        replace (p + Z.of_nat (Z.to_nat (k - p))) with k in Hgen by lia. exact Hgen. }
      destruct Hcases as [Hall | (j & Hj & Hnj)].
      * exists k. split; [lia | split; assumption].
      * destruct (IH j ltac:(lia) ltac:(lia) Hnj) as (k' & Hk' & Hbad' & Hmin).
        exists k'. split; [lia | split; assumption].
Qed.

Lemma verifies_sampled (policy j r : Z) :
  0 < policy < 100 ->
  verifies policy j r = (j mod nearbyint_div 100 policy =? 0) || (r <? physicalPageSize).
Proof.
  intros H. unfold verifies, ChecksumPolicy.ChecksumNone, ChecksumPolicy.ChecksumAll.
  destruct (Z.eqb_spec policy 0); [lia |].
  destruct (Z.eqb_spec policy 100); [lia |].
  unfold checksumMod. rewrite ltb_true by lia. reflexivity.
Qed.

(** C5, as amended: a read that covers a page [k] whose stored checksum
    disagrees with the computed one raises BadChecksum under the policy All;
    under Sampled(p), with the other pages of the read intact, it raises
    BadChecksum exactly when [k mod round (100 / p) = 0] or fewer than
    [physicalPageSize] bytes remain to be read when the read reaches page
    [k], which is so on the last page of the read; under None it returns the
    bytes of the image and never raises BadChecksum. *)
Theorem read_corrupt_page
  (host : Endianness) (s : State) (n k : Z)
  (Hfd : 0 <= fd_ (this s))
  (Hoff : 0 <= offset (os s) < 2 ^ 63)
  (Hn : 0 < n)
  (Hend : physicalToLogical (offset (os s)) + n <= logicalLength_ (this s))
  (Hmax : physicalToLogical (offset (os s)) + n < 2 ^ 62)
  (Hdmax : len (disk (os s)) < 2 ^ 63)
  (Hex : (physicalToLogical (offset (os s)) + n + 1019) / 1020 * 1024 <= len (disk (os s)))
  (Hk : physicalToLogical (offset (os s)) / logicalPageSize <= k)
  (HkE : k * logicalPageSize < physicalToLogical (offset (os s)) + n)
  (Hbad : ~ page_ok host (page_at (disk (os s)) k)) :
  let L := physicalToLogical (offset (os s)) in
  let policy := checkSumPolicy_ (this s) in
  (policy = ChecksumPolicy.ChecksumAll ->
   exists s', read host n s = Throw ErrorBadChecksum s') /\
  (0 < policy < 100 ->
   (forall j, L / logicalPageSize <= j -> j * logicalPageSize < L + n -> j <> k ->
              page_ok host (page_at (disk (os s)) j)) ->
   ((exists s', read host n s = Throw ErrorBadChecksum s') <->
    (k mod nearbyint_div 100 policy = 0 \/ remaining L (L + n) k < physicalPageSize))) /\
  (k = (L + n - 1) / logicalPageSize -> remaining L (L + n) k < physicalPageSize) /\
  (policy = ChecksumPolicy.ChecksumNone ->
   (exists s', read host n s = Ok (logical (disk (os s)) L n) s') /\
   (forall s', read host n s <> Throw ErrorBadChecksum s')).
Proof.
  destruct s as [c [d o sc tr cb]].
  cbn [this os disk offset] in *.
  rewrite physicalToLogical_p2l in * by lia.
  rewrite logicalPageSize_eq, physicalPageSize_eq in *.
  unfold ChecksumPolicy.ChecksumAll, ChecksumPolicy.ChecksumNone. cbv zeta.
  pose proof (p2l_le o ltac:(lia)) as Hpos.
  split; [| split; [| split]].
  - intros Hall.
    destruct (first_failing_page (fun j => page_ok host (page_at d j))
                (fun j => page_ok_dec host (page_at d j)) (p2l o / 1020)
                (Z.to_nat (k - p2l o / 1020)) k Hk ltac:(lia) Hbad)
      as (k' & Hk' & Hbad' & Hmin).
    apply (read_bad_spec host c Hfd n k' d o sc tr cb); try assumption; try lia.
    + unfold valid_policy. lia.
    + unfold verifies. rewrite Hall. reflexivity.
    + intros j Hj _. apply Hmin. exact Hj.
  - intros Hp Hothers.
    rewrite <- (Z.eqb_eq (k mod _) 0), <- (Z.ltb_lt (remaining _ _ _) 1024).
    rewrite <- orb_true_iff.
    change 1024 with physicalPageSize. rewrite <- verifies_sampled by exact Hp.
    split.
    + intros (s' & Hthrow).
      destruct (verifies (checkSumPolicy_ c) k (remaining (p2l o) (p2l o + n) k)) eqn:Hver;
        [reflexivity |].
      destruct (read_spec host c Hfd n d o sc tr cb) as (tr' & Hread);
        try assumption; try lia.
      * unfold valid_policy. lia.
      * intros j _ Hj HjE Hvj.
        destruct (Z.eq_dec j k) as [-> | Hne]; [congruence |].
        apply Hothers; assumption.
      * congruence.
    + intros Hver.
      apply (read_bad_spec host c Hfd n k d o sc tr cb); try assumption; try lia.
      * unfold valid_policy. lia.
      * intros j Hj _. apply Hothers; lia.
  - intros Hlast. unfold remaining. divmod.
  - intros Hnone.
    destruct (read_spec host c Hfd n d o sc tr cb) as (tr' & Hread);
      try assumption; try lia.
    + unfold valid_policy. lia.
    + intros j _ Hj HjE Hvj. unfold verifies in Hvj. rewrite Hnone in Hvj. discriminate.
    + split; [eexists; exact Hread | intros s'; congruence].
Qed.

Lemma corrupted_file_position (policy : Z) :
  physicalToLogical (offset (os (corrupted_file policy))) = 2020.
Proof. vm_compute. reflexivity. Qed.

Lemma read_corrupt_page_witness :
  exists s', read LittleEndian 100 (corrupted_file 50) = Throw ErrorBadChecksum s'.
Proof.
  pose proof (read_corrupt_page LittleEndian (corrupted_file 50) 100 1
                ltac:(vm_compute; congruence)
                ltac:(vm_compute; split; congruence)
                ltac:(lia)
                ltac:(vm_compute; congruence)
                ltac:(vm_compute; reflexivity)
                ltac:(vm_compute; reflexivity)
                ltac:(vm_compute; congruence)
                ltac:(vm_compute; congruence)
                ltac:(vm_compute; reflexivity)
                ltac:(unfold page_ok; vm_compute; congruence)) as H.
  cbv zeta in H. destruct H as (_ & Hsampled & _).
  apply Hsampled.
  - vm_compute. split; reflexivity.
  - intros j Hj HjE Hne.
    rewrite corrupted_file_position, logicalPageSize_eq in *.
    change (2020 / 1020) with 1 in Hj.
    assert (j = 2) as -> by lia.
    unfold page_ok. vm_compute. reflexivity.
  - right. vm_compute. reflexivity.
Defined.

(** C5 as stated fails under Sampled(50) on a read of 100 bytes from logical
    offset 2020: it covers the pages 1 and 2, page 1 is the corrupted one,
    it is neither a sampled page ([1 mod 2 <> 0]) nor the last page of the
    request, and the read raises BadChecksum, because fewer than
    [physicalPageSize] bytes remain to be read when it reaches page 1. *)
Lemma read_sampled_counterexample :
  ~ page_ok LittleEndian (page_at (disk (os (corrupted_file 50))) 1) /\
  page_ok LittleEndian (page_at (disk (os (corrupted_file 50))) 2) /\
  (exists s', read LittleEndian 100 (corrupted_file 50) = Throw ErrorBadChecksum s') /\
  ~ (1 mod nearbyint_div 100 50 = 0 \/ 1 = (2020 + 100 - 1) / logicalPageSize).
Proof.
  split; [| split; [| split]].
  - unfold page_ok. vm_compute. congruence.
  - unfold page_ok. vm_compute. reflexivity.
  - eexists. vm_compute. reflexivity.
  - vm_compute. intros [H | H]; discriminate.
Qed.

(** * More of the code *)

(** ** The byte swap *)

(** X1: [swap_uint32] is its own inverse on 32-bit words. *)
Theorem swap_uint32_involutive (v : Z) (Hv : 0 <= v < 2 ^ 32) :
  swap_uint32 (swap_uint32 v) = v.
Proof.
  rewrite <- (le_value_le_bytes (swap_uint32 (swap_uint32 v))) by apply swap_uint32_range.
  rewrite !le_bytes_swap_uint32, rev_involutive.
  apply le_value_le_bytes. exact Hv.
Qed.

Lemma swap_uint32_involutive_witness :
  swap_uint32 (swap_uint32 0x12345678) = 0x12345678.
Proof. apply (swap_uint32_involutive 0x12345678). lia. Defined.

(** ** The cursor *)

(** X2: on a file behind a descriptor, when the system accepts a [seek],
    [position] gives back the offset it was given: the logical offset after
    a logical seek, the physical offset after a physical one, and a physical
    offset inside the checksum of a page reads as the logical start of the
    next page.  Where the system refuses the offset, [seek] raises
    ErrorSeekFailed and nothing is said. *)
Theorem seek_then_position (s : State) (l p : Z)
  (Hfd : 0 <= fd_ (this s)) (Hl : 0 <= l < 2 ^ 62) (Hp : 0 <= p < 2 ^ 63) :
  (forall s1, seek l Logical s = Ok tt s1 ->
              exists s', position Logical s1 = Ok l s') /\
  (forall s1, seek p Physical s = Ok tt s1 ->
              (exists s', position Physical s1 = Ok p s') /\
              (1020 <= p mod 1024 ->
               exists s', position Logical s1 = Ok ((p / 1024 + 1) * 1020) s')).
Proof.
  destruct s as [c [d o sc tr cb]]. cbn [this fd_] in Hfd.
  pose proof (l2p_small l Hl) as Hl2p.
  split.
  - intros s1. rewrite seek_logical by (try exact Hfd; lia).
    intros H. injection H as <-.
    rewrite position_logical by (try exact Hfd; lia).
    rewrite p2l_l2p by lia. eexists. reflexivity.
  - intros s1. rewrite seek_physical by (try exact Hfd; lia).
    intros H. injection H as <-. split.
    + rewrite position_physical by (try exact Hfd; lia).
      eexists. reflexivity.
    + intros Hck. rewrite position_logical by (try exact Hfd; lia).
      replace (p2l p) with ((p / 1024 + 1) * 1020) by (unfold p2l; divmod).
      eexists. reflexivity.
Qed.

Lemma seek_then_position_witness :
  (exists s1 s', seek 2039 Logical (new_file 100) = Ok tt s1 /\
                 position Logical s1 = Ok 2039 s') /\
  (exists s1 s', seek 1022 Physical (new_file 100) = Ok tt s1 /\
                 position Logical s1 = Ok 1020 s').
Proof.
  pose proof (seek_then_position (new_file 100) 2039 1022
                ltac:(vm_compute; congruence) ltac:(lia) ltac:(lia)) as (H1 & H2).
  split.
  - destruct (H1 (state_of (seek 2039 Logical (new_file 100)) (new_file 100))
                 ltac:(vm_compute; reflexivity)) as [s' Hpos].
    eexists. exists s'. split; [vm_compute; reflexivity | exact Hpos].
  - destruct (H2 (state_of (seek 1022 Physical (new_file 100)) (new_file 100))
                 ltac:(vm_compute; reflexivity)) as [_ H3].
    destruct (H3 ltac:(vm_compute; congruence)) as [s' Hpos].
    eexists. exists s'. split; [vm_compute; reflexivity | exact Hpos].
Defined.

(** X3: [length (Physical)] of a writable file returns the size of the
    image on the system, whatever the object has cached, and leaves the
    cursor, the image and the object as they were. *)
Theorem length_physical_restores_cursor (s : State)
  (Hfd : 0 <= fd_ (this s)) (Hrw : readOnly_ (this s) = false)
  (Hoff : 0 <= offset (os s) < 2 ^ 63) (Hsize : len (disk (os s)) < 2 ^ 63) :
  exists s',
    length Physical s = Ok (len (disk (os s))) s' /\
    offset (os s') = offset (os s) /\ disk (os s') = disk (os s) /\ this s' = this s.
Proof.
  destruct s as [c [d o sc tr cb]]. cbn [this os disk offset] in *.
  rewrite length_physical_writable by assumption.
  eexists. split; [reflexivity |]. cbn. auto.
Qed.

Lemma length_physical_restores_cursor_witness :
  exists s',
    length Physical ten_byte_file = Ok 1024 s' /\
    offset (os s') = offset (os ten_byte_file).
Proof.
  pose proof (length_physical_restores_cursor ten_byte_file
                ltac:(vm_compute; congruence) ltac:(vm_compute; reflexivity)
                ltac:(vm_compute; split; congruence) ltac:(vm_compute; reflexivity))
    as (s' & Hlen & Hoff & _).
  exists s'. split; [exact Hlen | exact Hoff].
Defined.

(** X4: a seek behind the end of a caller's buffer raises ErrorSeekFailed
    and, unlike a failed seek on a descriptor, moves the cursor: it is at the
    end of the buffer afterwards. *)
Theorem seek_memory_failure_moves_cursor (s : State) (bv : BufferView) (p : Z)
  (Hmem : memory_backed (this s) = Some bv)
  (Hsize : 0 <= streamSize_ bv < 2 ^ 63)
  (Hp : streamSize_ bv < p < 2 ^ 63) :
  exists s', seek p Physical s = Throw ErrorSeekFailed s' /\
             position Physical s' = Ok (streamSize_ bv) s'.
Proof.
  unfold seek. rewrite to_int64_small by lia.
  unfold bind at 1. rewrite (lseek64_memory s bv p SEEK_SET Hmem).
  rewrite u64_small by lia.
  unfold BufferView.seek. cbn [fst snd].
  destruct (Z.gtb_spec p (streamSize_ bv)) as [_ | Hle]; [| lia].
  cbn [fst snd streamSize_ cursorStream_].
  eexists. split; [reflexivity |].
  unfold position. unfold bind at 1.
  rewrite (lseek64_memory _ (mkBufferView (streamSize_ bv) (streamSize_ bv)) 0 SEEK_CUR)
    by (eapply memory_backed_set_bufView; exact Hmem).
  unfold BufferView.seek. cbn [streamSize_ cursorStream_].
  change (u64 0) with 0. rewrite Z.add_0_r, u64_small by lia.
  destruct (Z.gtb_spec (streamSize_ bv) (streamSize_ bv)) as [Hgt | _]; [lia |].
  cbn [fst snd streamSize_ cursorStream_]. unfold ret.
  destruct s as [c w]. reflexivity.
Qed.

Lemma seek_memory_failure_moves_cursor_witness :
  exists s', seek 5000 Physical (memory_file (zeros 2048) 100) = Throw ErrorSeekFailed s' /\
             position Physical s' = Ok 2048 s'.
Proof.
  apply (seek_memory_failure_moves_cursor (memory_file (zeros 2048) 100)
           (mkBufferView 2048 0) 5000);
    vm_compute; first [reflexivity | split; congruence].
Defined.

(** ** The errors of [read], [write], [extend] and [close] *)

Lemma weaken_seek_io {A : Type} (m : M A) :
  throws_only seek_error m -> throws_only io_error m.
Proof. apply throws_only_weaken. unfold seek_error, io_error. auto. Qed.

Lemma throws_only_throw_io {A : Type} (e : ErrorCode) :
  io_error e -> throws_only io_error (@throw A e).
Proof. apply throws_only_throw. Qed.

Lemma readPhysicalPage_throws_io (pb : list byte) (page : Z) :
  throws_only io_error (readPhysicalPage pb page).
Proof.
  unfold readPhysicalPage.
  apply throws_only_bind; [apply weaken_seek_io; throws | intros _].
  apply throws_only_bind; [throws | intros mb]. destruct mb as [bv |].
  - intros s e s' H. destruct (BufferView.read _ _ _ _) as [[? ?] |]; discriminate.
  - apply throws_only_bind; [throws | intros fd].
    apply throws_only_bind; [throws | intros [result data]].
    apply throws_only_if; [| throws].
    apply throws_only_throw. unfold io_error. auto.
Qed.

Lemma writePhysicalPage_throws_io (host : Endianness) (pb : list byte) (page : Z) :
  throws_only io_error (writePhysicalPage host pb page).
Proof.
  unfold writePhysicalPage. cbv zeta.
  apply throws_only_bind; [apply weaken_seek_io; throws | intros _].
  apply throws_only_bind; [throws | intros fd].
  apply throws_only_bind; [throws | intros result].
  apply throws_only_if; [| throws].
  apply throws_only_throw. unfold io_error. auto.
Qed.

Lemma write_loop_throws (host : Endianness) (fuel : nat) :
  forall (buf : list byte) (nWrite page pageOffset n : Z) (pb : list byte),
    throws_only io_error (write_loop host fuel buf nWrite page pageOffset n pb).
Proof.
  induction fuel as [| fuel IH]; intros buf nWrite page pageOffset n pb;
    cbn [write_loop]; (apply throws_only_if; [| throws]); [throws |].
  apply throws_only_bind; [apply weaken_seek_io; throws | intros pl].
  apply throws_only_bind;
    [apply throws_only_if; [apply readPhysicalPage_throws_io | throws] | intros pb'].
  apply throws_only_if; [throws |]. cbv zeta.
  apply throws_only_bind; [apply writePhysicalPage_throws_io | intros pb''].
  apply IH.
Qed.

Lemma extend_loop_throws (host : Endianness) (fuel : nat) :
  forall (nWrite page pageOffset n : Z) (pb : list byte),
    throws_only io_error (extend_loop host fuel nWrite page pageOffset n pb).
Proof.
  induction fuel as [| fuel IH]; intros nWrite page pageOffset n pb;
    cbn [extend_loop]; (apply throws_only_if; [| throws]); [throws |].
  apply throws_only_bind; [apply weaken_seek_io; throws | intros pl].
  apply throws_only_bind;
    [apply throws_only_if; [apply readPhysicalPage_throws_io | throws] | intros pb'].
  cbv zeta.
  apply throws_only_bind; [apply writePhysicalPage_throws_io | intros pb''].
  apply IH.
Qed.

Lemma weaken_io_write {A : Type} (m : M A) :
  throws_only io_error m -> throws_only write_error m.
Proof. apply throws_only_weaken. unfold write_error. auto. Qed.

Lemma weaken_io_extend {A : Type} (m : M A) :
  throws_only io_error m -> throws_only extend_error m.
Proof. apply throws_only_weaken. unfold extend_error, write_error. auto. Qed.

Ltac raised_in s :=
  exists s; eexists; vm_compute; reflexivity.

(** X5: whatever the state and the system, [read] raises no other error
    than ErrorInternal, ErrorSeekFailed, ErrorReadFailed and
    ErrorBadChecksum, and there is a state for each of the four in which
    it is raised. *)
Theorem read_raises_only :
  (forall host n, throws_only read_error (read host n)) /\
  (forall e, read_error e -> exists n s s', read LittleEndian n s = Throw e s').
Proof.
  split.
  - intros host n.
    assert (Hseek : forall A (m : M A), throws_only seek_error m -> throws_only read_error m).
    { intros A m. apply throws_only_weaken. unfold seek_error, read_error, page_error. auto. }
    unfold read.
    apply throws_only_bind; [apply Hseek; throws | intros pos]. cbv zeta.
    apply throws_only_bind; [apply Hseek; throws | intros ll].
    apply throws_only_if; [apply throws_only_throw; unfold read_error; auto |].
    apply throws_only_bind; [apply Hseek; throws | intros [page pageOffset]].
    apply throws_only_bind; [throws | intros policy].
    apply throws_only_bind; [| intros buf].
    + eapply throws_only_weaken; [| apply read_loop_throws]. unfold read_error. auto.
    + apply throws_only_bind; [apply Hseek; throws | intros _; throws].
  - intros e [-> | [-> | [-> | ->]]].
    + exists 1. raised_in hundred_byte_file.
    + exists 1. raised_in closed_file.
    + exists 10. raised_in truncated_file.
    + exists 100. raised_in (corrupted_file 100).
Qed.

Lemma write_throws (host : Endianness) (buf : list byte) (n : Z) :
  throws_only write_error (write host buf n).
Proof.
  unfold write.
  apply throws_only_bind; [throws | intros ro].
  apply throws_only_if; [apply throws_only_throw; unfold write_error; auto |].
  apply throws_only_bind; [apply weaken_io_write, weaken_seek_io; throws | intros pos].
  cbv zeta.
  apply throws_only_bind;
    [apply weaken_io_write, weaken_seek_io; throws | intros [page pageOffset]].
  apply throws_only_bind; [apply weaken_io_write, write_loop_throws | intros _].
  apply throws_only_bind; [throws | intros ll].
  apply throws_only_bind; [apply throws_only_if; throws | intros _].
  apply weaken_io_write, weaken_seek_io. throws.
Qed.

Lemma extend_throws (host : Endianness) (newLength : Z) (omode : OffsetMode) :
  throws_only extend_error (extend host newLength omode).
Proof.
  unfold extend.
  apply throws_only_bind; [throws | intros ro].
  apply throws_only_if;
    [apply throws_only_throw; unfold extend_error, write_error; auto |].
  cbv zeta.
  apply throws_only_bind; [apply weaken_io_extend, weaken_seek_io; throws | intros cur].
  apply throws_only_if; [apply throws_only_throw; unfold extend_error; auto |].
  apply throws_only_bind; [apply weaken_io_extend, weaken_seek_io; throws | intros _].
  apply throws_only_bind;
    [apply weaken_io_extend, weaken_seek_io; throws | intros [page pageOffset]].
  apply throws_only_bind; [apply weaken_io_extend, extend_loop_throws | intros _].
  apply throws_only_bind; [throws | intros _].
  apply weaken_io_extend, weaken_seek_io. throws.
Qed.

(** X6: [write] and [operator<<] raise no other error than
    ErrorFileReadOnly, ErrorSeekFailed, ErrorReadFailed and ErrorWriteFailed,
    and [extend] only these and ErrorInternal; each of them is raised in
    some state.  The page they read back before they change it is never
    verified, so none of them raises ErrorBadChecksum. *)
Theorem write_raises_only :
  (forall host buf n, throws_only write_error (write host buf n)) /\
  (forall host str, throws_only write_error (operator_shl host str)) /\
  (forall host newLength omode, throws_only extend_error (extend host newLength omode)) /\
  (forall e, write_error e -> exists s s', write LittleEndian [x00] 1 s = Throw e s') /\
  (forall e, extend_error e -> exists N s s', extend LittleEndian N Logical s = Throw e s') /\
  ~ write_error ErrorBadChecksum /\ ~ extend_error ErrorBadChecksum.
Proof.
  split; [exact write_throws |].
  split; [intros host str; unfold operator_shl; apply write_throws |].
  split; [exact extend_throws |].
  split; [| split].
  - intros e [-> | [-> | [-> | ->]]].
    + raised_in truncated_file.
    + raised_in closed_file.
    + raised_in cut_file.
    + raised_in refused_file.
  - intros e [-> | [-> | [-> | [-> | ->]]]].
    + exists 5. raised_in ten_byte_file.
    + exists 20. raised_in truncated_file.
    + exists 20. raised_in closed_file.
    + exists 20. raised_in cut_file.
    + exists 20. raised_in refused_file.
  - unfold extend_error, write_error, io_error. split; intros H; intuition discriminate.
Qed.

(** X7: [close] raises no other error than ErrorCloseFailed, and when it
    does the object is as it was: it keeps the descriptor and the
    BufferView, so a later [close] tries again. *)
Theorem close_failure_keeps_descriptor (s s' : State) (e : ErrorCode)
  (Hclose : close s = Throw e s') :
  e = ErrorCloseFailed /\ this s' = this s /\ 0 <= fd_ (this s').
Proof.
  destruct s as [[fn ll pl pol fd bv ro] w]. revert Hclose.
  unfold close, bind, gets, syscall, modify, ret, throw, set_fd, set_bufView, set_os.
  proj_norm.
  destruct (Z.leb_spec 0 fd) as [Hopen | Hnone].
  - destruct (os_close fd w) as [r w1].
    destruct (r <? 0).
    + intros H. injection H as <- <-. cbn. auto.
    + proj_norm. destruct bv; discriminate.
  - destruct bv; discriminate.
Qed.

Lemma close_failure_keeps_descriptor_witness :
  let s := mkState (mkCheckedFile "scan.e57" 0 0 100 the_fd None false)
                   (mkWorld [] 0 [-1] [] None) in
  fd_ (this (state_of (close s) s)) = the_fd /\
  exists s', close (state_of (close s) s) = Ok tt s'.
Proof.
  intros s.
  pose proof (close_failure_keeps_descriptor s (state_of (close s) s) ErrorCloseFailed
                ltac:(vm_compute; reflexivity)) as (_ & Hthis & _).
  split; [rewrite Hthis; reflexivity | eexists; vm_compute; reflexivity].
Defined.

(** ** The object after [close] *)

Lemma lseek64_closed (s : State) (off : Z) (whence : Whence) :
  closed s ->
  lseek64 off whence s
  = Throw ErrorSeekFailed (set_os (log (SysLseek off whence) (os s)) s).
Proof.
  intros [Hfd Hbv]. destruct s as [c w]. cbn [this] in *.
  unfold lseek64. unfold bind at 1, gets at 1. cbn [this].
  unfold memory_backed. rewrite Hbv. rewrite ltb_true by lia.
  unfold bind at 1, gets at 1. cbn [this].
  unfold bind, syscall, os_lseek. cbn [os]. rewrite ltb_true by lia.
  reflexivity.
Qed.

Lemma close_ok_closed (s s' : State) :
  close s = Ok tt s' ->
  closed s' /\ logicalLength_ (this s') = logicalLength_ (this s) /\
  readOnly_ (this s') = readOnly_ (this s) /\ disk (os s') = disk (os s).
Proof.
  destruct s as [[fn ll pl pol fd bv ro] w].
  assert (Hdisk : disk (snd (os_close fd w)) = disk w).
  { unfold os_close. cbv zeta. destruct (fd <? 0); [reflexivity |].
    cbn [log script]. destruct (script w); reflexivity. }
  unfold close, closed, bind, gets, syscall, modify, ret, throw, set_fd, set_bufView, set_os.
  proj_norm.
  destruct (Z.leb_spec 0 fd) as [Hopen | Hnone].
  - destruct (os_close fd w) as [r w1]. cbn [snd] in Hdisk.
    destruct (r <? 0); [discriminate |]. proj_norm.
    destruct bv; intros H; injection H as <-; cbn; repeat split; try lia; auto.
  - destruct bv; intros H; injection H as <-; cbn; repeat split; try lia; auto.
Qed.

(** X8: after [close] the object stays usable only for [length (Logical)]:
    [seek], [position] and [read] raise ErrorSeekFailed, [write] raises
    ErrorFileReadOnly or ErrorSeekFailed, and none of them touches the
    image. *)
Theorem use_after_close (host : Endianness) (s s' : State)
  (Hclose : close s = Ok tt s') :
  (forall off omode, exists s'', seek off omode s' = Throw ErrorSeekFailed s'' /\
                                 disk (os s'') = disk (os s')) /\
  (forall omode, exists s'', position omode s' = Throw ErrorSeekFailed s'') /\
  (forall n, exists s'', read host n s' = Throw ErrorSeekFailed s'' /\
                         disk (os s'') = disk (os s')) /\
  (forall buf n, exists e s'', write host buf n s' = Throw e s'' /\
                               (e = ErrorFileReadOnly \/ e = ErrorSeekFailed) /\
                               disk (os s'') = disk (os s')) /\
  length Logical s' = Ok (logicalLength_ (this s)) s'.
Proof.
  destruct (close_ok_closed s s' Hclose) as (Hclosed & Hll & _ & _).
  split; [| split; [| split; [| split]]].
  - intros off omode. eexists. split.
    + unfold seek. apply bind_throw. apply lseek64_closed. exact Hclosed.
    + reflexivity.
  - intros omode. eexists. unfold position. apply bind_throw.
    apply lseek64_closed. exact Hclosed.
  - intros n. eexists. split.
    + unfold read. apply bind_throw. unfold position. apply bind_throw.
      apply lseek64_closed. exact Hclosed.
    + reflexivity.
  - intros buf n. unfold write. unfold bind at 1, gets at 1.
    destruct (readOnly_ (this s')).
    + exists ErrorFileReadOnly, s'. unfold throw. auto.
    + exists ErrorSeekFailed. eexists. split.
      * apply bind_throw. unfold position. apply bind_throw.
        apply lseek64_closed. exact Hclosed.
      * split; [auto | reflexivity].
  - unfold length, gets. rewrite Hll. reflexivity.
Qed.

Lemma use_after_close_witness :
  exists s'', read LittleEndian 1 (state_of (close ten_byte_file) ten_byte_file)
              = Throw ErrorSeekFailed s''.
Proof.
  pose proof (use_after_close LittleEndian ten_byte_file
                (state_of (close ten_byte_file) ten_byte_file)
                ltac:(vm_compute; reflexivity)) as (_ & _ & Hread & _).
  destruct (Hread 1) as (s'' & H & _). exists s''. exact H.
Defined.

(** ** Read-only objects *)

Lemma lseek64_readOnly (off : Z) (whence : Whence) (s s' : State) (r : Z) :
  lseek64 off whence s = Ok r s' -> readOnly_ (this s') = readOnly_ (this s).
Proof.
  destruct s as [c w]. unfold lseek64. unfold bind at 1, gets at 1. cbn [this].
  destruct (memory_backed c) as [bv |].
  - destruct (BufferView.seek bv (u64 off) whence) as [ok bv'].
    unfold bind, modify, set_bufView. cbn [this os].
    destruct ok; unfold ret, throw; intros H; [| discriminate].
    injection H as _ <-. reflexivity.
  - unfold bind at 1, gets at 1. cbn [this].
    unfold bind, syscall. cbn [os].
    destruct (os_lseek (fd_ c) off whence w) as [r' w'].
    destruct (r' <? 0); unfold ret, throw; intros H; [discriminate |].
    injection H as _ <-. reflexivity.
Qed.

Lemma constructed_readOnly_tail (s s' : State) :
  readOnly_ (this s) = true ->
  (physicalLength <- lseek64 0 SEEK_END ;;
   modify (set_physicalLength physicalLength) ;;;
   lseek64 0 SEEK_SET ;;;
   modify (set_logicalLength (physicalToLogical physicalLength))) s = Ok tt s' ->
  readOnly_ (this s') = true.
Proof.
  intros Hro. unfold bind at 1.
  destruct (lseek64 0 SEEK_END s) as [r s1 | | |] eqn:E1; try discriminate.
  apply lseek64_readOnly in E1.
  unfold bind at 1, modify at 1. unfold bind at 1.
  destruct (lseek64 0 SEEK_SET (set_physicalLength r s1)) as [r2 s2 | | |] eqn:E2;
    try discriminate.
  apply lseek64_readOnly in E2. unfold modify.
  intros H. injection H as <-. cbn [set_logicalLength this readOnly_].
  rewrite E2. cbn [set_physicalLength this readOnly_]. congruence.
Qed.

Lemma CheckedFile_file_Read_readOnly (fileName : string) (policy : Z) (w : World) (s : State) :
  CheckedFile_file fileName Read policy w = Ok tt s -> readOnly_ (this s) = true.
Proof.
  unfold CheckedFile_file. unfold bind at 1, open64 at 1.
  unfold bind at 1, syscall at 1. cbn [os].
  destruct (os_open false w) as [fd w1].
  destruct (fd <? 0); [unfold throw; discriminate |].
  unfold ret at 1. unfold bind at 1, modify at 1. unfold bind at 1, modify at 1.
  apply constructed_readOnly_tail. reflexivity.
Qed.

Lemma CheckedFile_memory_readOnly (size policy : Z) (w : World) (s : State) :
  CheckedFile_memory size policy w = Ok tt s -> readOnly_ (this s) = true.
Proof.
  unfold CheckedFile_memory. unfold bind at 1, modify at 1. unfold bind at 1, modify at 1.
  apply constructed_readOnly_tail. reflexivity.
Qed.

(** X9: an object built for reading, over a file or over a caller's
    buffer, rejects [write], [operator<<] and [extend] with
    ErrorFileReadOnly before anything else happens: the state is
    untouched. *)
Theorem read_only_rejects_writes
  (host : Endianness) (fileName : string) (size policy : Z) (w : World) (s : State)
  (Hopen : CheckedFile_file fileName Read policy w = Ok tt s \/
           CheckedFile_memory size policy w = Ok tt s) :
  (forall buf n, write host buf n s = Throw ErrorFileReadOnly s) /\
  (forall str, operator_shl host str s = Throw ErrorFileReadOnly s) /\
  (forall newLength omode, extend host newLength omode s = Throw ErrorFileReadOnly s).
Proof.
  assert (Hro : readOnly_ (this s) = true).
  { destruct Hopen as [H | H].
    - eapply CheckedFile_file_Read_readOnly. exact H.
    - eapply CheckedFile_memory_readOnly. exact H. }
  repeat split; intros; unfold operator_shl, write, extend;
    unfold bind at 1, gets at 1; rewrite Hro; reflexivity.
Qed.

Lemma read_only_rejects_writes_witness :
  write LittleEndian [x00] 1 (memory_file (zeros 2048) 100)
  = Throw ErrorFileReadOnly (memory_file (zeros 2048) 100).
Proof.
  pose proof (read_only_rejects_writes LittleEndian "scan.e57" 2048 100
                (mkWorld [] 0 [] [] (Some (zeros 2048))) (memory_file (zeros 2048) 100)
                ltac:(right; vm_compute; reflexivity)) as (Hwrite & _).
  apply Hwrite.
Defined.

(** ** Files in good order *)

Lemma consistent_intro (host : Endianness) (c : CheckedFile) d o tr cb :
  0 <= fd_ c -> len d mod 1024 = 0 -> len d < 2 ^ 62 -> 0 <= o < 2 ^ 63 ->
  0 <= logicalLength_ c <= len d / 1024 * 1020 -> all_sealed host d ->
  valid_policy (checkSumPolicy_ c) ->
  consistent host (mkState c (mkWorld d o [] tr cb)).
Proof. intros. constructor; cbn; auto. Qed.

Lemma all_sealed_nil (host : Endianness) : all_sealed host [].
Proof. intros j Hj Hlen. change (len (@nil byte)) with 0 in Hlen. lia. Qed.

Lemma logical_ext (d d' : list byte) (L n : Z) :
  (forall l, L <= l < L + n -> byte_at d' (l2p l) = byte_at d (l2p l)) ->
  logical d' L n = logical d L n.
Proof.
  intros H. unfold logical. apply map_ext_in. intros i Hi.
  apply in_seq in Hi. apply H. lia.
Qed.

Lemma l2p_below (l D : Z) :
  0 <= l -> D mod 1024 = 0 -> l < D / 1024 * 1020 -> l2p l < D.
Proof. intros Hl HD Hlt. unfold l2p. divmod. Qed.

Lemma seek_consistent (host : Endianness) (s : State) (a : Z) :
  consistent host s -> 0 <= a < 2 ^ 62 ->
  exists s1, seek a Logical s = Ok tt s1 /\ consistent host s1 /\
             this s1 = this s /\ disk (os s1) = disk (os s) /\
             offset (os s1) = l2p a.
Proof.
  intros [Hfd Hsc Hpages Hsize Hoff Hcover Hsealed Hpol] Ha.
  destruct s as [c [d o sc tr cb]]. cbn [this os disk offset script] in *. subst sc.
  pose proof (l2p_small a Ha) as Hl.
  rewrite seek_logical by (try exact Hfd; lia).
  eexists. split; [reflexivity |]. split; [| cbn; auto].
  apply consistent_intro; auto.
Qed.

(** What the loop of [write] makes of an image of whole sealed pages, when
    it starts on a page of the image or on the one behind its end. *)
Lemma written_good (host : Endianness) (d d' buf pb : list byte) (L n : Z) :
  0 <= L -> 0 < n -> n = len buf -> L + n < 2 ^ 61 ->
  len d mod 1024 = 0 -> len d < 2 ^ 62 -> L / 1020 * 1024 <= len d ->
  all_sealed host d ->
  written host d d' buf pb (L / 1020) (L mod 1020) n ->
  len d' = Z.max (len d) ((L + n + 1019) / 1020 * 1024) /\
  len d' mod 1024 = 0 /\ len d' < 2 ^ 62 /\
  len d / 1024 <= len d' / 1024 /\ L + n <= len d' / 1024 * 1020 /\
  all_sealed host d' /\
  logical d' L n = buf /\
  (forall l, 0 <= l -> l2p l < len d -> l < L \/ L + n <= l ->
             byte_at d' (l2p l) = byte_at d (l2p l)).
Proof.
  intros HL Hn Hbuf Hend Hpages Hsize Hhole Hsealed Hw.
  assert (Hsplit : 0 <= L / 1020 /\ 0 <= L mod 1020 < 1020 /\
                   L / 1020 * 1020 + L mod 1020 = L) by (clear - HL; divmod).
  destruct Hsplit as (Hpage & Hpo & Hsplit).
  pose proof (written_length host d d' buf pb L n ltac:(lia) ltac:(lia) Hw) as Hlen.
  rewrite ltb_true in Hlen by lia.
  pose proof (written_logical host d d' buf pb L n ltac:(lia) Hbuf Hw) as Hlog.
  pose proof Hw as (_ & _ & _ & Hframe & Hdata & _). cbv zeta in Hframe, Hdata.
  rewrite Hsplit in Hframe, Hdata.
  assert (Hmult : len d' mod 1024 = 0).
  { rewrite Hlen. clear - Hpages. apply Z.max_case_strong; intros _; [exact Hpages |].
    apply Z.mod_mul. lia. }
  assert (Hceil : L + n <= (L + n + 1019) / 1020 * 1024 / 1024 * 1020).
  { rewrite Z.div_mul by lia. clear. divmod. }
  assert (Hdiv : len d / 1024 <= len d' / 1024).
  { apply Z.div_le_mono; lia. }
  split; [exact Hlen |]. split; [exact Hmult |]. split; [| split; [exact Hdiv |]].
  { rewrite Hlen. apply Z.max_lub_lt; [lia |]. clear - Hend HL Hn. divmod. }
  split; [| split; [| split; [exact Hlog |]]].
  - etransitivity; [exact Hceil |]. apply Z.mul_le_mono_nonneg_r; [lia |].
    apply Z.div_le_mono; lia.
  - intros j Hj Hjlen.
    destruct (Z_lt_le_dec j (L / 1020)) as [Hbefore | Hfrom].
    { assert (Hjd : (j + 1) * 1024 <= len d) by lia.
      rewrite (page_at_ext d d' j) by (try lia; intros i Hi; apply Hframe; lia).
      apply Hsealed; lia. }
    destruct (Z_lt_le_dec (j * 1020) (L + n)) as [Hin | Hafter].
    { apply (written_pages_ok host d d' buf pb L n j); try assumption; lia. }
    assert (Hjd : (j + 1) * 1024 <= len d).
    { rewrite Hlen in Hjlen. revert Hjlen. apply Z.max_case_strong; intros _ Hjlen;
        [exact Hjlen |]. exfalso. clear - Hafter Hjlen Hj. divmod. }
    rewrite (page_at_ext d d' j) by (try lia; intros i Hi; apply Hframe; lia).
    apply Hsealed; lia.
  - intros l Hl Hlt Hout.
    unfold l2p in *. apply Hdata; try assumption; clear - Hl Hout; divmod.
Qed.

(** What [write] makes of a file in good order, on its image. *)
Lemma write_consistent (host : Endianness) (s : State) (buf : list byte) :
  consistent host s -> readOnly_ (this s) = false ->
  0 < len buf ->
  p2l (offset (os s)) + len buf < 2 ^ 61 ->
  p2l (offset (os s)) / 1020 * 1024 <= len (disk (os s)) ->
  let L := p2l (offset (os s)) in
  exists s',
    write host buf (len buf) s = Ok tt s' /\
    consistent host s' /\ readOnly_ (this s') = false /\
    logicalLength_ (this s') = Z.max (logicalLength_ (this s)) (L + len buf) /\
    offset (os s') = l2p (L + len buf) /\
    len (disk (os s')) = Z.max (len (disk (os s))) ((L + len buf + 1019) / 1020 * 1024) /\
    logical (disk (os s')) L (len buf) = buf /\
    (forall l, 0 <= l < logicalLength_ (this s) -> l < L \/ L + len buf <= l ->
               byte_at (disk (os s')) (l2p l) = byte_at (disk (os s)) (l2p l)).
Proof.
  intros [Hfd Hsc Hpages Hsize Hoff Hcover Hsealed Hpol] Hrw Hbuf Hend Hhole.
  destruct s as [c [d o sc tr cb]]. cbn [this os disk offset script] in *. subst sc.
  cbv zeta.
  pose proof (p2l_le o ltac:(lia)) as Hpos.
  set (L := p2l o) in *. set (n := len buf) in *.
  destruct (write_spec host c Hfd Hrw buf n d o tr cb) as (d' & tr' & Hrun & Hw);
    try reflexivity; try assumption; try lia.
  fold L in Hrun, Hw.
  destruct (written_good host d d' buf (zeros 1024) L n) as
    (Hlen & Hmult & Hmax & Hdiv & Hend' & Hsealed' & Hlog & Hframe);
    try assumption; try reflexivity; try lia.
  exists (mkState (with_logicalLength (Z.max (logicalLength_ c) (L + n)) c)
                  (mkWorld d' (l2p (L + n)) [] tr' cb)).
  split; [exact Hrun |]. cbn [this os disk offset with_logicalLength logicalLength_ readOnly_].
  split; [| repeat split; auto].
  - apply consistent_intro; cbn [with_logicalLength fd_ logicalLength_ checkSumPolicy_]; auto.
    + apply l2p_small. lia.
    + split; [lia |]. apply Z.max_lub; [nia | exact Hend'].
  - intros l Hl Hout. apply Hframe; try lia. apply l2p_below; lia.
Qed.

(** [extend] to the length the file has: nothing but seeks. *)
Lemma extend_same_length (host : Endianness) (c : CheckedFile) d o sc tr cb :
  0 <= fd_ c -> readOnly_ c = false -> 0 <= o < 2 ^ 63 -> 0 <= logicalLength_ c < 2 ^ 62 ->
  exists tr',
    extend host (logicalLength_ c) Logical (mkState c (mkWorld d o sc tr cb))
    = Ok tt (mkState c (mkWorld d (l2p (logicalLength_ c)) sc tr' cb)).
Proof.
  intros Hfd Hrw Ho HC.
  set (C := logicalLength_ c) in *.
  pose proof (l2p_small C ltac:(lia)) as HlC.
  unfold extend.
  unfold bind at 1, gets at 1. cbn [this]. rewrite Hrw.
  unfold length. unfold bind at 1, gets at 1. cbn [this]. fold C.
  rewrite ltb_false by lia.
  rewrite Z.sub_diag. change (u64 0) with 0.
  erewrite bind_ok by (apply seek_logical; [exact Hfd | lia | lia]).
  erewrite bind_ok by (apply getCurrentPageAndOffset_logical; [exact Hfd | lia]).
  change (Z.to_nat 0) with 0%nat. unfold bind at 1. cbn [extend_loop Z.ltb Z.compare].
  unfold ret at 1. unfold bind at 1, modify at 1.
  change (set_logicalLength ?v (mkState c ?w)) with (mkState (with_logicalLength v c) w).
  subst C. rewrite with_logicalLength_same.
  rewrite seek_logical by (try exact Hfd; lia).
  eexists. reflexivity.
Qed.

Lemma extend_consistent (host : Endianness) (s : State) (N : Z) :
  consistent host s -> readOnly_ (this s) = false ->
  logicalLength_ (this s) <= N < 2 ^ 61 ->
  exists s',
    extend host N Logical s = Ok tt s' /\
    consistent host s' /\ readOnly_ (this s') = false /\
    logicalLength_ (this s') = N /\
    offset (os s') = l2p N /\
    len (disk (os s')) = Z.max (len (disk (os s))) ((N + 1019) / 1020 * 1024) /\
    (forall l, 0 <= l < logicalLength_ (this s) ->
               byte_at (disk (os s')) (l2p l) = byte_at (disk (os s)) (l2p l)).
Proof.
  intros [Hfd Hsc Hpages Hsize Hoff Hcover Hsealed Hpol] Hrw HN.
  destruct s as [c [d o sc tr cb]]. cbn [this os disk offset script] in *. subst sc.
  set (C := logicalLength_ c) in *.
  assert (Hnohole : C / 1020 * 1024 <= len d) by (clear - Hcover Hpages; divmod).
  destruct (Z.eq_dec N C) as [-> | Hne].
  - destruct (extend_same_length host c d o [] tr cb) as [tr' Hrun]; try assumption; try lia.
    fold C in Hrun. eexists. split; [exact Hrun |].
    cbn [this os disk offset]. fold C.
    split; [apply consistent_intro; auto; apply l2p_small; lia |].
    repeat split; auto.
    rewrite Z.max_l; [reflexivity |]. clear - Hcover Hpages. divmod.
  - destruct (extend_spec host c Hfd Hrw N d o tr cb) as (d' & tr' & Hrun & Hw);
      try assumption; try lia.
    fold C in Hw.
    destruct (written_good host d d' (zeros (N - C)) (zeros 1024) C (N - C)) as
      (Hlen & Hmult & Hmax & Hdiv & Hend' & Hsealed' & Hlog & Hframe);
      try assumption; try lia.
    { rewrite len_zeros. lia. }
    replace (C + (N - C)) with N in * by lia.
    eexists. split; [exact Hrun |].
    cbn [this os disk offset with_logicalLength logicalLength_ readOnly_].
    split; [| repeat split; auto].
    + apply consistent_intro; cbn [with_logicalLength fd_ logicalLength_ checkSumPolicy_]; auto.
      * apply l2p_small. lia.
      * lia.
    + intros l Hl. apply Hframe; try lia. apply l2p_below; lia.
Qed.

Lemma read_consistent (host : Endianness) (s : State) (n : Z) :
  consistent host s -> 0 <= n ->
  p2l (offset (os s)) + n <= logicalLength_ (this s) ->
  exists s',
    read host n s = Ok (logical (disk (os s)) (p2l (offset (os s))) n) s' /\
    consistent host s' /\ this s' = this s /\ disk (os s') = disk (os s) /\
    offset (os s') = l2p (p2l (offset (os s)) + n).
Proof.
  intros [Hfd Hsc Hpages Hsize Hoff Hcover Hsealed Hpol] Hn Hend.
  destruct s as [c [d o sc tr cb]]. cbn [this os disk offset script] in *. subst sc.
  pose proof (p2l_le o ltac:(lia)) as Hpos.
  set (L := p2l o) in *.
  assert (Hmax : L + n < 2 ^ 62) by (clear - Hend Hcover Hsize; divmod).
  destruct (read_spec host c Hfd n d o [] tr cb) as (tr' & Hrun);
    try assumption; try lia.
  - intros _. fold L. clear - Hend Hcover Hpages. divmod.
  - intros j _ Hj HjE _. fold L in Hj, HjE. apply Hsealed.
    + clear - Hj Hpos. divmod.
    + clear - HjE Hend Hcover Hpages. divmod.
  - fold L in Hrun. eexists. split; [exact Hrun |].
    cbn [this os disk offset]. split; [| auto].
    apply consistent_intro; auto. apply l2p_small. lia.
Qed.

(** A [write] of no bytes, on the state as it is. *)
Lemma write_nothing (host : Endianness) (c : CheckedFile) (buf : list byte) d o sc tr cb :
  0 <= fd_ c -> readOnly_ c = false -> 0 <= o < 2 ^ 62 ->
  exists tr',
    write host buf 0 (mkState c (mkWorld d o sc tr cb))
    = Ok tt (mkState (with_logicalLength (Z.max (logicalLength_ c) (p2l o)) c)
                     (mkWorld d (l2p (p2l o)) sc tr' cb)).
Proof.
  intros Hfd Hrw Hoff.
  destruct (p2l_split o ltac:(lia)) as (Hpage & Hpo & Hsplit).
  pose proof (p2l_le o ltac:(lia)) as Hpos.
  unfold write.
  unfold bind at 1, gets at 1. cbn [this]. rewrite Hrw.
  erewrite bind_ok by (apply position_logical; [exact Hfd | lia]).
  erewrite bind_ok by (apply getCurrentPageAndOffset_logical; [exact Hfd | lia]).
  rewrite Z.add_0_r. rewrite (u64_small (p2l o)) by lia.
  change (Z.to_nat 0) with 0%nat. unfold bind at 1. cbn [write_loop Z.ltb Z.compare].
  unfold ret at 1.
  unfold bind at 1, gets at 1. cbn [this].
  pose proof (l2p_small (p2l o) ltac:(lia)) as Hl2p.
  destruct (Z.ltb_spec (logicalLength_ c) (p2l o)) as [Hgrow | Hkeep].
  - unfold bind at 1, modify at 1.
    change (set_logicalLength ?v (mkState c ?w)) with (mkState (with_logicalLength v c) w).
    rewrite seek_logical by (cbn [with_logicalLength fd_]; lia).
    rewrite Z.max_r by lia. eexists. reflexivity.
  - unfold bind at 1, ret at 1.
    rewrite seek_logical by lia.
    rewrite Z.max_l by lia. rewrite with_logicalLength_same. eexists. reflexivity.
Qed.

Lemma len_0_nil {A : Type} (l : list A) : len l = 0 -> l = [].
Proof. destruct l; [reflexivity |]. unfold len. cbn [List.length]. lia. Qed.

(** [write] at a cursor inside the file or at its end. *)
Lemma write_inside_consistent (host : Endianness) (s : State) (buf : list byte) :
  consistent host s -> readOnly_ (this s) = false ->
  p2l (offset (os s)) <= logicalLength_ (this s) ->
  p2l (offset (os s)) + len buf < 2 ^ 61 ->
  let L := p2l (offset (os s)) in
  exists s',
    write host buf (len buf) s = Ok tt s' /\
    consistent host s' /\ readOnly_ (this s') = false /\
    logicalLength_ (this s') = Z.max (logicalLength_ (this s)) (L + len buf) /\
    offset (os s') = l2p (L + len buf) /\
    len (disk (os s')) = Z.max (len (disk (os s))) ((L + len buf + 1019) / 1020 * 1024) /\
    logical (disk (os s')) L (len buf) = buf /\
    (forall l, 0 <= l < logicalLength_ (this s) -> l < L \/ L + len buf <= l ->
               byte_at (disk (os s')) (l2p l) = byte_at (disk (os s)) (l2p l)).
Proof.
  intros Hcons Hrw Hin Hend. cbv zeta.
  pose proof (len_nonneg buf) as Hlen0.
  destruct (Z.eq_dec (len buf) 0) as [Hz | Hnz].
  - destruct Hcons as [Hfd Hsc Hpages Hsize Hoff Hcover Hsealed Hpol].
    destruct s as [c [d o sc tr cb]]. cbn [this os disk offset script] in *. subst sc.
    pose proof (p2l_le o ltac:(lia)) as Hpos.
    assert (Ho : o < 2 ^ 62).
    { destruct (Z_lt_le_dec o (2 ^ 62)) as [H | H]; [exact H | exfalso].
      revert Hend. unfold p2l. clear - H Hoff Hlen0. divmod. }
    rewrite Hz. rewrite Z.add_0_r.
    destruct (write_nothing host c buf d o [] tr cb) as [tr' Hrun]; try assumption; try lia.
    rewrite Z.max_l in Hrun by lia. rewrite with_logicalLength_same in Hrun.
    eexists. split; [exact Hrun |]. cbn [this os disk offset].
    split; [apply consistent_intro; auto; apply l2p_small; lia |].
    repeat split; auto.
    + lia.
    + rewrite Z.max_l; [reflexivity |]. clear - Hin Hcover Hpages. divmod.
    + rewrite (len_0_nil buf Hz). apply logical_nothing.
  - apply write_consistent; try assumption; try lia.
    destruct Hcons as [Hfd Hsc Hpages Hsize Hoff Hcover Hsealed Hpol].
    revert Hin Hcover Hpages. generalize (p2l (offset (os s))) (len (disk (os s))).
    intros L D. clear. intros. divmod.
Qed.

Lemma position_consistent (host : Endianness) (s : State) :
  consistent host s ->
  exists s', position Logical s = Ok (p2l (offset (os s))) s'.
Proof.
  intros [Hfd _ _ _ Hoff _ _ _].
  destruct s as [c [d o sc tr cb]]. cbn [this os offset] in *.
  rewrite position_logical by assumption. eexists. reflexivity.
Qed.

Lemma ten_byte_file_consistent : consistent LittleEndian ten_byte_file.
Proof.
  constructor.
  - vm_compute. congruence.
  - vm_compute. reflexivity.
  - vm_compute. reflexivity.
  - vm_compute. reflexivity.
  - vm_compute. split; congruence.
  - vm_compute. split; congruence.
  - intros j Hj Hlen.
    replace (len (disk (os ten_byte_file))) with 1024 in Hlen by (vm_compute; reflexivity).
    assert (Hz : j = 0) by lia. subst j. vm_compute. reflexivity.
  - vm_compute. split; congruence.
Qed.

(** X10: [write] keeps a file in good order.  On a writable file of whole
    sealed pages that cover the logical length, a write of at least one byte
    that starts on a page of the image or on the page behind its end returns
    normally and leaves such a file again: the logical length is the larger
    of the old one and the end of the write, the image has grown to the page
    that holds the last byte, and the cursor is behind the bytes written. *)
Theorem write_keeps_consistent (host : Endianness) (s : State) (buf : list byte)
  (Hcons : consistent host s) (Hrw : readOnly_ (this s) = false)
  (Hbuf : 0 < len buf)
  (Hend : physicalToLogical (offset (os s)) + len buf < 2 ^ 61)
  (Hhole : physicalToLogical (offset (os s)) / logicalPageSize * physicalPageSize
           <= len (disk (os s))) :
  let L := physicalToLogical (offset (os s)) in
  exists s',
    write host buf (len buf) s = Ok tt s' /\
    consistent host s' /\
    length Logical s' = Ok (Z.max (logicalLength_ (this s)) (L + len buf)) s' /\
    (exists s'', position Logical s' = Ok (L + len buf) s'') /\
    len (disk (os s'))
    = Z.max (len (disk (os s)))
            ((L + len buf + logicalPageSize - 1) / logicalPageSize * physicalPageSize).
Proof.
  cbv zeta. revert Hend Hhole.
  pose proof (consistent_offset _ _ Hcons) as Hoff.
  rewrite physicalToLogical_p2l by lia.
  rewrite logicalPageSize_eq, physicalPageSize_eq. intros Hend Hhole.
  pose proof (p2l_le (offset (os s)) ltac:(lia)) as Hpos.
  pose proof (len_nonneg buf) as Hlen0.
  destruct (write_consistent host s buf Hcons Hrw Hbuf Hend Hhole)
    as (s' & Hrun & Hcons' & _ & Hll & Ho' & Hlen & _).
  exists s'. split; [exact Hrun |]. split; [exact Hcons' |].
  split; [unfold length, gets; rewrite Hll; reflexivity |].
  split.
  - destruct (position_consistent host s' Hcons') as [s'' Hp].
    rewrite Ho', p2l_l2p in Hp by lia. exists s''. exact Hp.
  - rewrite Hlen. f_equal. f_equal. f_equal. lia.
Qed.

Lemma write_keeps_consistent_witness :
  exists s',
    write LittleEndian (zeros 2000) 2000 ten_byte_file = Ok tt s' /\
    consistent LittleEndian s' /\
    length Logical s' = Ok 2010 s'.
Proof.
  pose proof (write_keeps_consistent LittleEndian ten_byte_file (zeros 2000)
                ten_byte_file_consistent
                ltac:(vm_compute; reflexivity) ltac:(vm_compute; reflexivity)
                ltac:(vm_compute; reflexivity) ltac:(vm_compute; congruence))
    as (s' & Hrun & Hcons & Hlen & _).
  exists s'. split; [exact Hrun |]. split; [exact Hcons | exact Hlen].
Defined.

(** X11: [extend] on a file in good order.  Asked for a logical length
    below the current one it raises ErrorInternal and nothing has happened,
    not even a seek: [extend] never shortens.  Asked for a length not below
    the current one it returns normally and leaves a file in good order
    again, of the new logical length, with the cursor at its end. *)
Theorem extend_keeps_consistent (host : Endianness) (s : State) (N : Z)
  (Hcons : consistent host s) (Hrw : readOnly_ (this s) = false)
  (HN : N < 2 ^ 61) :
  (N < logicalLength_ (this s) -> extend host N Logical s = Throw ErrorInternal s) /\
  (logicalLength_ (this s) <= N ->
   exists s',
     extend host N Logical s = Ok tt s' /\
     consistent host s' /\
     length Logical s' = Ok N s' /\
     (exists s'', position Logical s' = Ok N s'') /\
     len (disk (os s'))
     = Z.max (len (disk (os s)))
             ((N + logicalPageSize - 1) / logicalPageSize * physicalPageSize)).
Proof.
  split.
  - intros Hshort. unfold extend. unfold bind at 1, gets at 1. rewrite Hrw.
    unfold length. unfold bind at 1, gets at 1.
    rewrite ltb_true by exact Hshort. reflexivity.
  - intros Hlong.
    pose proof (consistent_cover _ _ Hcons) as Hcover.
    destruct (extend_consistent host s N Hcons Hrw ltac:(lia))
      as (s' & Hrun & Hcons' & _ & Hll & Ho' & Hlen & _).
    exists s'. split; [exact Hrun |]. split; [exact Hcons' |].
    split; [unfold length, gets; rewrite Hll; reflexivity |].
    split.
    + destruct (position_consistent host s' Hcons') as [s'' Hp].
      rewrite Ho', p2l_l2p in Hp by lia. exists s''. exact Hp.
    + rewrite Hlen, logicalPageSize_eq, physicalPageSize_eq. f_equal. f_equal. f_equal. lia.
Qed.

Lemma extend_keeps_consistent_witness :
  extend LittleEndian 5 Logical ten_byte_file = Throw ErrorInternal ten_byte_file /\
  exists s',
    extend LittleEndian 3000 Logical ten_byte_file = Ok tt s' /\
    consistent LittleEndian s' /\
    len (disk (os s')) = 3072.
Proof.
  split.
  - apply (extend_keeps_consistent LittleEndian ten_byte_file 5
             ten_byte_file_consistent); vm_compute; reflexivity.
  - pose proof (proj2 (extend_keeps_consistent LittleEndian ten_byte_file 3000
                         ten_byte_file_consistent
                         ltac:(vm_compute; reflexivity) ltac:(vm_compute; reflexivity))
                      ltac:(vm_compute; congruence))
      as (s' & Hrun & Hcons & _ & _ & Hlen).
    exists s'. split; [exact Hrun |]. split; [exact Hcons |].
    rewrite Hlen. vm_compute. reflexivity.
Defined.

(** X12: a file in good order reads cleanly.  Whatever the policy, every
    range inside the logical length can be read: [read] returns the bytes
    the image holds at the physical offsets of the range, leaves the cursor
    behind them and the file in good order. *)
Theorem consistent_reads_cleanly (host : Endianness) (s : State) (a n : Z)
  (Hcons : consistent host s)
  (Ha : 0 <= a) (Hn : 0 <= n) (Hend : a + n <= logicalLength_ (this s)) :
  exists s',
    (seek a Logical ;;; read host n) s = Ok (logical (disk (os s)) a n) s' /\
    (forall i, 0 <= i < n ->
               byte_at (logical (disk (os s)) a n) i
               = byte_at (disk (os s)) (logicalToPhysical (a + i))) /\
    consistent host s' /\
    (exists s'', position Logical s' = Ok (a + n) s'').
Proof.
  pose proof (consistent_cover _ _ Hcons) as Hcover.
  pose proof (consistent_size _ _ Hcons) as Hsize.
  assert (Hmax : a + n < 2 ^ 62) by (clear - Hend Hcover Hsize; divmod).
  destruct (seek_consistent host s a Hcons ltac:(lia)) as (s1 & Hseek & Hcons1 & Hthis & Hdisk & Hoff).
  destruct (read_consistent host s1 n Hcons1 Hn) as (s' & Hread & Hcons' & _ & _ & Hoff').
  { rewrite Hoff, p2l_l2p, Hthis by lia. exact Hend. }
  rewrite Hoff, p2l_l2p in Hread, Hoff' by lia. rewrite Hdisk in Hread.
  exists s'. split; [erewrite bind_ok by exact Hseek; exact Hread |].
  split; [| split; [exact Hcons' |]].
  - intros i Hi. rewrite byte_at_logical by lia.
    pose proof (l2p_small (a + i) ltac:(lia)).
    rewrite logicalToPhysical_l2p by lia. reflexivity.
  - destruct (position_consistent host s' Hcons') as [s'' Hp].
    rewrite Hoff', p2l_l2p in Hp by lia. exists s''. exact Hp.
Qed.

Lemma consistent_reads_cleanly_witness :
  exists s',
    (seek 3 Logical ;;; read LittleEndian 5) ten_byte_file
    = Ok (repeat "171"%byte 5) s'.
Proof.
  pose proof (consistent_reads_cleanly LittleEndian ten_byte_file 3 5
                ten_byte_file_consistent ltac:(lia) ltac:(lia)
                ltac:(vm_compute; congruence)) as (s' & Hrun & _).
  exists s'. exact Hrun.
Defined.

(** The chain [seek a; write buf] on a file in good order. *)
Lemma seek_write_consistent (host : Endianness) (s : State) (a : Z) (buf : list byte) :
  consistent host s -> readOnly_ (this s) = false ->
  0 <= a <= logicalLength_ (this s) -> a + len buf < 2 ^ 61 ->
  exists s',
    (seek a Logical ;;; write host buf (len buf)) s = Ok tt s' /\
    consistent host s' /\ readOnly_ (this s') = false /\
    logicalLength_ (this s') = Z.max (logicalLength_ (this s)) (a + len buf) /\
    offset (os s') = l2p (a + len buf) /\
    logical (disk (os s')) a (len buf) = buf /\
    (forall l, 0 <= l < logicalLength_ (this s) -> l < a \/ a + len buf <= l ->
               byte_at (disk (os s')) (l2p l) = byte_at (disk (os s)) (l2p l)).
Proof.
  intros Hcons Hrw Ha Hend.
  pose proof (len_nonneg buf) as Hlen0.
  destruct (seek_consistent host s a Hcons ltac:(lia))
    as (s1 & Hseek & Hcons1 & Hthis & Hdisk & Hoff).
  destruct (write_inside_consistent host s1 buf Hcons1)
    as (s' & Hrun & Hcons' & Hrw' & Hll & Ho' & _ & Hlog & Hframe);
    rewrite ?Hoff, ?p2l_l2p, ?Hthis by lia; try assumption; try lia.
  rewrite Hoff, p2l_l2p, ?Hthis, ?Hdisk in * by lia.
  exists s'. split; [erewrite bind_ok by exact Hseek; exact Hrun |].
  split; [exact Hcons' |]. repeat split; assumption.
Qed.

(** X13: what [write] puts at a logical offset inside a file in good order,
    or at its end, is what [read] finds there afterwards, whatever the
    policy and however many pages the bytes span. *)
Theorem write_read_back (host : Endianness) (s : State) (a : Z) (buf : list byte)
  (Hcons : consistent host s) (Hrw : readOnly_ (this s) = false)
  (Ha : 0 <= a <= logicalLength_ (this s)) (Hend : a + len buf < 2 ^ 61) :
  exists s',
    (seek a Logical ;;; write host buf (len buf) ;;;
     seek a Logical ;;; read host (len buf)) s = Ok buf s' /\
    consistent host s'.
Proof.
  pose proof (len_nonneg buf) as Hlen0.
  destruct (seek_write_consistent host s a buf Hcons Hrw Ha Hend)
    as (s1 & Hrun & Hcons1 & _ & Hll & _ & Hlog & _).
  destruct (seek_consistent host s1 a Hcons1 ltac:(lia))
    as (s2 & Hseek & Hcons2 & Hthis & Hdisk & Hoff).
  destruct (read_consistent host s2 (len buf) Hcons2 Hlen0) as (s' & Hread & Hcons' & _).
  { rewrite Hoff, p2l_l2p, Hthis, Hll by lia. lia. }
  rewrite Hoff, p2l_l2p, Hdisk, Hlog in Hread by lia.
  exists s'. split; [| exact Hcons'].
  unfold bind at 1. unfold bind at 1 in Hrun.
  destruct (seek a Logical s) as [[] s0 | | |]; try discriminate.
  erewrite bind_ok by exact Hrun. erewrite bind_ok by exact Hseek. exact Hread.
Qed.

Lemma write_read_back_witness :
  exists s',
    (seek 5 Logical ;;; write LittleEndian (zeros 2000) 2000 ;;;
     seek 5 Logical ;;; read LittleEndian 2000) ten_byte_file = Ok (zeros 2000) s'.
Proof.
  pose proof (write_read_back LittleEndian ten_byte_file 5 (zeros 2000)
                ten_byte_file_consistent ltac:(vm_compute; reflexivity)
                ltac:(vm_compute; split; congruence) ltac:(vm_compute; reflexivity))
    as (s' & Hrun & _).
  exists s'. exact Hrun.
Defined.

(** X14: [write] changes no other byte: a range of the file that lies
    before or behind the bytes written reads the same after the write as
    before it. *)
Theorem write_leaves_other_bytes (host : Endianness) (s : State) (a b m : Z) (buf : list byte)
  (Hcons : consistent host s) (Hrw : readOnly_ (this s) = false)
  (Ha : 0 <= a <= logicalLength_ (this s)) (Hend : a + len buf < 2 ^ 61)
  (Hb : 0 <= b) (Hm : 0 <= m) (Hbm : b + m <= logicalLength_ (this s))
  (Hapart : b + m <= a \/ a + len buf <= b) :
  exists r s1 s2,
    (seek b Logical ;;; read host m) s = Ok r s1 /\
    (seek a Logical ;;; write host buf (len buf) ;;;
     seek b Logical ;;; read host m) s = Ok r s2.
Proof.
  pose proof (len_nonneg buf) as Hlen0.
  pose proof (consistent_cover _ _ Hcons) as Hcover.
  pose proof (consistent_size _ _ Hcons) as Hsize.
  assert (Hmax : b + m < 2 ^ 62) by (clear - Hbm Hcover Hsize; divmod).
  destruct (seek_consistent host s b Hcons ltac:(lia))
    as (t1 & Hseek0 & Hcons0 & Hthis0 & Hdisk0 & Hoff0).
  destruct (read_consistent host t1 m Hcons0 Hm) as (t2 & Hread0 & _).
  { rewrite Hoff0, p2l_l2p, Hthis0 by lia. exact Hbm. }
  rewrite Hoff0, p2l_l2p, Hdisk0 in Hread0 by lia.
  destruct (seek_write_consistent host s a buf Hcons Hrw Ha Hend)
    as (s1 & Hrun & Hcons1 & _ & Hll & _ & _ & Hframe).
  destruct (seek_consistent host s1 b Hcons1 ltac:(lia))
    as (s2 & Hseek & Hcons2 & Hthis & Hdisk & Hoff).
  destruct (read_consistent host s2 m Hcons2 Hm) as (s' & Hread & _).
  { rewrite Hoff, p2l_l2p, Hthis, Hll by lia. lia. }
  rewrite Hoff, p2l_l2p, Hdisk in Hread by lia.
  rewrite (logical_ext (disk (os s)) (disk (os s1)) b m) in Hread
    by (intros l Hl; apply Hframe; lia).
  exists (logical (disk (os s)) b m), t2, s'. split.
  - erewrite bind_ok by exact Hseek0. exact Hread0.
  - unfold bind at 1. unfold bind at 1 in Hrun.
    destruct (seek a Logical s) as [[] s0 | | |]; try discriminate.
    erewrite bind_ok by exact Hrun. erewrite bind_ok by exact Hseek. exact Hread.
Qed.

Lemma write_leaves_other_bytes_witness :
  exists r s1 s2,
    (seek 0 Logical ;;; read LittleEndian 5) ten_byte_file = Ok r s1 /\
    (seek 5 Logical ;;; write LittleEndian (zeros 2000) 2000 ;;;
     seek 0 Logical ;;; read LittleEndian 5) ten_byte_file = Ok r s2.
Proof.
  apply (write_leaves_other_bytes LittleEndian ten_byte_file 5 0 5 (zeros 2000)
           ten_byte_file_consistent);
    vm_compute; first [reflexivity | split; congruence | congruence | left; congruence].
Defined.

(** X15: [operator<<] appends.  Two strings shifted into a writable file in
    good order, at a cursor inside the file or at its end, lie one behind the
    other: read back from where the cursor was they give the first string
    followed by the second. *)
Theorem operator_shl_appends (host : Endianness) (s : State) (str1 str2 : list byte)
  (Hcons : consistent host s) (Hrw : readOnly_ (this s) = false)
  (Hcur : physicalToLogical (offset (os s)) <= logicalLength_ (this s))
  (Hend : physicalToLogical (offset (os s)) + len str1 + len str2 < 2 ^ 61) :
  exists s',
    (operator_shl host str1 ;;; operator_shl host str2 ;;;
     seek (physicalToLogical (offset (os s))) Logical ;;;
     read host (len str1 + len str2)) s = Ok (str1 ++ str2) s'.
Proof.
  revert Hcur Hend.
  pose proof (consistent_offset _ _ Hcons) as Hoff.
  rewrite physicalToLogical_p2l by lia.
  pose proof (p2l_le (offset (os s)) ltac:(lia)) as Hpos.
  set (L := p2l (offset (os s))) in *. intros Hcur Hend.
  pose proof (len_nonneg str1) as Hlen1. pose proof (len_nonneg str2) as Hlen2.
  destruct (write_inside_consistent host s str1 Hcons Hrw)
    as (s1 & Hrun1 & Hcons1 & Hrw1 & Hll1 & Ho1 & _ & Hlog1 & _); fold L; try lia.
  fold L in Hll1, Ho1, Hlog1.
  destruct (write_inside_consistent host s1 str2 Hcons1 Hrw1)
    as (s2 & Hrun2 & Hcons2 & _ & Hll2 & _ & _ & Hlog2 & Hframe2);
    rewrite ?Ho1, ?p2l_l2p by lia; try lia.
  rewrite Ho1, p2l_l2p in Hll2, Hlog2, Hframe2 by lia.
  destruct (seek_consistent host s2 L Hcons2 ltac:(lia))
    as (s3 & Hseek & Hcons3 & Hthis & Hdisk & Hoff3).
  destruct (read_consistent host s3 (len str1 + len str2) Hcons3 ltac:(lia))
    as (s' & Hread & _).
  { rewrite Hoff3, p2l_l2p, Hthis by lia. lia. }
  rewrite Hoff3, p2l_l2p, Hdisk in Hread by lia.
  rewrite logical_app, Hlog2 in Hread by lia.
  rewrite (logical_ext (disk (os s1)) (disk (os s2)) L (len str1)) in Hread
    by (intros l Hl; apply Hframe2; lia).
  rewrite Hlog1 in Hread.
  exists s'. unfold operator_shl.
  erewrite bind_ok by exact Hrun1. erewrite bind_ok by exact Hrun2.
  erewrite bind_ok by exact Hseek. exact Hread.
Qed.

Lemma operator_shl_appends_witness :
  exists s',
    (operator_shl LittleEndian (map byte_of_Z [60; 97; 62]) ;;;
     operator_shl LittleEndian (map byte_of_Z [60; 47; 97; 62]) ;;;
     seek 10 Logical ;;; read LittleEndian 7) ten_byte_file
    = Ok (map byte_of_Z [60; 97; 62; 60; 47; 97; 62]) s'.
Proof.
  apply (operator_shl_appends LittleEndian ten_byte_file
           (map byte_of_Z [60; 97; 62]) (map byte_of_Z [60; 47; 97; 62])
           ten_byte_file_consistent);
    vm_compute; first [reflexivity | congruence].
Defined.

(** ** A write of no bytes *)

(** X16: a [write] of no bytes makes no [write] call and leaves the image
    as it is, whatever the system would answer, yet it raises the logical
    length to the cursor: behind the end of the file the object then claims
    bytes the image does not hold. *)
Theorem write_nothing_moves_length (host : Endianness) (s : State) (buf : list byte)
  (Hfd : 0 <= fd_ (this s)) (Hrw : readOnly_ (this s) = false)
  (Hoff : 0 <= offset (os s) < 2 ^ 62) :
  exists s',
    write host buf 0 s = Ok tt s' /\
    disk (os s') = disk (os s) /\ script (os s') = script (os s) /\
    logicalLength_ (this s')
    = Z.max (logicalLength_ (this s)) (physicalToLogical (offset (os s))).
Proof.
  destruct s as [c [d o sc tr cb]]. cbn [this os disk offset script] in *.
  destruct (write_nothing host c buf d o sc tr cb Hfd Hrw Hoff) as [tr' Hrun].
  eexists. split; [exact Hrun |]. cbn [this os disk script with_logicalLength logicalLength_].
  rewrite physicalToLogical_p2l by lia. auto.
Qed.

Lemma write_nothing_moves_length_witness :
  exists s',
    (seek 5000 Logical ;;; write LittleEndian [] 0) ten_byte_file = Ok tt s' /\
    len (disk (os s')) = 1024 /\ logicalLength_ (this s') = 5000.
Proof.
  pose proof (write_nothing_moves_length LittleEndian
                (state_of (seek 5000 Logical ten_byte_file) ten_byte_file) []
                ltac:(vm_compute; congruence) ltac:(vm_compute; reflexivity)
                ltac:(vm_compute; split; congruence)) as (s' & Hw & Hd & _ & Hl).
  exists s'. split; [exact Hw |]. split; [rewrite Hd; reflexivity | exact Hl].
Defined.

(** ** Where [read] stops *)


Lemma read_loop_step_short (host : Endianness) (c : CheckedFile) (fuel : nat)
      (policy nRead page pageOffset n : Z) (pb out d : list byte) (o : Z) sc tr cb :
  0 <= fd_ c -> 0 < nRead -> 0 <= page -> page * 1024 < 2 ^ 63 ->
  len d < (page + 1) * 1024 ->
  exists s',
    read_loop host (S fuel) policy nRead page pageOffset n pb out
              (mkState c (mkWorld d o sc tr cb))
    = Throw ErrorReadFailed s'.
Proof.
  intros Hfd HnR Hp Hmax Hshort.
  cbn [read_loop]. rewrite ltb_true by lia.
  destruct (readPhysicalPage_short c Hfd pb page d o sc tr cb) as [s' Hs']; try assumption.
  exists s'. apply bind_throw. exact Hs'.
Qed.

Lemma read_loop_stops (host : Endianness) (c : CheckedFile) (Hfd : 0 <= fd_ c) (fuel : nat) :
  forall (policy nRead page pageOffset : Z) (pb out d : list byte) (o : Z) sc tr cb (k : Z),
    0 < nRead <= Z.of_nat fuel -> 0 <= page -> 0 <= pageOffset < 1020 ->
    len pb <= 1024 -> len d < 2 ^ 63 -> 0 <= o < 2 ^ 63 ->
    page * 1020 + pageOffset + nRead < 2 ^ 62 ->
    valid_policy policy ->
    page <= k -> k * 1020 < page * 1020 + pageOffset + nRead ->
    (forall j, page <= j < k ->
               (j + 1) * 1024 <= len d /\
               (verifies policy j (remaining (page * 1020 + pageOffset)
                                             (page * 1020 + pageOffset + nRead) j) = true ->
                page_ok host (page_at d j))) ->
    (len d < (k + 1) * 1024 \/
     (verifies policy k (remaining (page * 1020 + pageOffset)
                                   (page * 1020 + pageOffset + nRead) k) = true /\
      ~ page_ok host (page_at d k))) ->
    exists s',
      read_loop host fuel policy nRead page pageOffset
                (Z.min nRead (1020 - pageOffset)) pb out
                (mkState c (mkWorld d o sc tr cb))
      = Throw (stop_error d k) s'.
Proof.
  induction fuel as [| fuel IH];
    intros policy nRead page pageOffset pb out d o sc tr cb k
           HnR Hp Hoff Hpb Hdmax Ho Hmax Hv Hk HkE Hok Hstop.
  - lia.
  - set (n := Z.min nRead (1020 - pageOffset)).
    assert (Hn : 0 < n <= nRead) by lia.
    assert (Hrem : remaining (page * 1020 + pageOffset)
                             (page * 1020 + pageOffset + nRead) page = nRead).
    { unfold remaining. lia. }
    destruct (Z.eq_dec k page) as [-> | Hne].
    + unfold stop_error.
      destruct (Z.ltb_spec (len d) ((page + 1) * 1024)) as [Hshort | Hwhole].
      * apply read_loop_step_short; try assumption; lia.
      * destruct Hstop as [Hshort | [Hver Hbad]]; [lia |].
        rewrite Hrem in Hver.
        apply read_loop_step_bad; try assumption; lia.
    + destruct (Hok page ltac:(lia)) as [Hpage Hokp].
      destruct (read_loop_step_ok host c Hfd fuel policy nRead page pageOffset n pb out
                  d o sc tr cb) as [tr1 Hstep]; try assumption; try lia.
      { intros Hv1. apply Hokp. rewrite Hrem. exact Hv1. }
      rewrite Hstep. clear Hstep.
      assert (Hmore : n < nRead) by lia.
      replace (Z.min (nRead - n) 1020) with (Z.min (nRead - n) (1020 - 0)) by lia.
      assert (HE : (page + 1) * 1020 + 0 + (nRead - n) = page * 1020 + pageOffset + nRead)
        by lia.
      apply (IH policy (nRead - n) (page + 1) 0 (page_at d page) _ d _ sc tr1 cb k);
        try assumption; try lia.
      * rewrite len_page_at by lia. lia.
      * intros j Hj. destruct (Hok j ltac:(lia)) as [Hjpage Hjok].
        split; [exact Hjpage |]. intros Hvj. apply Hjok.
        rewrite HE in Hvj. unfold remaining in *.
        rewrite Z.max_r in Hvj by lia. rewrite Z.max_r by lia. exact Hvj.
      * destruct Hstop as [Hshort | [Hver Hbad]]; [left; exact Hshort | right].
        split; [| exact Hbad].
        rewrite HE. unfold remaining in *.
        rewrite Z.max_r in Hver by lia. rewrite Z.max_r by lia. exact Hver.
Qed.

Lemma read_stops (host : Endianness) (c : CheckedFile) (Hfd : 0 <= fd_ c)
      (n k : Z) d o sc tr cb :
  0 < n -> 0 <= o < 2 ^ 63 -> p2l o + n <= logicalLength_ c -> p2l o + n < 2 ^ 62 ->
  len d < 2 ^ 63 ->
  valid_policy (checkSumPolicy_ c) ->
  p2l o / 1020 <= k -> k * 1020 < p2l o + n ->
  (forall j, p2l o / 1020 <= j < k ->
             (j + 1) * 1024 <= len d /\
             (verifies (checkSumPolicy_ c) j (remaining (p2l o) (p2l o + n) j) = true ->
              page_ok host (page_at d j))) ->
  (len d < (k + 1) * 1024 \/
   (verifies (checkSumPolicy_ c) k (remaining (p2l o) (p2l o + n) k) = true /\
    ~ page_ok host (page_at d k))) ->
  exists s', read host n (mkState c (mkWorld d o sc tr cb)) = Throw (stop_error d k) s'.
Proof.
  intros Hn Ho Hend Hmax Hdmax Hv Hk HkE Hok Hstop.
  destruct (p2l_split o ltac:(lia)) as (Hpage & Hoff & Hsplit).
  pose proof (p2l_le o ltac:(lia)) as Hpos.
  rewrite read_enter by (try assumption; lia).
  destruct (read_loop_stops host c Hfd (Z.to_nat n) (checkSumPolicy_ c) n (p2l o / 1020)
              (p2l o mod 1020) (zeros 1024) [] d o sc
              (SysLseek 0 SEEK_CUR :: SysLseek 0 SEEK_CUR :: tr) cb k)
    as (s' & Hrun); try assumption; try lia;
    try (rewrite len_zeros; lia);
    try (rewrite Hsplit; first [assumption | intros _; assumption]).
  exists s'. apply bind_throw. exact Hrun.
Qed.

(** A read behind the logical length, on a file behind a descriptor. *)
Lemma read_past_end (host : Endianness) (c : CheckedFile) (n : Z) d o sc tr cb :
  0 <= fd_ c -> 0 <= n -> 0 <= o < 2 ^ 63 -> p2l o + n < 2 ^ 62 ->
  logicalLength_ c < p2l o + n ->
  exists s', read host n (mkState c (mkWorld d o sc tr cb)) = Throw ErrorInternal s'.
Proof.
  intros Hfd Hn Ho Hmax Hpast.
  pose proof (p2l_le o ltac:(lia)) as Hpos.
  unfold read.
  erewrite bind_ok by (apply position_logical; [exact Hfd | lia]).
  unfold length. unfold bind at 1, gets at 1. cbn [this].
  rewrite (u64_small (p2l o + n)) by lia.
  rewrite ltb_true by lia. eexists. reflexivity.
Qed.

(** Every page of a range passes a decidable test, or one of them fails it. *)
Lemma pages_all_or_one (P : Z -> Prop) (dec : forall j, {P j} + {~ P j}) (p q : Z) :
  (forall j, p <= j < q -> P j) \/ exists j, p <= j < q /\ ~ P j.
Proof.
  assert (Hgen : forall m : nat,
             (forall j, p <= j < p + Z.of_nat m -> P j) \/
             exists j, p <= j < p + Z.of_nat m /\ ~ P j).
  { induction m as [| m IHm].
    - left. intros j Hj. lia.
    - destruct IHm as [Hall | (j & Hj & Hnj)].
      + destruct (dec (p + Z.of_nat m)) as [Hm | Hm].
        * left. intros j Hj.
          destruct (Z.eq_dec j (p + Z.of_nat m)) as [-> | Hd]; [exact Hm |].
          apply Hall. lia.
        * right. exists (p + Z.of_nat m). split; [lia | exact Hm].
      + right. exists j. split; [lia | exact Hnj]. }
  destruct (Z_le_gt_dec p q) as [Hle | Hgt].
  - specialize (Hgen (Z.to_nat (q - p))).
    replace (p + Z.of_nat (Z.to_nat (q - p))) with q in Hgen by lia. exact Hgen.
  - left. intros j Hj. lia.
Qed.

Lemma whole_page_ok_dec (host : Endianness) (d : list byte) (j : Z) :
  {(j + 1) * 1024 <= len d /\ page_ok host (page_at d j)} +
  {~ ((j + 1) * 1024 <= len d /\ page_ok host (page_at d j))}.
Proof.
  destruct (Z_le_gt_dec ((j + 1) * 1024) (len d)) as [Hle | Hgt].
  - destruct (page_ok_dec host (page_at d j)) as [Hok | Hbad].
    + left. auto.
    + right. intros [_ H]. contradiction.
  - right. intros [H _]. lia.
Qed.

Lemma verifies_all (page nRead : Z) : verifies ChecksumPolicy.ChecksumAll page nRead = true.
Proof. reflexivity. Qed.

(** X17: the policy All is the strictest.  What a read returns on a file
    that verifies every page, the same read returns on the same file under
    any other policy of the specification. *)
Theorem read_policy_monotone
  (host : Endianness) (s s' : State) (n policy : Z) (r : list byte)
  (Hfd : 0 <= fd_ (this s)) (Hoff : 0 <= offset (os s) < 2 ^ 63)
  (Hn : 0 <= n) (Hmax : physicalToLogical (offset (os s)) + n < 2 ^ 62)
  (Hdmax : len (disk (os s)) < 2 ^ 63)
  (Hall : checkSumPolicy_ (this s) = ChecksumPolicy.ChecksumAll)
  (Hpolicy : valid_policy policy)
  (Hread : read host n s = Ok r s') :
  exists s'', read host n (with_policy policy s) = Ok r s''.
Proof.
  destruct s as [c [d o sc tr cb]]. cbn [this os disk offset] in *.
  rewrite physicalToLogical_p2l in Hmax by lia.
  destruct (p2l_split o ltac:(lia)) as (Hpage & Hpo & Hsplit).
  set (L := p2l o) in *.
  unfold with_policy. cbn [this os].
  set (c' := mkCheckedFile (fileName_ c) (logicalLength_ c) (physicalLength_ c) policy
                           (fd_ c) (bufView_ c) (readOnly_ c)).
  assert (Hfd' : 0 <= fd_ c') by exact Hfd.
  assert (HvAll : valid_policy (checkSumPolicy_ c)).
  { rewrite Hall. unfold valid_policy, ChecksumPolicy.ChecksumAll. lia. }
  destruct (Z_lt_le_dec (logicalLength_ c) (L + n)) as [Hpast | Hin].
  { destruct (read_past_end host c n d o sc tr cb) as [s1 H1]; fold L; try assumption.
    rewrite H1 in Hread. discriminate. }
  destruct (Z.eq_dec n 0) as [-> | Hnz].
  { destruct (read_spec host c Hfd 0 d o sc tr cb) as [tr1 H1];
      fold L; try assumption; try lia.
    destruct (read_spec host c' Hfd' 0 d o sc tr cb) as [tr2 H2];
      fold L; try assumption; try lia.
    rewrite H1 in Hread. injection Hread as <- _.
    eexists. exact H2. }
  destruct (pages_all_or_one
              (fun j => (j + 1) * 1024 <= len d /\ page_ok host (page_at d j))
              (whole_page_ok_dec host d) (L / 1020) ((L + n + 1019) / 1020))
    as [Hgood | (k & Hk & Hbad)].
  - assert (Hex : (L + n + 1019) / 1020 * 1024 <= len d).
    { destruct (Hgood ((L + n + 1019) / 1020 - 1)) as [H _];
        [clear - Hn Hnz Hpage Hpo Hsplit; divmod | lia]. }
    assert (Hpg : forall j, L / 1020 <= j -> j * 1020 < L + n -> page_ok host (page_at d j)).
    { intros j Hj HjE. apply Hgood. clear - Hj HjE. divmod. }
    destruct (read_spec host c Hfd n d o sc tr cb) as [tr1 H1];
      fold L; try assumption; try lia; [intros; apply Hpg; assumption |].
    destruct (read_spec host c' Hfd' n d o sc tr cb) as [tr2 H2];
      fold L; try assumption; try lia; [intros; apply Hpg; assumption |].
    rewrite H1 in Hread. injection Hread as <- _.
    eexists. exact H2.
  - destruct (first_failing_page _ (whole_page_ok_dec host d) (L / 1020)
                (Z.to_nat (k - L / 1020)) k ltac:(lia) ltac:(lia) Hbad)
      as (k' & Hk' & Hbad' & Hmin).
    destruct (read_stops host c Hfd n k' d o sc tr cb) as [s1 H1];
      fold L; try assumption; try lia.
    + clear - Hk Hk'. divmod.
    + intros j Hj. destruct (Hmin j Hj) as [Hw Hokj]. split; [exact Hw | intros _; exact Hokj].
    + destruct (Z_lt_le_dec (len d) ((k' + 1) * 1024)) as [Hshort | Hwhole];
        [left; exact Hshort | right].
      split; [rewrite Hall; apply verifies_all |].
      intros Hokk. apply Hbad'. auto.
    + rewrite H1 in Hread. discriminate.
Qed.

Lemma read_policy_monotone_witness :
  exists s'', read LittleEndian 5 (with_policy 25 (state_of (seek 2 Logical ten_byte_file) ten_byte_file))
              = Ok (repeat "171"%byte 5) s''.
Proof.
  apply (read_policy_monotone LittleEndian
           (state_of (seek 2 Logical ten_byte_file) ten_byte_file)
           (state_of (read LittleEndian 5 (state_of (seek 2 Logical ten_byte_file) ten_byte_file))
                     ten_byte_file) 5 25);
    vm_compute; first [reflexivity | congruence | split; congruence].
Defined.

(** X18: a read never returns part of a page.  When the range of a read
    inside the logical length needs a page the image does not wholly hold,
    and the pages the image holds are sealed, [read] raises
    ErrorReadFailed, under every policy. *)
Theorem read_missing_page
  (host : Endianness) (s : State) (n : Z)
  (Hfd : 0 <= fd_ (this s)) (Hoff : 0 <= offset (os s) < 2 ^ 63)
  (Hn : 0 < n)
  (Hend : physicalToLogical (offset (os s)) + n <= logicalLength_ (this s))
  (Hmax : physicalToLogical (offset (os s)) + n < 2 ^ 62)
  (Hdmax : len (disk (os s)) < 2 ^ 63)
  (Hpolicy : valid_policy (checkSumPolicy_ (this s)))
  (Hsealed : all_sealed host (disk (os s)))
  (Hmissing : len (disk (os s))
              < (physicalToLogical (offset (os s)) + n + logicalPageSize - 1)
                / logicalPageSize * physicalPageSize) :
  exists s', read host n s = Throw ErrorReadFailed s'.
Proof.
  destruct s as [c [d o sc tr cb]]. cbn [this os disk offset] in *.
  rewrite physicalToLogical_p2l in * by lia.
  rewrite logicalPageSize_eq, physicalPageSize_eq in Hmissing.
  destruct (p2l_split o ltac:(lia)) as (Hpage & Hpo & Hsplit).
  pose proof (len_nonneg d) as Hd0.
  set (L := p2l o) in *.
  set (k := Z.max (L / 1020) (len d / 1024)).
  assert (Hshort : len d < (k + 1) * 1024) by (subst k; clear - Hd0; divmod).
  assert (HkE : k * 1020 < L + n).
  { subst k. apply Z.max_case_strong; intros _.
    - clear - Hn Hpage Hpo Hsplit. lia.
    - clear - Hmissing Hd0. divmod. }
  destruct (read_stops host c Hfd n k d o sc tr cb) as [s1 H1];
    fold L; try assumption; try lia.
  - intros j Hj. assert (Hw : (j + 1) * 1024 <= len d) by (subst k; clear - Hj Hd0; divmod).
    split; [exact Hw |]. intros _. apply Hsealed; [lia | exact Hw].
  - unfold stop_error in H1. rewrite ltb_true in H1 by exact Hshort.
    exists s1. exact H1.
Qed.

Lemma read_missing_page_witness :
  exists s', read LittleEndian 10 truncated_file = Throw ErrorReadFailed s'.
Proof.
  apply (read_missing_page LittleEndian truncated_file 10).
  - vm_compute. congruence.
  - vm_compute. split; congruence.
  - lia.
  - vm_compute. congruence.
  - vm_compute. reflexivity.
  - vm_compute. reflexivity.
  - vm_compute. split; congruence.
  - intros j Hj Hlen.
    replace (len (disk (os truncated_file))) with 512 in Hlen by (vm_compute; reflexivity).
    lia.
  - vm_compute. reflexivity.
Defined.

(** ** Closing a file and opening it again *)

Lemma close_file (c : CheckedFile) d o tr cb :
  0 <= fd_ c ->
  close (mkState c (mkWorld d o [] tr cb))
  = Ok tt (mkState (mkCheckedFile (fileName_ c) (logicalLength_ c) (physicalLength_ c)
                                  (checkSumPolicy_ c) (-1) None (readOnly_ c))
                   (mkWorld d o [] (SysClose (fd_ c) :: tr) cb)).
Proof.
  intros Hfd. destruct c as [fn ll pl pol fd bv ro]. cbn [fd_] in Hfd.
  unfold close, bind, gets, syscall, modify, ret, throw, set_fd, set_bufView, set_os, os_close,
    log.
  proj_norm. rewrite leb_true by lia. rewrite ltb_false by lia.
  cbn [Z.ltb Z.compare]. proj_norm. destruct bv; reflexivity.
Qed.

Lemma open_for_reading (fileName : string) (policy : Z) (w : World) :
  script w = [] -> len (disk w) < 2 ^ 63 ->
  CheckedFile_file fileName Read policy w
  = Ok tt (mkState (mkCheckedFile fileName (p2l (len (disk w))) (len (disk w)) policy
                                  the_fd None true)
                   (mkWorld (disk w) 0 []
                            (SysLseek 0 SEEK_SET :: SysLseek 0 SEEK_END :: SysOpen false
                                      :: trace w)
                            (caller_buffer w))).
Proof.
  destruct w as [d o sc tr cb]. cbn [script trace caller_buffer disk]. intros -> Hlen.
  pose proof (len_nonneg d) as Hd0.
  unfold CheckedFile_file.
  unfold bind at 1.
  match goal with
  | |- context [open64 false ?s] =>
      change (open64 false s)
        with (@Ok Z the_fd (mkState (fresh_object fileName policy)
                              (mkWorld d 0 [] (SysOpen false :: tr) cb)))
  end.
  cbv beta iota.
  unfold bind at 1, modify at 1. unfold bind at 1, modify at 1.
  unfold set_fd, set_readOnly, fresh_object. proj_norm.
  set (c1 := mkCheckedFile fileName 0 0 policy the_fd None true).
  assert (Hfd1 : 0 <= fd_ c1) by (cbn; unfold the_fd; lia).
  erewrite bind_ok by (apply (lseek64_file c1 Hfd1 0 SEEK_END) with (r := len d); lia).
  unfold bind at 1, modify at 1. unfold set_physicalLength. proj_norm.
  set (c2 := mkCheckedFile _ _ _ _ _ _ _).
  assert (Hfd2 : 0 <= fd_ c2) by (cbn; unfold the_fd; lia).
  erewrite bind_ok by (apply (lseek64_file c2 Hfd2 0 SEEK_SET) with (r := 0); lia).
  unfold modify, set_logicalLength. subst c1 c2. proj_norm.
  rewrite physicalToLogical_p2l by lia. reflexivity.
Qed.

(** X19: a file in good order can be closed and opened again for reading,
    under any policy of the specification: the object is in good order
    again and every range of the old logical length reads as it did.  The
    logical length is not kept: the new one is that of the whole pages of the
    image, which is never below the old one, and is the old one rounded up
    to a page when the image ends with the page of the last logical byte. *)
Theorem close_reopen_reads_same
  (host : Endianness) (s : State) (fileName : string) (policy a n : Z)
  (Hcons : consistent host s) (Hpolicy : valid_policy policy)
  (Ha : 0 <= a) (Hn : 0 <= n) (Hend : a + n <= logicalLength_ (this s)) :
  exists s1 s2 s3 s4,
    close s = Ok tt s1 /\
    CheckedFile_file fileName Read policy (os s1) = Ok tt s2 /\
    consistent host s2 /\
    length Logical s2
    = Ok (len (disk (os s)) / physicalPageSize * logicalPageSize) s2 /\
    logicalLength_ (this s) <= len (disk (os s)) / physicalPageSize * logicalPageSize /\
    (len (disk (os s))
     = (logicalLength_ (this s) + logicalPageSize - 1) / logicalPageSize * physicalPageSize ->
     len (disk (os s)) / physicalPageSize * logicalPageSize
     = (logicalLength_ (this s) + logicalPageSize - 1) / logicalPageSize * logicalPageSize) /\
    (seek a Logical ;;; read host n) s = Ok (logical (disk (os s)) a n) s3 /\
    (seek a Logical ;;; read host n) s2 = Ok (logical (disk (os s)) a n) s4.
Proof.
  pose proof Hcons as [Hfd Hsc Hpages Hsize Hoff Hcover Hsealed Hpol].
  assert (Hmax : a + n < 2 ^ 62) by (clear - Hend Hcover Hsize; divmod).
  destruct (seek_consistent host s a Hcons ltac:(lia))
    as (t1 & Hseek0 & Hcons0 & Hthis0 & Hdisk0 & Hoff0).
  destruct (read_consistent host t1 n Hcons0 Hn) as (s3 & Hread0 & _).
  { rewrite Hoff0, p2l_l2p, Hthis0 by lia. exact Hend. }
  rewrite Hoff0, p2l_l2p, Hdisk0 in Hread0 by lia.
  destruct s as [c [d o sc tr cb]]. cbn [this os disk offset script] in *. subst sc.
  pose proof (len_nonneg d) as Hd0.
  assert (Hp2l : p2l (len d) = len d / 1024 * 1020) by (unfold p2l; clear - Hpages Hd0; divmod).
  set (c2 := mkCheckedFile fileName (p2l (len d)) (len d) policy the_fd None true).
  set (w2 := mkWorld d 0 []
               (SysLseek 0 SEEK_SET :: SysLseek 0 SEEK_END :: SysOpen false
                         :: SysClose (fd_ c) :: tr) cb).
  assert (Hcons2 : consistent host (mkState c2 w2)).
  { apply consistent_intro; cbn; auto; try lia. unfold the_fd. lia. }
  destruct (seek_consistent host (mkState c2 w2) a Hcons2 ltac:(lia))
    as (t2 & Hseek & Hcons3 & Hthis & Hdisk & Hoff3).
  destruct (read_consistent host t2 n Hcons3 Hn) as (s4 & Hread & _).
  { rewrite Hoff3, p2l_l2p, Hthis by lia. cbn. lia. }
  rewrite Hoff3, p2l_l2p, Hdisk in Hread by lia. cbn [os disk w2] in Hread.
  eexists. exists (mkState c2 w2), s3, s4.
  split; [apply close_file; exact Hfd |].
  split; [apply open_for_reading; cbn; [reflexivity | lia] |].
  split; [exact Hcons2 |].
  rewrite physicalPageSize_eq, logicalPageSize_eq.
  split; [unfold length, gets; cbn; rewrite Hp2l; reflexivity |].
  split; [lia |].
  split; [intros Htight; rewrite Htight; rewrite Z.div_mul by lia; reflexivity |].
  split.
  - erewrite bind_ok by exact Hseek0. exact Hread0.
  - erewrite bind_ok by exact Hseek. exact Hread.
Qed.

Lemma close_reopen_reads_same_witness :
  exists s1 s2 s4,
    close ten_byte_file = Ok tt s1 /\
    CheckedFile_file "scan.e57" Read 0 (os s1) = Ok tt s2 /\
    length Logical s2 = Ok 1020 s2 /\
    (seek 0 Logical ;;; read LittleEndian 10) s2 = Ok (repeat "171"%byte 10) s4.
Proof.
  pose proof (close_reopen_reads_same LittleEndian ten_byte_file "scan.e57" 0 0 10
                ten_byte_file_consistent ltac:(vm_compute; split; congruence)
                ltac:(lia) ltac:(lia) ltac:(vm_compute; congruence))
    as (s1 & s2 & s3 & s4 & Hclose & Hopen & _ & Hlen & _ & _ & _ & Hread).
  exists s1, s2, s4. split; [exact Hclose |]. split; [exact Hopen |].
  split; [exact Hlen | exact Hread].
Defined.

(** ** Pages that [write] skips, and pages that it rewrites *)

Lemma zero_page_not_ok (host : Endianness) : ~ page_ok host (zeros 1024).
Proof. destruct host; vm_compute; discriminate. Qed.

(** X20: [write] does not seal the pages it skips.  After a seek behind
    the end of a writable file in good order, a write fills the pages
    between the old end of the image and its own first page with zero bytes
    only, checksum included; the object counts them into the logical length,
    and a read of any of them under the policy All raises
    ErrorBadChecksum. *)
Theorem write_behind_end_leaves_unsealed_pages
  (host : Endianness) (s : State) (buf : list byte) (j : Z)
  (Hcons : consistent host s) (Hrw : readOnly_ (this s) = false)
  (Hall : checkSumPolicy_ (this s) = ChecksumPolicy.ChecksumAll)
  (Hbuf : 0 < len buf)
  (Hend : physicalToLogical (offset (os s)) + len buf < 2 ^ 61)
  (Hj : len (disk (os s)) / physicalPageSize <= j
        < physicalToLogical (offset (os s)) / logicalPageSize) :
  exists s',
    write host buf (len buf) s = Ok tt s' /\
    page_at (disk (os s')) j = zeros 1024 /\
    (j + 1) * logicalPageSize <= logicalLength_ (this s') /\
    exists s'', (seek (j * logicalPageSize) Logical ;;; read host 1) s'
                = Throw ErrorBadChecksum s''.
Proof.
  pose proof Hcons as [Hfd Hsc Hpages Hsize Hoff Hcover Hsealed Hpol].
  destruct s as [c [d o sc tr cb]]. cbn [this os disk offset script] in *. subst sc.
  rewrite physicalToLogical_p2l in * by lia.
  rewrite logicalPageSize_eq, physicalPageSize_eq in *.
  destruct (p2l_split o ltac:(lia)) as (Hpage & Hpo & Hsplit).
  pose proof (len_nonneg d) as Hd0.
  set (L := p2l o) in *. set (n := len buf) in *.
  destruct (write_spec host c Hfd Hrw buf n d o tr cb) as (d' & tr' & Hrun & Hw);
    fold L; try reflexivity; try assumption; try lia.
  fold L in Hrun, Hw.
  pose proof (written_length host d d' buf (zeros 1024) L n ltac:(lia) ltac:(lia) Hw) as Hlen.
  rewrite ltb_true in Hlen by lia.
  pose proof Hw as (_ & _ & _ & Hframe & _). cbv zeta in Hframe.
  assert (Hj0 : 0 <= j) by (clear - Hj Hd0; divmod).
  assert (Hjd : len d <= j * 1024) by (clear - Hj Hpages Hd0; divmod).
  assert (Hjd' : (j + 1) * 1024 <= len d').
  { rewrite Hlen. clear - Hj Hbuf Hpage Hpo Hsplit. subst n. divmod. }
  assert (Hzero : page_at d' j = zeros 1024).
  { apply bytes_ext.
    - rewrite len_page_at, len_zeros by lia. lia.
    - intros i Hi. rewrite len_page_at in Hi by lia.
      rewrite byte_at_page_at, byte_at_zeros by lia.
      rewrite Hframe by lia. apply byte_at_beyond. lia. }
  set (c1 := with_logicalLength (Z.max (logicalLength_ c) (L + n)) c) in *.
  assert (Hfd1 : 0 <= fd_ c1) by exact Hfd.
  assert (Hll : (j + 1) * 1020 <= logicalLength_ c1).
  { cbn [c1 with_logicalLength logicalLength_]. clear - Hj Hbuf Hpage Hpo Hsplit.
    subst n. divmod. }
  eexists. split; [exact Hrun |]. cbn [this os disk].
  split; [exact Hzero |]. split; [exact Hll |].
  assert (Hl2p : l2p (j * 1020) = j * 1024) by (unfold l2p; clear - Hj0; divmod).
  assert (Hjmax : j * 1020 + 1 < 2 ^ 62) by (clear - Hj Hend Hbuf Hpage Hpo Hsplit; subst n; divmod).
  erewrite bind_ok by (apply seek_logical; [exact Hfd1 | lia | rewrite Hl2p; lia]).
  rewrite Hl2p.
  assert (Hp2l : p2l (j * 1024) = j * 1020) by (rewrite <- Hl2p; apply p2l_l2p; lia).
  assert (Hlen' : len d' < 2 ^ 63).
  { rewrite Hlen. apply Z.max_lub_lt; [lia |]. clear - Hend Hbuf Hpage Hpo Hsplit.
    subst n. divmod. }
  apply (read_bad_spec host c1 Hfd1 1 j); rewrite ?Hp2l; try lia.
  - clear - Hjd' Hj0. divmod.
  - cbn [c1 with_logicalLength checkSumPolicy_]. rewrite Hall.
    unfold valid_policy, ChecksumPolicy.ChecksumAll. lia.
  - clear - Hj0. divmod.
  - cbn [c1 with_logicalLength checkSumPolicy_]. rewrite Hall. apply verifies_all.
  - rewrite Hzero. apply zero_page_not_ok.
  - intros i Hi. exfalso. clear - Hi Hj0. divmod.
Qed.

Lemma write_behind_end_leaves_unsealed_pages_witness :
  exists s' s'',
    (seek 3000 Logical ;;; write LittleEndian [x00] 1) ten_byte_file = Ok tt s' /\
    (seek 1020 Logical ;;; read LittleEndian 1) s' = Throw ErrorBadChecksum s''.
Proof.
  assert (Hcons : consistent LittleEndian
                    (state_of (seek 3000 Logical ten_byte_file) ten_byte_file)).
  { destruct (seek_consistent LittleEndian ten_byte_file 3000 ten_byte_file_consistent
                ltac:(lia)) as (s1 & Hseek & Hcons1 & _).
    rewrite Hseek. exact Hcons1. }
  pose proof (write_behind_end_leaves_unsealed_pages LittleEndian
                (state_of (seek 3000 Logical ten_byte_file) ten_byte_file) [x00] 1
                Hcons ltac:(vm_compute; reflexivity) ltac:(vm_compute; reflexivity)
                ltac:(vm_compute; reflexivity) ltac:(vm_compute; reflexivity)
                ltac:(vm_compute; split; congruence))
    as (s' & Hrun & _ & _ & s'' & Hread).
  exists s', s''. split; [exact Hrun | exact Hread].
Defined.

(** X21: [write] seals what it rewrites without looking at the checksum
    that was there.  On a writable file of whole pages, whatever checksums
    the pages carry, a write of at least one byte returns normally; every
    page it touches is wholly in the image afterwards, is what
    [readPhysicalPage] reads back, and verifies; the data bytes around the
    bytes written are kept as they were. *)
Theorem write_reseals_pages
  (host : Endianness) (s : State) (buf : list byte)
  (Hfd : 0 <= fd_ (this s)) (Hrw : readOnly_ (this s) = false)
  (Hsc : script (os s) = [])
  (Hpages : len (disk (os s)) mod 1024 = 0) (Hdmax : len (disk (os s)) < 2 ^ 63)
  (Hoff : 0 <= offset (os s) < 2 ^ 63)
  (Hbuf : 0 < len buf)
  (Hend : physicalToLogical (offset (os s)) + len buf < 2 ^ 62) :
  let L := physicalToLogical (offset (os s)) in
  exists s',
    write host buf (len buf) s = Ok tt s' /\
    len (disk (os s'))
    = Z.max (len (disk (os s)))
            ((L + len buf + logicalPageSize - 1) / logicalPageSize * physicalPageSize) /\
    (forall j, L / logicalPageSize <= j -> j * logicalPageSize < L + len buf ->
               (j + 1) * physicalPageSize <= len (disk (os s')) /\
               len (page_at (disk (os s')) j) = physicalPageSize /\
               page_ok host (page_at (disk (os s')) j) /\
               forall pb, len pb <= physicalPageSize ->
                 exists s'', readPhysicalPage pb j s' = Ok (page_at (disk (os s')) j) s'' /\
                             verifyChecksum host (page_at (disk (os s')) j) j s''
                             = Ok tt s'') /\
    (forall l, 0 <= l < 2 ^ 62 -> l < L \/ L + len buf <= l ->
               logicalToPhysical l < len (disk (os s)) ->
               byte_at (disk (os s')) (logicalToPhysical l)
               = byte_at (disk (os s)) (logicalToPhysical l)).
Proof.
  destruct s as [c [d o sc tr cb]]. cbn [this os disk offset script] in *. subst sc.
  cbv zeta. rewrite physicalToLogical_p2l in * by lia.
  rewrite logicalPageSize_eq, physicalPageSize_eq.
  destruct (p2l_split o ltac:(lia)) as (Hpage & Hpo & Hsplit).
  set (L := p2l o) in *. set (n := len buf) in *.
  destruct (write_spec host c Hfd Hrw buf n d o tr cb) as (d' & tr' & Hrun & Hw);
    fold L; try reflexivity; try assumption; try lia.
  fold L in Hrun, Hw.
  pose proof (written_length host d d' buf (zeros 1024) L n ltac:(lia) ltac:(lia) Hw) as Hlen.
  rewrite ltb_true in Hlen by lia.
  assert (Hlen' : len d' < 2 ^ 63).
  { rewrite Hlen. apply Z.max_lub_lt; [lia |]. clear - Hend Hpage Hpo Hsplit Hbuf.
    divmod. }
  pose proof Hw as (_ & _ & _ & _ & Hdata & _). cbv zeta in Hdata.
  rewrite Hsplit in Hdata.
  set (c1 := with_logicalLength (Z.max (logicalLength_ c) (L + n)) c) in *.
  assert (Hfd1 : 0 <= fd_ c1) by exact Hfd.
  eexists. split; [exact Hrun |]. cbn [os disk].
  split; [rewrite Hlen; f_equal; f_equal; f_equal; lia |]. split.
  - intros j Hj HjE.
    assert (Hin : (j + 1) * 1024 <= len d').
    { rewrite Hlen. clear - Hj HjE Hpage. divmod. }
    assert (Hok : page_ok host (page_at d' j)).
    { apply (written_pages_ok host d d' buf (zeros 1024) L n j); try assumption; lia. }
    split; [exact Hin |]. split; [apply len_page_at; lia |]. split; [exact Hok |].
    intros pb Hpb.
    rewrite (readPhysicalPage_file c1 Hfd1 pb j d') by lia.
    eexists. split; [reflexivity |].
    apply verifyChecksum_ok. exact Hok.
  - intros l Hl Hout.
    pose proof (l2p_small l Hl) as Hsmall.
    rewrite logicalToPhysical_l2p by lia. intros Hlt.
    unfold l2p in *. apply Hdata; try assumption; clear - Hl Hout; divmod.
Qed.

Lemma write_reseals_pages_witness :
  ~ page_ok LittleEndian (page_at (disk (os damaged_file)) 0) /\
  exists s',
    write LittleEndian [x00] 1 damaged_file = Ok tt s' /\
    len (disk (os s')) = 1024 /\
    page_ok LittleEndian (page_at (disk (os s')) 0).
Proof.
  split; [vm_compute; discriminate |].
  pose proof (write_reseals_pages LittleEndian damaged_file [x00]
                ltac:(vm_compute; congruence) ltac:(vm_compute; reflexivity)
                ltac:(vm_compute; reflexivity) ltac:(vm_compute; reflexivity)
                ltac:(vm_compute; reflexivity) ltac:(vm_compute; split; congruence)
                ltac:(vm_compute; reflexivity) ltac:(vm_compute; reflexivity))
    as (s' & Hrun & Hlen & Hok & _).
  exists s'. split; [exact Hrun |]. split; [rewrite Hlen; reflexivity |].
  apply (Hok 0); vm_compute; congruence.
Defined.

(** ** Reading from a caller's buffer *)

Section MemoryBacked.

Variable host : Endianness.
Variable c : CheckedFile.
Variable size : Z.
Variable w : World.
Variable buf : list byte.
Hypothesis Hfd : fd_ c < 0.
Hypothesis Hbuf : caller_buffer w = Some buf.
Hypothesis Hsize : size = len buf.
Hypothesis Hmax : size < 2 ^ 63.

Lemma memory_backed_over_buffer (cur : Z) :
  memory_backed (this (over_buffer c size cur w)) = Some (mkBufferView size cur).
Proof.
  unfold memory_backed, over_buffer. cbn [this fd_ bufView_].
  rewrite ltb_true by exact Hfd. reflexivity.
Qed.

Lemma seek_physical_memory (p cur : Z) :
  0 <= p <= size ->
  seek p Physical (over_buffer c size cur w) = Ok tt (over_buffer c size p w).
Proof.
  intros Hp. unfold seek. rewrite to_int64_small by lia.
  unfold bind at 1. rewrite (lseek64_memory _ _ p SEEK_SET (memory_backed_over_buffer cur)).
  rewrite u64_small by lia. unfold BufferView.seek. cbn [streamSize_ cursorStream_].
  destruct (Z.gtb_spec p size) as [Hgt | _]; [lia |]. reflexivity.
Qed.

Lemma seek_logical_memory (l cur : Z) :
  0 <= l -> l2p l <= size ->
  seek l Logical (over_buffer c size cur w) = Ok tt (over_buffer c size (l2p l) w).
Proof.
  intros Hl Hp. pose proof (l2p_bounds l Hl). unfold seek.
  rewrite logicalToPhysical_l2p by lia. rewrite to_int64_small by lia.
  unfold bind at 1.
  rewrite (lseek64_memory _ _ (l2p l) SEEK_SET (memory_backed_over_buffer cur)).
  rewrite u64_small by lia. unfold BufferView.seek. cbn [streamSize_ cursorStream_].
  destruct (Z.gtb_spec (l2p l) size) as [Hgt | _]; [lia |]. reflexivity.
Qed.

Lemma position_logical_memory (cur : Z) :
  0 <= cur <= size ->
  position Logical (over_buffer c size cur w) = Ok (p2l cur) (over_buffer c size cur w).
Proof.
  intros Hcur. unfold position. unfold bind at 1.
  rewrite (lseek64_memory _ _ 0 SEEK_CUR (memory_backed_over_buffer cur)).
  change (u64 0) with 0. unfold BufferView.seek. cbn [streamSize_ cursorStream_].
  rewrite Z.add_0_r, u64_small by lia.
  destruct (Z.gtb_spec cur size) as [Hgt | _]; [lia |].
  cbn [fst snd cursorStream_]. unfold ret.
  rewrite physicalToLogical_p2l by lia. reflexivity.
Qed.

Lemma getCurrentPageAndOffset_logical_memory (cur : Z) :
  0 <= cur <= size ->
  getCurrentPageAndOffset Logical (over_buffer c size cur w)
  = Ok (p2l cur / 1020, p2l cur mod 1020) (over_buffer c size cur w).
Proof.
  intros H. unfold getCurrentPageAndOffset.
  erewrite bind_ok by (apply position_logical_memory; lia).
  rewrite logicalPageSize_eq. pose proof (p2l_le cur ltac:(lia)).
  pose proof (Z.div_mod (p2l cur) 1020 ltac:(lia)).
  pose proof (Z.mod_pos_bound (p2l cur) 1020 ltac:(lia)).
  assert (0 <= p2l cur / 1020) by (apply Z.div_pos; lia).
  rewrite (u64_small (p2l cur / 1020 * 1020)) by lia.
  replace (p2l cur - p2l cur / 1020 * 1020) with (p2l cur mod 1020) by lia.
  rewrite u64_small by lia. reflexivity.
Qed.

Lemma readPhysicalPage_over_buffer (pb : list byte) (page cur : Z) :
  0 <= page -> (page + 1) * 1024 <= size -> len pb <= 1024 ->
  readPhysicalPage pb page (over_buffer c size cur w)
  = Ok (page_at buf page) (over_buffer c size ((page + 1) * 1024) w).
Proof.
  intros Hp Hin Hpb. unfold readPhysicalPage. rewrite physicalPageSize_eq.
  rewrite (u64_small (page * 1024)) by lia.
  erewrite bind_ok by (apply seek_physical_memory; lia).
  unfold bind at 1, gets at 1. rewrite memory_backed_over_buffer.
  unfold over_buffer at 1. cbn [os]. rewrite Hbuf.
  unfold BufferView.read. cbn [cursorStream_ streamSize_].
  change (Z.to_nat 1024) with 1024%nat.
  rewrite copy_in_bounds by (change (Z.of_nat 1024) with 1024; lia).
  change (Z.of_nat 1024) with 1024. rewrite Z.add_0_r. fold (page_at buf page).
  rewrite overwrite_whole by (rewrite len_page_at; lia).
  rewrite u64_small by lia.
  unfold set_bufView, over_buffer. cbn [this os fileName_ logicalLength_ physicalLength_
    checkSumPolicy_ fd_ readOnly_].
  f_equal. f_equal. f_equal. f_equal. f_equal. lia.
Qed.

Lemma read_loop_over_buffer (fuel : nat) :
  forall (policy nRead page pageOffset : Z) (pb out : list byte) (cur : Z),
    0 <= nRead <= Z.of_nat fuel -> 0 <= page -> 0 <= pageOffset < 1020 ->
    len pb <= 1024 -> 0 <= cur <= size ->
    (0 < nRead -> (page * 1020 + pageOffset + nRead + 1019) / 1020 * 1024 <= size) ->
    valid_policy policy ->
    (forall j, 0 < nRead -> page <= j -> j * 1020 < page * 1020 + pageOffset + nRead ->
               page_ok host (page_at buf j)) ->
    exists cur',
      read_loop host fuel policy nRead page pageOffset
                (Z.min nRead (1020 - pageOffset)) pb out (over_buffer c size cur w)
      = Ok (out ++ logical buf (page * 1020 + pageOffset) nRead)
           (over_buffer c size cur' w) /\
      0 <= cur' <= size.
Proof.
  induction fuel as [| fuel IH];
    intros policy nRead page pageOffset pb out cur HnR Hp Hoff Hpb Hcur Hex Hv Hok.
  - assert (Hz : nRead = 0) by lia. rewrite Hz.
    exists cur. cbn [read_loop Z.ltb Z.compare]. unfold ret.
    rewrite logical_nothing, app_nil_r. auto.
  - destruct (Z.eq_dec nRead 0) as [Hz | Hnz].
    { rewrite Hz. exists cur. cbn [read_loop Z.ltb Z.compare]. unfold ret.
      rewrite logical_nothing, app_nil_r. auto. }
    set (n := Z.min nRead (1020 - pageOffset)).
    assert (Hn : 0 < n <= nRead) by lia.
    assert (Hpage : (page + 1) * 1024 <= size /\ nRead < 2 ^ 63).
    { specialize (Hex ltac:(lia)). revert Hex Hmax. clear - Hp Hoff Hn HnR.
      generalize size. intros z Hz Hzm. divmod. }
    destruct Hpage as [Hpage HnRmax].
    cbn [read_loop]. rewrite ltb_true by lia.
    erewrite bind_ok by (apply readPhysicalPage_over_buffer; assumption).
    erewrite bind_ok by (apply policy_switch_ok; [exact Hv | intros _; apply Hok; lia]).
    rewrite logicalPageSize_eq.
    rewrite (u64_small (nRead - n)) by lia.
    rewrite (u64_small (page + 1)) by lia.
    replace (Z.min (nRead - n) 1020) with (Z.min (nRead - n) (1020 - 0)) by lia.
    destruct (IH policy (nRead - n) (page + 1) 0 (page_at buf page)
                 (out ++ take n (drop pageOffset (page_at buf page)))
                 ((page + 1) * 1024))
      as (cur' & Hrun & Hcur'); try assumption; try lia.
    { rewrite len_page_at by lia. lia. }
    { intros Hmore. specialize (Hex ltac:(lia)).
      replace ((page + 1) * 1020 + 0 + (nRead - n)) with (page * 1020 + pageOffset + nRead)
        by lia. exact Hex. }
    { intros j Hpos' Hj HjE. apply (Hok j); lia. }
    exists cur'. split; [| exact Hcur'].
    rewrite Hrun. f_equal. rewrite <- app_assoc. f_equal.
    rewrite chunk_logical by lia.
    replace nRead with (n + (nRead - n)) at 2 by lia.
    rewrite logical_app by lia. f_equal.
    destruct (Z.eq_dec (nRead - n) 0) as [-> | Hmore]; [reflexivity |].
    f_equal. lia.
Qed.

Lemma read_over_buffer (a n cur : Z) :
  0 <= a -> 0 <= n -> 0 <= cur <= size -> size mod 1024 = 0 ->
  a + n <= logicalLength_ c -> logicalLength_ c <= size / 1024 * 1020 ->
  valid_policy (checkSumPolicy_ c) -> all_sealed host buf ->
  exists cur',
    (seek a Logical ;;; read host n) (over_buffer c size cur w)
    = Ok (logical buf a n) (over_buffer c size cur' w).
Proof.
  intros Ha Hn Hcur Hpages Hend Hcover Hpol Hsealed.
  assert (Hsplit : 0 <= a / 1020 /\ 0 <= a mod 1020 < 1020 /\
                   a / 1020 * 1020 + a mod 1020 = a) by (clear - Ha; divmod).
  destruct Hsplit as (Hpage & Hpo & Hsplit).
  assert (Hla : 0 <= l2p a <= size).
  { pose proof (l2p_bounds a Ha). split; [lia |]. unfold l2p.
    clear - Ha Hn Hend Hcover Hpages. divmod. }
  assert (Hle : 0 <= l2p (a + n) <= size).
  { pose proof (l2p_bounds (a + n) ltac:(lia)). split; [lia |]. unfold l2p.
    clear - Ha Hn Hend Hcover Hpages. divmod. }
  pose proof (l2p_bounds (a + n) ltac:(lia)) as Hbound.
  erewrite bind_ok by (apply seek_logical_memory; lia).
  unfold read.
  erewrite bind_ok by (apply position_logical_memory; lia).
  rewrite p2l_l2p by lia.
  unfold length. unfold bind at 1, gets at 1.
  change (logicalLength_ (this (over_buffer c size (l2p a) w))) with (logicalLength_ c).
  rewrite (u64_small (a + n)) by lia.
  rewrite ltb_false by lia.
  erewrite bind_ok by (apply getCurrentPageAndOffset_logical_memory; lia).
  rewrite p2l_l2p by lia.
  rewrite logicalPageSize_eq, physicalPageSize_eq.
  rewrite (u64_small (1020 - a mod 1020)) by lia.
  unfold bind at 1, gets at 1.
  change (checkSumPolicy_ (this (over_buffer c size (l2p a) w))) with (checkSumPolicy_ c).
  destruct (read_loop_over_buffer (Z.to_nat n) (checkSumPolicy_ c) n (a / 1020) (a mod 1020)
              (zeros 1024) [] (l2p a))
    as (cur' & Hrun & Hcur'); try assumption; try lia;
    rewrite ?Hsplit.
  { rewrite len_zeros. lia. }
  { intros _. clear - Ha Hn Hend Hcover Hpages. divmod. }
  { intros j _ Hj HjE. apply Hsealed.
    - lia.
    - rewrite <- Hsize. clear - HjE Hend Hcover Hpages. divmod. }
  rewrite Hsplit in Hrun.
  erewrite bind_ok by exact Hrun.
  erewrite bind_ok by (apply seek_logical_memory; lia).
  unfold ret. cbn [app]. eexists. reflexivity.
Qed.

End MemoryBacked.

Lemma CheckedFile_memory_built (policy : Z) (w : World) (size : Z) :
  0 <= size < 2 ^ 63 ->
  CheckedFile_memory size policy w
  = Ok tt (over_buffer (mkCheckedFile "<StreamBuffer>" (p2l size) size policy (-1) None true)
                       size 0 w).
Proof.
  intros Hsize. unfold CheckedFile_memory.
  unfold bind at 1, modify at 1. unfold bind at 1, modify at 1.
  unfold set_bufView, set_readOnly, fresh_object. proj_norm.
  set (c0 := mkCheckedFile "<StreamBuffer>" 0 0 policy (-1) None true).
  change (mkState (mkCheckedFile "<StreamBuffer>" 0 0 policy (-1)
                     (Some (mkBufferView size 0)) true) w)
    with (over_buffer c0 size 0 w).
  assert (Hfd0 : fd_ c0 < 0) by (cbn; lia).
  unfold bind at 1.
  rewrite (lseek64_memory _ _ 0 SEEK_END (memory_backed_over_buffer c0 size w Hfd0 0)).
  change (u64 0) with 0. unfold BufferView.seek. cbn [streamSize_ cursorStream_].
  rewrite Z.sub_0_r, u64_small by lia.
  destruct (Z.gtb_spec size size) as [Hgt | _]; [lia |].
  cbn [fst snd cursorStream_].
  unfold bind at 1, modify at 1.
  unfold set_physicalLength, set_bufView, over_buffer. subst c0. proj_norm.
  set (c1 := mkCheckedFile "<StreamBuffer>" 0 size policy (-1) None true).
  change (mkState (mkCheckedFile "<StreamBuffer>" 0 size policy (-1)
                     (Some (mkBufferView size size)) true) w)
    with (over_buffer c1 size size w).
  assert (Hfd1 : fd_ c1 < 0) by (cbn; lia).
  unfold bind at 1.
  rewrite (lseek64_memory _ _ 0 SEEK_SET (memory_backed_over_buffer c1 size w Hfd1 size)).
  change (u64 0) with 0. unfold BufferView.seek. cbn [streamSize_ cursorStream_].
  destruct (Z.gtb_spec 0 size) as [Hgt | _]; [lia |].
  cbn [fst snd cursorStream_].
  unfold modify, set_logicalLength, set_bufView, over_buffer. subst c1. proj_norm.
  rewrite physicalToLogical_p2l by lia. reflexivity.
Qed.

(** X22: an object over a caller's buffer reads like one over a file.  Built
    over an image of whole sealed pages, it has the logical length of the
    whole image, and every range inside it reads, under any policy of the
    specification, as the bytes the image holds there: the bytes a file in
    good order with that image gives.  No system call is made. *)
Theorem memory_reads_like_file
  (host : Endianness) (buf : list byte) (policy a n : Z) (w : World)
  (Hbuf : caller_buffer w = Some buf)
  (Hpages : len buf mod 1024 = 0) (Hsize : len buf < 2 ^ 62)
  (Hsealed : all_sealed host buf) (Hpolicy : valid_policy policy)
  (Ha : 0 <= a) (Hn : 0 <= n)
  (Hend : a + n <= len buf / physicalPageSize * logicalPageSize) :
  exists s s',
    CheckedFile_memory (len buf) policy w = Ok tt s /\
    length Logical s = Ok (len buf / physicalPageSize * logicalPageSize) s /\
    (seek a Logical ;;; read host n) s = Ok (logical buf a n) s' /\
    os s' = w.
Proof.
  pose proof (len_nonneg buf) as Hb0.
  rewrite physicalPageSize_eq, logicalPageSize_eq in *.
  assert (Hp2l : p2l (len buf) = len buf / 1024 * 1020)
    by (unfold p2l; clear - Hpages Hb0; divmod).
  set (c0 := mkCheckedFile "<StreamBuffer>" (p2l (len buf)) (len buf) policy (-1) None true).
  assert (Hfd0 : fd_ c0 < 0) by (cbn; lia).
  destruct (read_over_buffer host c0 (len buf) w buf Hfd0 Hbuf eq_refl ltac:(lia) a n 0)
    as (cur' & Hread); try assumption; try lia;
    try (cbn [c0 logicalLength_ checkSumPolicy_]; first [assumption | lia]).
  eexists. eexists.
  split; [apply CheckedFile_memory_built; lia |].
  split; [unfold length, gets; cbn; rewrite Hp2l; reflexivity |].
  split; [exact Hread | reflexivity].
Qed.

Lemma ten_byte_image_sealed : all_sealed LittleEndian ten_byte_image.
Proof. exact (consistent_sealed _ _ ten_byte_file_consistent). Qed.

Lemma memory_reads_like_file_witness :
  exists s s',
    CheckedFile_memory (len ten_byte_image) 0 (mkWorld [] 0 [] [] (Some ten_byte_image))
    = Ok tt s /\
    (seek 2 Logical ;;; read LittleEndian 8) s = Ok (repeat "171"%byte 8) s'.
Proof.
  pose proof (memory_reads_like_file LittleEndian ten_byte_image 0 2 8
                (mkWorld [] 0 [] [] (Some ten_byte_image)) eq_refl
                ltac:(vm_compute; reflexivity) ltac:(vm_compute; reflexivity)
                ten_byte_image_sealed ltac:(vm_compute; split; congruence)
                ltac:(lia) ltac:(lia) ltac:(vm_compute; congruence))
    as (s & s' & Hopen & _ & Hread & _).
  exists s, s'. split; [exact Hopen |].
  rewrite Hread. f_equal.
Defined.
